(** * pySensibo_Sky: the polling, diffing and notification engine

    A shallow embedding of [src/pySensibo_Sky/__init__.py]: the [Notify]
    router, [Client.bind], the derived readings [Pod.room_dew_point] and
    [Pod.room_heat_index], and one iteration of [Pod._poll]; then the
    rest of the interface: [Pod.bind], [Mode.bind],
    [Pod.battery_voltage], the setters of [Mode] and of [Pod.mode], and
    the life cycle of the polling thread.

    Conventions of the embedding.
    - Python 3 semantics on a POSIX host ([os.path.normcase] is the identity,
      [__metaclass__] is an ordinary class attribute).
    - A Python [float] is an IEEE-754 binary64 number: Rocq's primitive
      [float], whose [+ - * /] round to nearest-even exactly as the
      interpreter's do.
    - A [str] is a [string] of ASCII characters ([is_ascii]): on such
      text [str.lower] and [str.title] change the letters [a]-[z] and
      [A]-[Z] alone, [int] and [float] read the ASCII digits, and
      [fnmatch] takes one character for one byte.  Where the case of a
      letter of a name decides, the name is required to be ASCII.
    - A callback acts on the world it was written for and on nothing of
      the engine: it neither binds nor unbinds, it does not call the pod,
      and no other thread changes the registry while an event is
      dispatched.  (In the interpreter a registry that changes under the
      iteration of [Notify] ends the dispatch with [RuntimeError].)  What
      a property says of callbacks it says of these; a property that is
      to hold of any callback is stated on the trace of published events,
      given how the dispatches or the pass end.
    - JSON scalars ([None], [bool], [int], [float], [str]) are the values a
      state or measurement dictionary holds.
    - Dictionaries with string keys are [gmap string _]; the callback
      registry, whose iteration order is observable, is an association list
      in insertion order.
    - The capabilities of a mode are a record of the three keys the code
      reads, shaped as the vendor's documents are.
    - The client calls a pod from one thread; the polling thread is a
      second actor, and the two meet in a step relation. *)

From Stdlib Require Import ZArith Floats Ascii String List.
From stdpp Require Import gmap strings list.
Import ListNotations.

Set Warnings "-inexact-float".

(** ** Exceptions and results *)

Inductive exn :=
| AttributeError
| KeyError
| TypeError
| ValueError
| ZeroDivisionError
| OverflowError
| HTTPError                (* requests.HTTPError *)
| OtherError (tag : string). (* any other exception class *)

Definition exn_eqb (a b : exn) : bool :=
  match a, b with
  | AttributeError, AttributeError | KeyError, KeyError
  | TypeError, TypeError | ValueError, ValueError
  | ZeroDivisionError, ZeroDivisionError | OverflowError, OverflowError
  | HTTPError, HTTPError => true
  | OtherError s, OtherError t => String.eqb s t
  | _, _ => false
  end.

Inductive result (A : Type) :=
| Ok (a : A)
| Raise (e : exn).
Arguments Ok {A} a.
Arguments Raise {A} e.

Definition rbind {A B} (r : result A) (k : A -> result B) : result B :=
  match r with
  | Ok a => k a
  | Raise e => Raise e
  end.

Notation "'let*' x := e 'in' k" := (rbind e (fun x => k))
  (at level 10, x name, e at level 100, k at level 200).

(** ** Python values *)

Inductive pyval :=
| PNone
| PBool (b : bool)
| PInt (z : Z)
| PFloat (f : float)
| PStr (s : string).

Abbreviation dict := (gmap string pyval).

Definition is_None (v : pyval) : bool :=
  match v with PNone => true | _ => false end.

(** [int == float] compares the exact values. *)
Definition Z_eqb_float (z : Z) (f : float) : bool :=
  match Prim2SF f with
  | S754_zero _ => (z =? 0)%Z
  | S754_finite s m e =>
      let sm := if s then Z.neg m else Z.pos m in
      if (0 <=? e)%Z then (z =? sm * 2 ^ e)%Z
      else (z * 2 ^ (- e) =? sm)%Z
  | _ => false
  end.

Definition Z_of_bool (b : bool) : Z := if b then 1%Z else 0%Z.

(** [a == b] on scalars: numbers compare by value across [bool], [int]
    and [float] (a NaN differs from everything, itself included), strings
    with strings, [None] with [None]. *)
Definition py_eq (a b : pyval) : bool :=
  match a, b with
  | PNone, PNone => true
  | PBool x, PBool y => Bool.eqb x y
  | PBool x, PInt y => (Z_of_bool x =? y)%Z
  | PInt x, PBool y => (x =? Z_of_bool y)%Z
  | PInt x, PInt y => (x =? y)%Z
  | PBool x, PFloat y => Z_eqb_float (Z_of_bool x) y
  | PFloat x, PBool y => Z_eqb_float (Z_of_bool y) x
  | PInt x, PFloat y => Z_eqb_float x y
  | PFloat x, PInt y => Z_eqb_float y x
  | PFloat x, PFloat y => (x =? y)%float
  | PStr x, PStr y => String.eqb x y
  | _, _ => false
  end.

(** [a != b] *)
Definition py_ne (a b : pyval) : bool := negb (py_eq a b).

(** [bool(v)] *)
Definition py_bool (v : pyval) : bool :=
  match v with
  | PNone => false
  | PBool b => b
  | PInt z => negb (z =? 0)%Z
  | PFloat f => negb (f =? 0)%float
  | PStr s => negb (String.eqb s "")
  end.

(** [int -> float]: correctly rounded, [OverflowError] past the largest
    finite double. *)
Definition float_of_int (z : Z) : result float :=
  let f := SF2Prim (binary_normalize prec emax z 0 false) in
  if is_infinity f then Raise OverflowError else Ok f.

(** The coercion of an operand of a binary arithmetic operator whose other
    operand is a [float]. *)
Definition as_float (v : pyval) : result float :=
  match v with
  | PNone => Raise TypeError
  | PBool b => float_of_int (Z_of_bool b)
  | PInt z => float_of_int z
  | PFloat f => Ok f
  | PStr _ => Raise TypeError
  end.

(** [v > 0] *)
Definition py_gt0 (v : pyval) : result bool :=
  match v with
  | PNone => Raise TypeError
  | PBool b => Ok b
  | PInt z => Ok (0 <? z)%Z
  | PFloat f => Ok (0 <? f)%float
  | PStr _ => Raise TypeError
  end.

(** [x / y] on floats *)
Definition float_div (x y : float) : result float :=
  if (y =? 0)%float then Raise ZeroDivisionError else Ok (x / y)%float.

(** ** Strings *)

Definition ascii_lower (c : ascii) : ascii :=
  let n := nat_of_ascii c in
  if (65 <=? n)%nat && (n <=? 90)%nat then ascii_of_nat (n + 32) else c.

(** [s.lower()] on ASCII text: the letters [A]-[Z] are the only cased
    characters there. *)
Fixpoint lower (s : string) : string :=
  match s with
  | EmptyString => EmptyString
  | String c s' => String (ascii_lower c) (lower s')
  end.

(** A text of ASCII characters only: on it [lower] is [str.lower]. *)
Fixpoint is_ascii (s : string) : bool :=
  match s with
  | EmptyString => true
  | String c s' => (nat_of_ascii c <? 128)%nat && is_ascii s'
  end.

(** [c in s] for a one-character [c] *)
Fixpoint contains (c : ascii) (s : string) : bool :=
  match s with
  | EmptyString => false
  | String d s' => Ascii.eqb c d || contains c s'
  end.

(** [s.startswith(c)] for a one-character [c] *)
Definition startswith (c : ascii) (s : string) : bool :=
  match s with
  | String d _ => Ascii.eqb c d
  | EmptyString => false
  end.

(** ** Numbers spelled as text

    [int(s)] and [float(s)] on a [str]: white space is stripped from both
    ends, a sign may come first, the digits of a run may be separated by
    single underscores. *)

Definition is_space (c : ascii) : bool :=
  let n := nat_of_ascii c in
  ((9 <=? n)%nat && (n <=? 13)%nat) || (n =? 32)%nat.

Fixpoint lstrip (s : list ascii) : list ascii :=
  match s with
  | c :: s' => if is_space c then lstrip s' else s
  | [] => []
  end.

Definition strip (s : list ascii) : list ascii :=
  rev (lstrip (rev (lstrip s))).

Definition digit_value (c : ascii) : option Z :=
  let n := nat_of_ascii c in
  if (48 <=? n)%nat && (n <=? 57)%nat then Some (Z.of_nat (n - 48)) else None.

(** The rest of a run of digits after its first one, [(["_"] digit)*]:
    the number read, the count of its digits and the text left. *)
Fixpoint more_digits (acc : Z) (count : nat) (s : list ascii)
    : Z * nat * list ascii :=
  match s with
  | c :: s' =>
      match digit_value c with
      | Some d => more_digits (10 * acc + d) (S count) s'
      | None =>
          if Ascii.eqb c "_" then
            match s' with
            | c' :: s'' =>
                match digit_value c' with
                | Some d => more_digits (10 * acc + d) (S count) s''
                | None => (acc, count, s)
                end
            | [] => (acc, count, s)
            end
          else (acc, count, s)
      end
  | [] => (acc, count, [])
  end.

(** [digit (["_"] digit)*] *)
Definition digitpart (s : list ascii) : option (Z * nat * list ascii) :=
  match s with
  | c :: s' =>
      match digit_value c with
      | Some d => Some (more_digits d 1 s')
      | None => None
      end
  | [] => None
  end.

(** An optional sign: whether it is a minus, and the text after it. *)
Definition sign (s : list ascii) : bool * list ascii :=
  match s with
  | c :: s' =>
      if Ascii.eqb c "-" then (true, s')
      else if Ascii.eqb c "+" then (false, s')
      else (false, s)
  | [] => (false, [])
  end.

(** The interpreter's default limit on the digits of an [int] read from
    text ([sys.int_info.default_max_str_digits]). *)
Definition max_str_digits : nat := 4300.

(** [int(s)] in base ten, [None] standing for [ValueError]. *)
Definition int_of_text (s : string) : option Z :=
  let '(negative, t) := sign (strip (list_ascii_of_string s)) in
  match digitpart t with
  | Some (v, count, []) =>
      if (max_str_digits <? count)%nat then None
      else Some (if negative then (- v)%Z else v)
  | _ => None
  end.

(** The double nearest to [n / d], ties to even, for [0 <= n] and
    [0 < d]: the quotient is taken to 66 bits or more, and one bit is set
    below it when the division leaves a remainder, so that rounding the
    integer rounds the fraction.  Past the largest finite double the
    result is an infinity, as [float('1e400')] is. *)
Definition nearest_float (negative : bool) (n d : Z) : float :=
  if (n =? 0)%Z then SF2Prim (S754_zero negative)
  else
    let s := Z.max 0 (66 + Z.log2 d - Z.log2 n) in
    let q := (n * 2 ^ s / d)%Z in
    let sticky := if (n * 2 ^ s mod d =? 0)%Z then 0%Z else 1%Z in
    let m := (2 * q + sticky)%Z in
    SF2Prim (binary_normalize prec emax (if negative then (- m)%Z else m)
               (- s - 1) false).

(** [[digitpart] "." digitpart | digitpart ["."]], then
    [("e" | "E") [sign] digitpart] if there is more. *)
Definition floatnumber (negative : bool) (t : list ascii) : option float :=
  let '(whole, t1) :=
    match digitpart t with
    | Some (v, _, r) => (Some v, r)
    | None => (None, t)
    end in
  let '(fraction, t2) :=
    match t1 with
    | c :: r =>
        if Ascii.eqb c "." then
          match digitpart r with
          | Some (v, count, r') => (Some (v, count), r')
          | None => (None, r)
          end
        else (None, t1)
    | [] => (None, t1)
    end in
  let mantissa : option (Z * nat) :=
    match whole, fraction with
    | Some w, Some (f, count) => Some ((w * 10 ^ Z.of_nat count + f)%Z, count)
    | Some w, None => Some (w, O)
    | None, Some (f, count) => Some (f, count)
    | None, None => None
    end in
  match mantissa with
  | None => None
  | Some (m, count) =>
      let exponent : option Z :=
        match t2 with
        | [] => Some 0%Z
        | c :: r =>
            if Ascii.eqb c "e" || Ascii.eqb c "E" then
              let '(minus, r') := sign r in
              match digitpart r' with
              | Some (v, _, []) => Some (if minus then (- v)%Z else v)
              | _ => None
              end
            else None
        end in
      match exponent with
      | None => None
      | Some e =>
          let e' := (e - Z.of_nat count)%Z in
          Some (if (0 <=? e')%Z then nearest_float negative (m * 10 ^ e') 1
                else nearest_float negative m (10 ^ (- e')))
      end
  end.

(** [float(s)], [None] standing for [ValueError]: [inf], [infinity] and
    [nan] in any case of the letters, or a decimal number, which is
    rounded to the nearest double. *)
Definition float_of_text (s : string) : option float :=
  let '(negative, t) := sign (strip (list_ascii_of_string s)) in
  let word := lower (string_of_list_ascii t) in
  if String.eqb word "inf" || String.eqb word "infinity"
  then Some (if negative then neg_infinity else infinity)
  else if String.eqb word "nan" then Some nan
  else floatnumber negative t.

(** [float(v)] *)
Definition py_float (v : pyval) : result float :=
  match v with
  | PStr s =>
      match float_of_text s with
      | Some f => Ok f
      | None => Raise ValueError
      end
  | _ => as_float v
  end.

(** ** [fnmatch.fnmatch]

    The pattern is translated as [fnmatch.translate] does: [*] matches any
    run of characters, [?] any one character, [[seq]] and [[!seq]] a
    character class (a [[] with no closing bracket is literal), anything
    else itself; the whole name must match. *)

Inductive glob_tok :=
| GStar
| GAny
| GLit (c : ascii)
| GSet (negated : bool) (items : list (ascii * ascii)).

Fixpoint class_items (s : list ascii) : list (ascii * ascii) :=
  match s with
  | [] => []
  | a :: t =>
      match t with
      | d :: b :: r =>
          if Ascii.eqb d "-" then (a, b) :: class_items r
          else (a, a) :: class_items t
      | _ => (a, a) :: class_items t
      end
  end.

(** Splits at the first ["]"]. *)
Fixpoint until_rbracket (p : list ascii) : option (list ascii * list ascii) :=
  match p with
  | [] => None
  | c :: p' =>
      if Ascii.eqb c "]" then Some ([], p')
      else match until_rbracket p' with
           | Some (body, rest) => Some (c :: body, rest)
           | None => None
           end
  end.

(** The text after a ["["]: the class (negation flag and body) and what
    follows it, or [None] when the bracket is never closed. *)
Definition parse_class (p : list ascii) : option (bool * list ascii * list ascii) :=
  let '(neg, q) :=
    match p with
    | c :: q' => if Ascii.eqb c "!" then (true, q') else (false, p)
    | [] => (false, p)
    end in
  match q with
  | c :: q' =>
      if Ascii.eqb c "]" then
        match until_rbracket q' with
        | Some (body, rest) => Some (neg, c :: body, rest)
        | None => None
        end
      else
        match until_rbracket q with
        | Some (body, rest) => Some (neg, body, rest)
        | None => None
        end
  | [] => None
  end.

Fixpoint translate_aux (fuel : nat) (p : list ascii) : list glob_tok :=
  match fuel with
  | O => []
  | S fuel' =>
      match p with
      | [] => []
      | c :: p' =>
          if Ascii.eqb c "*" then GStar :: translate_aux fuel' p'
          else if Ascii.eqb c "?" then GAny :: translate_aux fuel' p'
          else if Ascii.eqb c "[" then
            match parse_class p' with
            | Some (neg, body, rest) =>
                GSet neg (class_items body) :: translate_aux fuel' rest
            | None => GLit c :: translate_aux fuel' p'
            end
          else GLit c :: translate_aux fuel' p'
      end
  end.

Definition translate (pat : string) : list glob_tok :=
  let p := list_ascii_of_string pat in translate_aux (length p) p.

Definition in_range (c : ascii) (r : ascii * ascii) : bool :=
  (nat_of_ascii (fst r) <=? nat_of_ascii c)%nat &&
  (nat_of_ascii c <=? nat_of_ascii (snd r))%nat.

Definition tok_accepts (t : glob_tok) (c : ascii) : bool :=
  match t with
  | GStar | GAny => true
  | GLit d => Ascii.eqb d c
  | GSet neg items => xorb neg (existsb (in_range c) items)
  end.

Fixpoint re_match (p : list glob_tok) (s : list ascii) : bool :=
  match p with
  | [] => match s with [] => true | _ => false end
  | GStar :: p' =>
      (fix star (s : list ascii) : bool :=
         re_match p' s ||
         match s with
         | [] => false
         | _ :: s' => star s'
         end) s
  | t :: p' =>
      match s with
      | [] => false
      | c :: s' => tok_accepts t c && re_match p' s'
      end
  end.

Definition fnmatch (name pat : string) : bool :=
  re_match (translate pat) (list_ascii_of_string name).

(** ** The [math] module and the power operator

    [math.exp], [math.log] and [**] on floats wrap the C library's
    [exp], [log] and [pow], which are taken as given; the wrappers turn a
    result outside the function's range into an exception, as the
    interpreter's [math_1] and [float_pow] do.  The library is taken to
    report a range error only along with an infinite or a zero result. *)

Class Libm := {
  libm_exp : float -> float;
  libm_log : float -> float;
  libm_pow : float -> float -> float
}.

Section Math.
Context `{!Libm}.

(** [math.exp(x)] *)
Definition math_exp (x : float) : result float :=
  let r := libm_exp x in
  if is_nan r && negb (is_nan x) then Raise ValueError
  else if is_infinity r && is_finite x then Raise OverflowError
  else Ok r.

Definition m_log (x : float) : float :=
  if is_finite x then
    if (0 <? x)%float then libm_log x
    else if (x =? 0)%float then neg_infinity
    else nan
  else if is_nan x then x
  else if (0 <? x)%float then x
  else nan.

(** [math.log(x)] *)
Definition math_log (x : float) : result float :=
  let r := m_log x in
  if is_nan r && negb (is_nan x) then Raise ValueError
  else if is_infinity r && is_finite x then Raise ValueError
  else Ok r.

(** [x ** 2] on a float, as [float_pow] has it: a NaN, an infinity, a
    zero and a one are answered without the library; any other operand
    goes to [pow] by its absolute value (the exponent is even), and an
    infinite result is the range error the interpreter raises
    [OverflowError] for. *)
Definition float_sq (x : float) : result float :=
  if is_nan x then Ok x
  else if is_infinity x then Ok (abs x)
  else if (x =? 0)%float then Ok 0%float
  else if (abs x =? 1)%float then Ok 1%float
  else
    let r := libm_pow (abs x) 2 in
    if is_infinity r then Raise OverflowError else Ok r.

(** [v ** 2] *)
Definition py_sq (v : pyval) : result pyval :=
  match v with
  | PNone => Raise TypeError
  | PBool b => Ok (PInt (Z_of_bool b * Z_of_bool b))
  | PInt z => Ok (PInt (z * z))
  | PFloat f => let* r := float_sq f in Ok (PFloat r)
  | PStr _ => Raise TypeError
  end.
End Math.

(** [math.fsum]: the interpreter's running list of non-overlapping
    partial sums, smallest magnitude first. *)

Fixpoint fsum_fold (x : float) (partials : list float) : list float * float :=
  match partials with
  | [] => ([], x)
  | y :: ps =>
      let '(x, y) := if (abs x <? abs y)%float then (y, x) else (x, y) in
      let hi := (x + y)%float in
      let yr := (hi - x)%float in
      let lo := (y - yr)%float in
      let '(kept, top) := fsum_fold hi ps in
      (if (lo =? 0)%float then kept else lo :: kept, top)
  end.

Record fsum_state := {
  fs_partials : list float;
  fs_special : float;
  fs_inf : float
}.

Definition fsum_add (st : fsum_state) (xsave : float) : result fsum_state :=
  let '(kept, x) := fsum_fold xsave (fs_partials st) in
  if (x =? 0)%float then
    Ok {| fs_partials := kept; fs_special := fs_special st; fs_inf := fs_inf st |}
  else if negb (is_finite x) then
    if is_finite xsave then Raise OverflowError
    else
      Ok {| fs_partials := [];
            fs_special := (fs_special st + xsave)%float;
            fs_inf := if is_infinity xsave then (fs_inf st + xsave)%float
                      else fs_inf st |}
  else
    Ok {| fs_partials := kept ++ [x];
          fs_special := fs_special st; fs_inf := fs_inf st |}.

Fixpoint fsum_loop (st : fsum_state) (xs : list float) : result fsum_state :=
  match xs with
  | [] => Ok st
  | x :: xs' => let* st' := fsum_add st x in fsum_loop st' xs'
  end.

(** Sums the partials from the largest down, stopping at the first inexact
    sum, then corrects a half-way case against the next partial. *)
Fixpoint fsum_top (hi : float) (below : list float) : float :=
  match below with
  | [] => hi
  | y :: rest =>
      let x := hi in
      let hi' := (x + y)%float in
      let yr := (hi' - x)%float in
      let lo := (y - yr)%float in
      if (lo =? 0)%float then fsum_top hi' rest
      else
        match rest with
        | [] => hi'
        | p :: _ =>
            if ((lo <? 0) && (p <? 0) || (0 <? lo) && (0 <? p))%float then
              let y2 := (lo * 2)%float in
              let x2 := (hi' + y2)%float in
              let yr2 := (x2 - hi')%float in
              if (y2 =? yr2)%float then x2 else hi'
            else hi'
        end
  end.

Definition math_fsum (xs : list float) : result float :=
  let* st :=
    fsum_loop {| fs_partials := []; fs_special := 0; fs_inf := 0 |} xs in
  if negb (fs_special st =? 0)%float then
    if is_nan (fs_inf st) then Raise ValueError else Ok (fs_special st)
  else
    match rev (fs_partials st) with
    | [] => Ok 0%float
    | hi :: below => Ok (fsum_top hi below)
    end.

(** ** Unit conversion *)

Definition c2f (c_temp : pyval) : result float :=
  let* c := py_float c_temp in Ok (c * 9.0 / 5.0 + 32.0)%float.

Definition f2c (f_temp : pyval) : result float :=
  let* f := py_float f_temp in Ok ((f - 32.0) * 5.0 / 9.0)%float.

(** ** The arithmetic of the derived readings

    The bodies of [Pod.room_dew_point] and [Pod.room_heat_index] below the
    resolution of the unit of measure, operand by operand in evaluation
    order. *)

Section Derived.
Context `{!Libm}.

Definition sq_float (v : pyval) : result float :=
  let* s := py_sq v in as_float s.

Definition dew_point_of (temp humidity : pyval) (fnht : bool) : result float :=
  let* temp := if fnht then (let* t := f2c temp in Ok (PFloat t)) else Ok temp in
  let* positive := py_gt0 temp in
  let var1 := if positive then 17.368%float else 17.966%float in
  let var2 := if positive then 238.88%float else 247.15%float in
  let* h := as_float humidity in
  let* t := as_float temp in
  let* q := float_div (var1 * t) (var2 + t) in
  let* e := math_exp q in
  let pa := (h / 100 * e)%float in
  let* l1 := math_log pa in
  let* l2 := math_log pa in
  let* dew_point := float_div (var2 * l1) (var1 - l2) in
  if fnht then c2f (PFloat dew_point) else Ok dew_point.

(** The simple average of the heat index, on a Fahrenheit temperature. *)
Definition heat_index_simple (temp humidity : pyval) : result float :=
  let* t := as_float temp in
  let* h := as_float humidity in
  Ok (0.5 * (t + 61.0 + (t - 68.0) * 1.2 + h * 0.094))%float.

(** The Rothfusz regression, on a Fahrenheit temperature. *)
Definition heat_index_rothfusz (temp humidity : pyval) : result float :=
  let* t := as_float temp in
  let* h := as_float humidity in
  let c2 := (2.04901523 * t)%float in
  let c3 := (10.14333127 * h)%float in
  let c4 := (-0.22475541 * t * h)%float in
  let* t2 := sq_float temp in
  let c5 := (-6.83783e-3 * t2)%float in
  let* h2 := sq_float humidity in
  let c6 := (-5.481717e-2 * h2)%float in
  let c7 := (1.22874e-3 * t2 * h)%float in
  let c8 := (8.5282e-4 * t * h2)%float in
  let c9 := (-1.99e-6 * t2 * h2)%float in
  math_fsum [(-42.379)%float; c2; c3; c4; c5; c6; c7; c8; c9].

Definition heat_index_of (temp humidity : pyval) (clcs : bool) : result float :=
  let* temp := if clcs then (let* t := c2f temp in Ok (PFloat t)) else Ok temp in
  let* heat_index := heat_index_simple temp humidity in
  let* heat_index :=
    if (80 <=? heat_index)%float then heat_index_rothfusz temp humidity
    else Ok heat_index in
  if clcs then f2c (PFloat heat_index) else Ok heat_index.
End Derived.

(** ** The state the engine runs in

    One record holds everything a poll iteration reads or writes: the
    router's registry, the pod's attributes, the locals of [_poll] that
    survive from one iteration to the next, and the outside world.

    - [callbacks] is [Notify.__callbacks]; [world] is whatever the
      callbacks act on (a callback cannot reach the registry itself);
    - [invoked] and [published] are traces: the (pattern, id) of every
      callback called, and the arguments of every call of [Notify];
    - [next_guid] supplies the ids [uuid4] draws;
    - [cloud n r] is the server's reply to request [r] when it is the
      [n]-th request sent, transport and decoding included; [requests]
      counts the requests sent;
    - [pod_name] is [self.name], [capabilities_modes] the keys of
      [self.capabilities['modes']] (cached by [Pod.__init__]), [_mode] the
      name of [self._mode], [__fnht] and [__clcs] the cached unit flags;
    - [old_state] and [old_measurements] are the baselines of [_poll]. *)

Definition guid := nat.

Inductive source :=
| PodObj (name : string)
| ModeObj (pod mode : string).

Record event := {
  ev_name : string;
  ev_value : pyval;
  ev_obj : source
}.

Inductive request :=
| ReqAcState
| ReqMeasurements (battery : bool).

Section State.
Context {W : Type}.

Definition callback := string -> pyval -> source -> W -> W * option exn.
Definition registry := list (string * list (guid * callback)).

Record St := {
  callbacks : registry;
  world : W;
  invoked : list (string * guid);
  published : list event;
  next_guid : guid;
  cloud : nat -> request -> result dict;
  requests : nat;
  pod_name : string;
  capabilities_modes : gset string;
  _mode : string;
  __fnht : option bool;
  __clcs : option bool;
  old_state : dict;
  old_measurements : dict
}.

Definition with_callbacks (v : registry) (st : St) : St :=
  {| callbacks := v;
     world := world st;
     invoked := invoked st;
     published := published st;
     next_guid := next_guid st;
     cloud := cloud st;
     requests := requests st;
     pod_name := pod_name st;
     capabilities_modes := capabilities_modes st;
     _mode := _mode st;
     __fnht := __fnht st;
     __clcs := __clcs st;
     old_state := old_state st;
     old_measurements := old_measurements st |}.

Definition with_world (v : W) (st : St) : St :=
  {| callbacks := callbacks st;
     world := v;
     invoked := invoked st;
     published := published st;
     next_guid := next_guid st;
     cloud := cloud st;
     requests := requests st;
     pod_name := pod_name st;
     capabilities_modes := capabilities_modes st;
     _mode := _mode st;
     __fnht := __fnht st;
     __clcs := __clcs st;
     old_state := old_state st;
     old_measurements := old_measurements st |}.

Definition with_invoked (v : list (string * guid)) (st : St) : St :=
  {| callbacks := callbacks st;
     world := world st;
     invoked := v;
     published := published st;
     next_guid := next_guid st;
     cloud := cloud st;
     requests := requests st;
     pod_name := pod_name st;
     capabilities_modes := capabilities_modes st;
     _mode := _mode st;
     __fnht := __fnht st;
     __clcs := __clcs st;
     old_state := old_state st;
     old_measurements := old_measurements st |}.

Definition with_published (v : list event) (st : St) : St :=
  {| callbacks := callbacks st;
     world := world st;
     invoked := invoked st;
     published := v;
     next_guid := next_guid st;
     cloud := cloud st;
     requests := requests st;
     pod_name := pod_name st;
     capabilities_modes := capabilities_modes st;
     _mode := _mode st;
     __fnht := __fnht st;
     __clcs := __clcs st;
     old_state := old_state st;
     old_measurements := old_measurements st |}.

Definition with_next_guid (v : guid) (st : St) : St :=
  {| callbacks := callbacks st;
     world := world st;
     invoked := invoked st;
     published := published st;
     next_guid := v;
     cloud := cloud st;
     requests := requests st;
     pod_name := pod_name st;
     capabilities_modes := capabilities_modes st;
     _mode := _mode st;
     __fnht := __fnht st;
     __clcs := __clcs st;
     old_state := old_state st;
     old_measurements := old_measurements st |}.

Definition with_requests (v : nat) (st : St) : St :=
  {| callbacks := callbacks st;
     world := world st;
     invoked := invoked st;
     published := published st;
     next_guid := next_guid st;
     cloud := cloud st;
     requests := v;
     pod_name := pod_name st;
     capabilities_modes := capabilities_modes st;
     _mode := _mode st;
     __fnht := __fnht st;
     __clcs := __clcs st;
     old_state := old_state st;
     old_measurements := old_measurements st |}.

Definition with_mode (v : string) (st : St) : St :=
  {| callbacks := callbacks st;
     world := world st;
     invoked := invoked st;
     published := published st;
     next_guid := next_guid st;
     cloud := cloud st;
     requests := requests st;
     pod_name := pod_name st;
     capabilities_modes := capabilities_modes st;
     _mode := v;
     __fnht := __fnht st;
     __clcs := __clcs st;
     old_state := old_state st;
     old_measurements := old_measurements st |}.

Definition with_fnht (v : option bool) (st : St) : St :=
  {| callbacks := callbacks st;
     world := world st;
     invoked := invoked st;
     published := published st;
     next_guid := next_guid st;
     cloud := cloud st;
     requests := requests st;
     pod_name := pod_name st;
     capabilities_modes := capabilities_modes st;
     _mode := _mode st;
     __fnht := v;
     __clcs := __clcs st;
     old_state := old_state st;
     old_measurements := old_measurements st |}.

Definition with_clcs (v : option bool) (st : St) : St :=
  {| callbacks := callbacks st;
     world := world st;
     invoked := invoked st;
     published := published st;
     next_guid := next_guid st;
     cloud := cloud st;
     requests := requests st;
     pod_name := pod_name st;
     capabilities_modes := capabilities_modes st;
     _mode := _mode st;
     __fnht := __fnht st;
     __clcs := v;
     old_state := old_state st;
     old_measurements := old_measurements st |}.

Definition with_old_state (v : dict) (st : St) : St :=
  {| callbacks := callbacks st;
     world := world st;
     invoked := invoked st;
     published := published st;
     next_guid := next_guid st;
     cloud := cloud st;
     requests := requests st;
     pod_name := pod_name st;
     capabilities_modes := capabilities_modes st;
     _mode := _mode st;
     __fnht := __fnht st;
     __clcs := __clcs st;
     old_state := v;
     old_measurements := old_measurements st |}.

Definition with_old_measurements (v : dict) (st : St) : St :=
  {| callbacks := callbacks st;
     world := world st;
     invoked := invoked st;
     published := published st;
     next_guid := next_guid st;
     cloud := cloud st;
     requests := requests st;
     pod_name := pod_name st;
     capabilities_modes := capabilities_modes st;
     _mode := _mode st;
     __fnht := __fnht st;
     __clcs := __clcs st;
     old_state := old_state st;
     old_measurements := v |}.

(** State and exceptions. *)
Definition M (A : Type) := St -> St * result A.

Definition ret {A} (a : A) : M A := fun st => (st, Ok a).
Definition raise {A} (e : exn) : M A := fun st => (st, Raise e).
Definition lift {A} (r : result A) : M A := fun st => (st, r).
Definition bind {A B} (m : M A) (k : A -> M B) : M B :=
  fun st =>
    match m st with
    | (st', Ok a) => k a st'
    | (st', Raise e) => (st', Raise e)
    end.
Definition gets {A} (f : St -> A) : M A := fun st => (st, Ok (f st)).
Definition modify (f : St -> St) : M unit := fun st => (f st, Ok tt).
Definition when (b : bool) (m : M unit) : M unit :=
  if b then m else ret tt.

(** [try: body except E: handler], [catches] deciding the class. *)
Definition try_except {A} (body : M A) (catches : exn -> bool)
    (handler : M A) : M A :=
  fun st =>
    match body st with
    | (st', Raise e) => if catches e then handler st' else (st', Raise e)
    | r => r
    end.
End State.

Arguments St W : clear implicits.
Arguments callback W : clear implicits.
Arguments registry W : clear implicits.

Notation "x <- m ;; k" := (bind m (fun x => k))
  (at level 20, m at level 99, k at level 200).
Notation "m ;; k" := (bind m (fun _ => k))
  (at level 100, k at level 200, right associativity).

(** ** [class Notify] *)

Section Router.
Context {W : Type}.

Definition new_guid : M (W := W) guid :=
  g <- gets next_guid ;;
  modify (with_next_guid (S g)) ;;
  ret g.

(** [d[guid] = callback] on one pattern's dictionary *)
Fixpoint callbacks_set (g : guid) (cb : callback W)
    (d : list (guid * callback W)) : list (guid * callback W) :=
  match d with
  | [] => [(g, cb)]
  | (g', cb') :: d' =>
      if (g' =? g)%nat then (g', cb) :: d'
      else (g', cb') :: callbacks_set g cb d'
  end.

(** [if event not in d: d[event] = {}] then [d[event][guid] = callback] *)
Fixpoint registry_set (event : string) (g : guid) (cb : callback W)
    (d : registry W) : registry W :=
  match d with
  | [] => [(event, [(g, cb)])]
  | (e, cbs) :: d' =>
      if String.eqb e event then (e, callbacks_set g cb cbs) :: d'
      else (e, cbs) :: registry_set event g cb d'
  end.

Definition Notify_bind (event : string) (cb : callback W) : M guid :=
  g <- new_guid ;;
  d <- gets callbacks ;;
  modify (with_callbacks (registry_set event g cb d)) ;;
  ret g.

Definition registry_del (g : guid) (d : registry W) : registry W :=
  map (fun '(e, cbs) =>
         (e, filter (fun '(g', _) => negb (g' =? g)%nat) cbs)) d.

Definition Notify_unbind (g : guid) : M unit :=
  d <- gets callbacks ;;
  modify (with_callbacks (registry_del g d)).

(** One call [callback(event, value, obj)]. *)
Definition call (pattern : string) (g : guid) (cb : callback W)
    (event : string) (value : pyval) (obj : source) : M unit :=
  fun st =>
    let '(w, r) := cb event value obj (world st) in
    let st' := with_invoked (invoked st ++ [(pattern, g)]) (with_world w st) in
    match r with
    | None => (st', Ok tt)
    | Some e => (st', Raise e)
    end.

Fixpoint process_callbacks (e : string) (cbs : list (guid * callback W))
    (event : string) (value : pyval) (obj : source) : M unit :=
  match cbs with
  | [] => ret tt
  | (g, cb) :: rest =>
      call e g cb event value obj ;;
      process_callbacks e rest event value obj
  end.

(** The test the loop of [Notify.__call__] applies to one pattern. *)
Definition matches (evt event : string) : bool :=
  if (contains "*" evt || contains "?" evt) && fnmatch event evt then true
  else String.eqb (lower evt) event.

Fixpoint dispatch (d : registry W) (event : string) (value : pyval)
    (obj : source) : M unit :=
  match d with
  | [] => ret tt
  | (evt, cbs) :: rest =>
      (if (contains "*" evt || contains "?" evt) && fnmatch event evt
       then process_callbacks evt cbs event value obj
       else if String.eqb (lower evt) event
       then process_callbacks evt cbs event value obj
       else ret tt) ;;
      dispatch rest event value obj
  end.

(** [Notify(event, value, obj)], that is [Notify.__call__] (source lines
    107-117), which also records the call in [published]. *)
Definition Notify (event : string) (value : pyval) (obj : source) : M unit :=
  st <- gets id ;;
  modify (with_published
            (published st ++
             [{| ev_name := event; ev_value := value; ev_obj := obj |}])) ;;
  dispatch (callbacks st) event value obj.

(** [Client.bind] *)
Definition Client_property_names : list string :=
  ["mode"; "power"; "room_temp"; "room_humidity"; "battery_voltage";
   "swing"; "temp"; "fan_level"; "temp_unit"; "*"].

Definition Client_bind (property_name : string) (cb : callback W) : M guid :=
  if negb (existsb (String.eqb property_name) Client_property_names)
  then raise ValueError
  else Notify_bind ("*" +:+ property_name) cb.

(** [Pod.bind]: both slices are taken of the six-element tuple, so the
    first holds every name and the second none. *)
Definition Pod_property_names : list string :=
  ["mode"; "power"; "room_temp"; "room_humidity"; "battery_voltage"; "*"].

Definition Pod_bind (property_name : string) (cb : callback W) : M guid :=
  name <- gets pod_name ;;
  if existsb (String.eqb property_name) (take 6 Pod_property_names)
  then Notify_bind (name +:+ "." +:+ property_name) cb
  else if existsb (String.eqb property_name) (drop 6 Pod_property_names)
  then Notify_bind (name +:+ ".*." +:+ property_name) cb
  else raise ValueError.
End Router.

(** ** [class Mode] and [class Pod] *)

(** [d[k]] *)
Definition subscript (d : dict) (k : string) : result pyval :=
  match d !! k with
  | Some v => Ok v
  | None => Raise KeyError
  end.

(** [d[k] if k in d else None] *)
Definition get_or_None (d : dict) (k : string) : pyval :=
  match d !! k with
  | Some v => v
  | None => PNone
  end.

(** [v.lower()]: only a string has the method. *)
Definition py_lower (v : pyval) : result string :=
  match v with
  | PStr s => Ok (lower s)
  | _ => Raise AttributeError
  end.

Section Pod.
Context {W : Type} `{!Libm}.

Definition http_get (r : request) : M (W := W) dict :=
  fun st => (with_requests (S (requests st)) st, cloud st (requests st) r).

(** [Pod.state] *)
Definition Pod_state : M (W := W) dict := http_get ReqAcState.

(** [Pod._measurements] *)
Definition Pod__measurements : M (W := W) dict :=
  try_except (http_get (ReqMeasurements true)) (exn_eqb HTTPError)
             (http_get (ReqMeasurements false)).

(** [Pod.room_temp] *)
Definition Pod_room_temp : M (W := W) pyval :=
  try_except (m <- Pod__measurements ;; lift (subscript m "temperature"))
             (exn_eqb KeyError) (raise AttributeError).

(** [Pod.room_humidity] *)
Definition Pod_room_humidity : M (W := W) pyval :=
  try_except (m <- Pod__measurements ;; lift (subscript m "humidity"))
             (exn_eqb KeyError) (raise AttributeError).

(** [Mode.temp_unit] (the getter) *)
Definition Mode_temp_unit : M (W := W) pyval :=
  state <- Pod_state ;;
  match state !! "temperatureUnit" with
  | Some v => ret v
  | None => raise AttributeError
  end.

(** [Pod.room_dew_point] *)
Definition Pod_room_dew_point : M (W := W) float :=
  temp <- Pod_room_temp ;;
  humidity <- Pod_room_humidity ;;
  fnht <- try_except
            (unit <- Mode_temp_unit ;;
             l <- lift (py_lower unit) ;;
             let fnht := startswith "f" l in
             modify (with_fnht (Some fnht)) ;;
             modify (with_clcs (Some (negb fnht))) ;;
             ret fnht)
            (exn_eqb AttributeError)
            (cached <- gets __fnht ;;
             match cached with
             | None => raise AttributeError
             | Some fnht => ret fnht
             end) ;;
  lift (dew_point_of temp humidity fnht).

(** [Pod.room_heat_index] *)
Definition Pod_room_heat_index : M (W := W) float :=
  temp <- Pod_room_temp ;;
  humidity <- Pod_room_humidity ;;
  clcs <- try_except
            (unit <- Mode_temp_unit ;;
             l <- lift (py_lower unit) ;;
             let clcs := startswith "c" l in
             modify (with_clcs (Some clcs)) ;;
             modify (with_fnht (Some (negb clcs))) ;;
             ret clcs)
            (exn_eqb AttributeError)
            (cached <- gets __clcs ;;
             match cached with
             | None => raise AttributeError
             | Some clcs => ret clcs
             end) ;;
  lift (heat_index_of temp humidity clcs).

(** [Mode(self, mode, self.capabilities['modes'][mode])]: the name of the
    mode object, once the subscript has found its capabilities. *)
Definition Mode_of (mode : pyval) : M (W := W) string :=
  modes <- gets capabilities_modes ;;
  match mode with
  | PStr s => if bool_decide (s ∈ modes) then ret s else raise KeyError
  | _ => raise KeyError
  end.

(** [v is not None and v != old_state[key]] *)
Definition state_changed (v : pyval) (key : string) : M (W := W) bool :=
  if is_None v then ret false
  else
    old <- gets old_state ;;
    o <- lift (subscript old key) ;;
    ret (py_ne v o).

(** [v != old_measurements[key]] *)
Definition measurement_changed (v : pyval) (key : string) : M (W := W) bool :=
  old <- gets old_measurements ;;
  o <- lift (subscript old key) ;;
  ret (py_ne v o).

(** [old_state[key] = v] *)
Definition old_state_set (key : string) (v : pyval) : M (W := W) unit :=
  old <- gets old_state ;;
  modify (with_old_state (<[key := v]> old)).

(** [old_measurements[key] = v] *)
Definition old_measurements_set (key : string) (v : pyval) : M (W := W) unit :=
  old <- gets old_measurements ;;
  modify (with_old_measurements (<[key := v]> old)).

(** The block of a mode-scoped field: [swing], [targetTemperature],
    [fanLevel], [temperatureUnit]. *)
Definition scoped_field (v : pyval) (key property : string) : M (W := W) unit :=
  c <- state_changed v key ;;
  when c
    (old_state_set key v ;;
     name <- gets pod_name ;;
     mode_name <- gets _mode ;;
     Notify (name +:+ "." +:+ mode_name +:+ "." +:+ property) v
            (ModeObj name mode_name)).

Definition hi_dp_event : M (W := W) unit :=
  try_except
    (name <- gets pod_name ;;
     dew_point <- Pod_room_dew_point ;;
     Notify (name +:+ ".room_dew_point") (PFloat dew_point) (PodObj name) ;;
     heat_index <- Pod_room_heat_index ;;
     Notify (name +:+ ".room_heat_index") (PFloat heat_index) (PodObj name))
    (exn_eqb AttributeError)
    (ret tt).

Definition rh_event (humidity : pyval) : M (W := W) unit :=
  name <- gets pod_name ;;
  Notify (name +:+ ".room_humidity") humidity (PodObj name).

Definition temp_event (temperature : pyval) : M (W := W) unit :=
  name <- gets pod_name ;;
  Notify (name +:+ ".room_temp") temperature (PodObj name).

(** The device-state half of one iteration of [_poll]'s loop (source
    lines 505-533 and 549-598). *)
Definition diff_state (state : dict) : M (W := W) unit :=
  let mode := get_or_None state "mode" in
  let swing := get_or_None state "swing" in
  let temp := get_or_None state "targetTemperature" in
  let fan := get_or_None state "fanLevel" in
  let power := get_or_None state "on" in
  let temp_unit := get_or_None state "temperatureUnit" in
  c <- state_changed mode "mode" ;;
  when c
    (m <- Mode_of mode ;;
     modify (with_mode m) ;;
     old_state_set "mode" mode ;;
     name <- gets pod_name ;;
     mode_name <- gets _mode ;;
     Notify (name +:+ ".mode") (PStr mode_name) (PodObj name)) ;;
  scoped_field swing "swing" "swing" ;;
  scoped_field temp "targetTemperature" "temp" ;;
  scoped_field fan "fanLevel" "fan_level" ;;
  c <- state_changed power "on" ;;
  when c
    (old_state_set "on" power ;;
     name <- gets pod_name ;;
     Notify (name +:+ ".power") (PBool (py_bool power)) (PodObj name)) ;;
  scoped_field temp_unit "temperatureUnit" "temp_unit".

(** The measurement half (source lines 535-547 and 600-656). *)
Definition diff_measurements (measurements : dict) : M (W := W) unit :=
  let temperature := get_or_None measurements "temperature" in
  let humidity := get_or_None measurements "humidity" in
  let battery_voltage := get_or_None measurements "batteryVoltage" in
  h <- measurement_changed humidity "humidity" ;;
  both <- (if h then measurement_changed temperature "temperature"
           else ret false) ;;
  (if both then
     old_measurements_set "temperature" temperature ;;
     old_measurements_set "humidity" humidity ;;
     temp_event temperature ;;
     rh_event humidity ;;
     hi_dp_event
   else
     t <- measurement_changed temperature "temperature" ;;
     if t then
       old_measurements_set "temperature" temperature ;;
       temp_event temperature ;;
       hi_dp_event
     else
       h <- measurement_changed humidity "humidity" ;;
       when h
         (old_measurements_set "humidity" humidity ;;
          rh_event humidity ;;
          hi_dp_event)) ;;
  b <- measurement_changed battery_voltage "batteryVoltage" ;;
  when b
    (old_measurements_set "batteryVoltage" battery_voltage ;;
     name <- gets pod_name ;;
     Notify (name +:+ ".battery_voltage") battery_voltage (PodObj name)).

(** One diff pass: the fetched dictionaries against the baselines. *)
Definition diff (state measurements : dict) : M (W := W) unit :=
  diff_state state ;;
  diff_measurements measurements.

(** One iteration of the [while] loop of [Pod._poll], up to the wait. *)
Definition poll_iteration : M (W := W) unit :=
  state <- Pod_state ;;
  measurements <- Pod__measurements ;;
  diff state measurements.

(** The baselines [_poll] takes before the loop (source lines 472-499). *)
Definition blank_state : dict :=
  <["mode" := PNone]> (<["swing" := PNone]> (<["targetTemperature" := PNone]>
  (<["fanLevel" := PNone]> (<["on" := PNone]>
  (<["temperatureUnit" := PNone]> ∅))))).

Definition poll_baseline : M (W := W) unit :=
  state <- Pod_state ;;
  modify (with_old_state (state ∪ blank_state)) ;;
  measurements <- Pod__measurements ;;
  modify (with_old_measurements
            (<["batteryVoltage" := get_or_None measurements "batteryVoltage"]>
            (<["humidity" := get_or_None measurements "humidity"]>
            (<["temperature" := get_or_None measurements "temperature"]> ∅)))).

Fixpoint poll_loop (iterations : nat) : M (W := W) unit :=
  match iterations with
  | O => ret tt
  | S n => poll_iteration ;; poll_loop n
  end.

(** [Pod._poll], the stop event being set after [iterations] rounds. *)
Definition Pod__poll (iterations : nat) : M (W := W) unit :=
  poll_baseline ;;
  poll_loop iterations.
End Pod.

(** ** The rest of the interface

    The operations of [Notify], [Client], [Pod] and [Mode] beside the
    poll loop. *)

Section Binding.
Context {W : Type}.

(** [Mode.bind], [self_name] being [self.name]. *)
Definition Mode_property_names : list string :=
  ["swing"; "temp"; "fan_level"; "temp_unit"; "*"].

Definition Mode_bind (self_name property_name : string) (cb : callback W)
    : M guid :=
  if negb (existsb (String.eqb property_name) Mode_property_names)
  then raise ValueError
  else
    name <- gets pod_name ;;
    Notify_bind (name +:+ "." +:+ self_name +:+ "." +:+ property_name) cb.
End Binding.

Section Readings.
Context {W : Type}.

(** [Pod.battery_voltage] *)
Definition Pod_battery_voltage : M (W := W) pyval :=
  try_except (m <- Pod__measurements ;; lift (subscript m "batteryVoltage"))
             (exn_eqb KeyError) (raise AttributeError).
End Readings.

(** ** The polling thread's life cycle

    [start_poll], [stop_poll] and [is_polling] on one side, the thread
    that runs [_poll] on the other, act on two attributes of the pod:
    [self._thread] and [self._event].  The calls of the client are made
    from one thread, one after the other; the steps of the polling
    threads may fall anywhere between them.

    - [_thread] is [self._thread is not None], [_event] is
      [self._event.isSet()];
    - [pollers] are the live threads that run [_poll]: [Looping] up to and
      in the [while] loop, [Leaving] between [self._thread = None] and
      [self._event.clear()] (source lines 660-661). *)

Inductive poller :=
| Looping
| Leaving.

Record Life := {
  _thread : bool;
  _event : bool;
  pollers : list poller
}.

(** A pod as [Pod.__init__] leaves it. *)
Definition idle : Life := {| _thread := false; _event := false; pollers := [] |}.

(** [Pod.is_polling] *)
Definition is_polling (l : Life) : bool := _thread l && negb (_event l).

(** [Pod.start_poll]: [None] while the call spins on [self._event.isSet()]. *)
Definition start_poll (l : Life) : option Life :=
  if _event l then None
  else if _thread l then Some l
  else Some {| _thread := true; _event := _event l;
               pollers := pollers l ++ [Looping] |}.

(** [Pod.stop_poll], up to the [join]; the [join] itself only waits. *)
Definition stop_poll (l : Life) : Life :=
  if _thread l
  then {| _thread := _thread l; _event := true; pollers := pollers l |}
  else l.

(** What a thread that runs [_poll] can do: find the event set at the
    loop test and clear [self._thread]; clear the event and end; or be
    ended by an exception that leaves [_poll], the attributes staying as
    they are. *)
Inductive thread_step : Life -> Life -> Prop :=
| step_leave l a b :
    pollers l = a ++ Looping :: b -> _event l = true ->
    thread_step l {| _thread := false; _event := _event l;
                     pollers := a ++ Leaving :: b |}
| step_clear l a b :
    pollers l = a ++ Leaving :: b ->
    thread_step l {| _thread := _thread l; _event := false;
                     pollers := a ++ b |}
| step_die l a b :
    pollers l = a ++ Looping :: b ->
    thread_step l {| _thread := _thread l; _event := _event l;
                     pollers := a ++ b |}.

(** One step of the pod's life: a call of the client that returns, or a
    step of a polling thread. *)
Inductive life_step : Life -> Life -> Prop :=
| call_start l l' : start_poll l = Some l' -> life_step l l'
| call_stop l : life_step l (stop_poll l)
| of_thread l l' : thread_step l l' -> life_step l l'.

(** ** Changing the device

    The setters send a [PATCH] request.  [sent] records the requests
    sent, oldest first; [patch_reply n p] is what the [n]-th of them
    comes back with when it is [p]: nothing, or the exception of the
    transport, of [raise_for_status] or of the decoding. *)

Record patch := {
  patch_property : string;
  patch_current : dict;
  patch_new : pyval
}.

(** What [capabilities['modes'][mode]] holds for one mode, as the
    vendor's documents are shaped: the swing modes and the fan levels
    are lists, the temperatures map a unit to an object whose [values]
    is a list.  An absent key is [None]. *)
Record Supported := {
  swing : option (list pyval);
  temperatures : option (list (string * option (list pyval)));
  fanLevels : option (list pyval)
}.

(** A [Mode] instance: [self.name] and [self._supported]. *)
Record Mode := {
  mode_name : string;
  _supported : Supported
}.

Definition ascii_upper (c : ascii) : ascii :=
  let n := nat_of_ascii c in
  if (97 <=? n)%nat && (n <=? 122)%nat then ascii_of_nat (n - 32) else c.

Definition is_cased (c : ascii) : bool :=
  let n := nat_of_ascii c in
  ((65 <=? n)%nat && (n <=? 90)%nat) || ((97 <=? n)%nat && (n <=? 122)%nat).

(** [s.title()] on ASCII text: a cased character is upper-cased when the
    one before it is not cased, lower-cased when it is. *)
Fixpoint title_aux (previous_is_cased : bool) (s : string) : string :=
  match s with
  | EmptyString => EmptyString
  | String c s' =>
      String (if previous_is_cased then ascii_lower c else ascii_upper c)
             (title_aux (is_cased c) s')
  end.

Definition title (s : string) : string := title_aux false s.

(** [s[0]] *)
Definition first_char (s : string) : result string :=
  match s with
  | String c _ => Ok (String c EmptyString)
  | EmptyString => Raise (OtherError "IndexError")
  end.

(** [int(v)]: a float is truncated towards zero, a text is read as a
    number in base ten. *)
Definition py_int (v : pyval) : result Z :=
  match v with
  | PNone => Raise TypeError
  | PBool b => Ok (Z_of_bool b)
  | PInt z => Ok z
  | PFloat f =>
      match Prim2SF f with
      | S754_zero _ => Ok 0%Z
      | S754_finite s m e =>
          let magnitude :=
            if (0 <=? e)%Z then (Z.pos m * 2 ^ e)%Z
            else (Z.pos m / 2 ^ (- e))%Z in
          Ok (if s then (- magnitude)%Z else magnitude)
      | S754_infinity _ => Raise OverflowError
      | S754_nan => Raise ValueError
      end
  | PStr s =>
      match int_of_text s with
      | Some z => Ok z
      | None => Raise ValueError
      end
  end.

(** [v in l] on a list *)
Definition py_in (v : pyval) (l : list pyval) : bool := existsb (py_eq v) l.

(** [d[k]] on the temperatures of a mode, the key being any value. *)
Definition temperatures_item (ts : list (string * option (list pyval)))
    (key : pyval) : option (option (list pyval)) :=
  match key with
  | PStr u => snd <$> find (fun '(u', _) => String.eqb u' u) ts
  | _ => None
  end.

Section Commands.
Context {W : Type}.

Record Dev := {
  pod : St W;
  life : Life;
  sent : list patch;
  patch_reply : nat -> patch -> option exn
}.

Definition with_pod (v : St W) (d : Dev) : Dev :=
  {| pod := v; life := life d; sent := sent d; patch_reply := patch_reply d |}.

Definition with_sent (v : list patch) (d : Dev) : Dev :=
  {| pod := pod d; life := life d; sent := v; patch_reply := patch_reply d |}.

(** State and exceptions, on a device. *)
Definition C (A : Type) := Dev -> Dev * result A.

Definition cret {A} (a : A) : C A := fun d => (d, Ok a).
Definition craise {A} (e : exn) : C A := fun d => (d, Raise e).
Definition cbind {A B} (m : C A) (k : A -> C B) : C B :=
  fun d =>
    match m d with
    | (d', Ok a) => k a d'
    | (d', Raise e) => (d', Raise e)
    end.

(** A computation of the pod, run on the device. *)
Definition on_pod {A} (m : M (W := W) A) : C A :=
  fun d => let '(st', r) := m (pod d) in (with_pod st' d, r).

Definition ctry_except {A} (body : C A) (catches : exn -> bool)
    (handler : C A) : C A :=
  fun d =>
    match body d with
    | (d', Raise e) => if catches e then handler d' else (d', Raise e)
    | r => r
    end.
End Commands.

Arguments Dev W : clear implicits.

Notation "x <~ m ;; k" := (cbind m (fun x => k))
  (at level 20, m at level 99, k at level 200).
Notation "m ~;; k" := (cbind m (fun _ => k))
  (at level 100, k at level 200, right associativity).

Section Setters.
Context {W : Type}.

(** [Pod._patch] *)
Definition Pod__patch (property_name : string) (current : dict)
    (new_value : pyval) : C (W := W) unit :=
  fun d =>
    let p := {| patch_property := property_name; patch_current := current;
                patch_new := new_value |} in
    let d' := with_sent (sent d ++ [p]) d in
    match patch_reply d (length (sent d)) p with
    | None => (d', Ok tt)
    | Some e => (d', Raise e)
    end.

(** [Pod.set_state(key=value)] *)
Definition Pod_set_state (key : string) (value : pyval) : C (W := W) unit :=
  state <~ on_pod Pod_state ;;
  Pod__patch key state value.

(** The properties of [Mode] that read the capabilities. *)
Definition Mode_supported_swing_modes (self : Mode) : result (list pyval) :=
  match swing (_supported self) with
  | Some l => Ok l
  | None => Raise AttributeError
  end.

Definition Mode_supported_fan_levels (self : Mode) : result (list pyval) :=
  match fanLevels (_supported self) with
  | Some l => Ok l
  | None => Raise AttributeError
  end.

Definition Mode_supported_temp_units (self : Mode) : result (list string) :=
  match temperatures (_supported self) with
  | Some ts => Ok (map fst ts)
  | None => Raise AttributeError
  end.

Definition Mode_supported_temps (self : Mode) : M (W := W) (list pyval) :=
  temp_unit <- try_except Mode_temp_unit (exn_eqb AttributeError)
                 (raise AttributeError) ;;
  match temperatures (_supported self) with
  | Some ts =>
      if bool_decide (is_Some (temperatures_item ts temp_unit)) then
        temp_unit' <- Mode_temp_unit ;;
        match temperatures_item ts temp_unit' with
        | Some (Some values) => ret values
        | _ => raise KeyError
        end
      else raise AttributeError
  | None => raise AttributeError
  end.

(** The setters of [Mode] *)
Definition Mode_swing_set (self : Mode) (value : pyval) : C (W := W) unit :=
  ctry_except
    (match Mode_supported_swing_modes self with
     | Ok l => if py_in value l then Pod_set_state "swing" value
               else craise ValueError
     | Raise e => craise e
     end)
    (exn_eqb AttributeError) (craise AttributeError).

Definition Mode_fan_level_set (self : Mode) (value : pyval) : C (W := W) unit :=
  ctry_except
    (match Mode_supported_fan_levels self with
     | Ok l => if py_in value l then Pod_set_state "fanLevel" value
               else craise ValueError
     | Raise e => craise e
     end)
    (exn_eqb AttributeError) (craise AttributeError).

Definition Mode_temp_set (self : Mode) (value : pyval) : C (W := W) unit :=
  match py_int value with
  | Raise e => craise e
  | Ok z =>
      ctry_except
        (l <~ on_pod (Mode_supported_temps self) ;;
         if py_in (PInt z) l then Pod_set_state "targetTemperature" (PInt z)
         else craise ValueError)
        (exn_eqb AttributeError) (craise AttributeError)
  end.

(** The [for ... else] of the [temp_unit] setter over its candidates. *)
Fixpoint temp_unit_loop (self : Mode) (values : list string) : C (W := W) unit :=
  match values with
  | [] => craise ValueError
  | v :: rest =>
      match Mode_supported_temp_units self with
      | Raise e => craise e
      | Ok units =>
          if existsb (String.eqb v) units
          then Pod_set_state "temperatureUnit" (PStr v)
          else temp_unit_loop self rest
      end
  end.

Definition Mode_temp_unit_set (self : Mode) (value : pyval) : C (W := W) unit :=
  match value with
  | PStr s =>
      match first_char (title s) with
      | Raise e => craise e
      | Ok t0 =>
          match first_char (lower s) with
          | Raise e => craise e
          | Ok l0 => temp_unit_loop self [lower s; title s; t0; l0]
          end
      end
  | _ => craise AttributeError
  end.

(** [Pod.mode = value] for a [value] that is no [Mode] instance: the loop
    over [supported_modes], whose order does not matter since it stops at
    the one mode of that name. *)
Fixpoint mode_loop (value : pyval) (names : list string) : C (W := W) unit :=
  match names with
  | [] => craise ValueError
  | found_mode :: rest =>
      if py_eq (PStr found_mode) value then
        (fun d =>
           if is_polling (life d) then (d, Ok tt)
           else (with_pod (with_mode found_mode (pod d)) d, Ok tt)) ~;;
        Pod_set_state "mode" value
      else mode_loop value rest
  end.

Definition Pod_mode_set (value : pyval) : C (W := W) unit :=
  modes <~ on_pod (gets capabilities_modes) ;;
  if bool_decide ("mode" ∈ modes) then mode_loop value (elements modes)
  else craise AttributeError.
End Setters.

(** * Vocabulary of the properties *)

(** The state a run leaves behind. *)
Definition exec {W A} (m : M (W := W) A) (st : St W) : St W := fst (m st).

(** The value or exception a run ends with. *)
Definition outcome {W A} (m : M (W := W) A) (st : St W) : result A := snd (m st).

(** The event a pod publishes about itself. *)
Definition pod_event (name property : string) (value : pyval) : event :=
  {| ev_name := name +:+ "." +:+ property; ev_value := value;
     ev_obj := PodObj name |}.

(** The calls one [Notify(event, ...)] is due to make: the callbacks of
    every pattern that passes the router's test, in registry order. *)
Definition matching {W} (d : registry W) (event : string)
    : list (string * guid * callback W) :=
  flat_map (fun '(evt, cbs) =>
              if matches evt event
              then map (fun '(g, cb) => (evt, g, cb)) cbs
              else []) d.

Definition call_key {W} (c : string * guid * callback W) : string * guid :=
  (fst (fst c), snd (fst c)).

(** The calls of a list made one after the other, each as the router
    makes it. *)
Fixpoint run_calls {W} (calls : list (string * guid * callback W))
    (event : string) (value : pyval) (obj : source) : M unit :=
  match calls with
  | [] => ret tt
  | (e, g, cb) :: rest =>
      call e g cb event value obj ;; run_calls rest event value obj
  end.

(** No callback of the registry ever raises. *)
Definition quiet {W} (d : registry W) : Prop :=
  ∀ evt cbs g cb, In (evt, cbs) d → In (g, cb) cbs →
    ∀ event value obj w, snd (cb event value obj w) = None.

(** A server that from now on answers every measurement request with
    [measurements] and every state request with [state]. *)
Definition steady {W} (st : St W) (measurements state : dict) : Prop :=
  ∀ n, requests st ≤ n →
    cloud st n (ReqMeasurements true) = Ok measurements ∧
    cloud st n ReqAcState = Ok state.

(** Field [k] of the fetched dictionary [new] equals, as Python's [==]
    has it, what the baseline [old] holds for it; an absent field reads
    [None]. *)
Definition unchanged (old new : dict) (k : string) : Prop :=
  ∃ o, old !! k = Some o ∧ py_eq (get_or_None new k) o = true.

(** Field [k] holds [o] in the baseline and the fetched value differs. *)
Definition changed_from (old new : dict) (k : string) (o : pyval) : Prop :=
  old !! k = Some o ∧ py_ne (get_or_None new k) o = true.

(** A value that is not a NaN. *)
Definition is_nan_value (v : pyval) : bool :=
  match v with
  | PFloat f => is_nan f
  | _ => false
  end.

(** A computation that only ever appends to the trace of published
    events. *)
Definition grows {W A} (m : M (W := W) A) : Prop :=
  ∀ st, ∃ l, published (fst (m st)) = published st ++ l.

(** A computation that leaves the baseline of device-state field [k] as
    it found it. *)
Definition keeps {W A} (k : string) (m : M (W := W) A) : Prop :=
  ∀ st, old_state (fst (m st)) !! k = old_state st !! k.

(** The unit of measure the fetched state lets one determine: the text
    under [temperatureUnit], if there is one. *)
Definition unit_text (state : dict) : option string :=
  match state !! "temperatureUnit" with
  | Some (PStr u) => Some u
  | _ => None
  end.

(** [st'] is [st] after some requests and some resolutions of the unit:
    only the request counter and the cached unit flags may differ. *)
Definition refetched {W} (st st' : St W) : Prop :=
  ∃ n f c, requests st ≤ n ∧
    st' = with_clcs c (with_fnht f (with_requests n st)).

(** What [Pod.room_dew_point] and [Pod.room_heat_index] come to when the
    server answers every request with [measurements] and [state], the
    cached flag being [cached]. *)
Definition dew_point_reading `{!Libm} (measurements state : dict)
    (cached : option bool) : result float :=
  match measurements !! "temperature", measurements !! "humidity" with
  | Some t, Some h =>
      match unit_text state, cached with
      | Some u, _ => dew_point_of t h (startswith "f" (lower u))
      | None, Some fnht => dew_point_of t h fnht
      | None, None => Raise AttributeError
      end
  | _, _ => Raise AttributeError
  end.

Definition heat_index_reading `{!Libm} (measurements state : dict)
    (cached : option bool) : result float :=
  match measurements !! "temperature", measurements !! "humidity" with
  | Some t, Some h =>
      match unit_text state, cached with
      | Some u, _ => heat_index_of t h (startswith "c" (lower u))
      | None, Some clcs => heat_index_of t h clcs
      | None, None => Raise AttributeError
      end
  | _, _ => Raise AttributeError
  end.

(** A result that is not the unavailable-value condition. *)
Definition available {A} (r : result A) : Prop := r ≠ Raise AttributeError.

(** [st'] is [st] after the events [evs] were published, as far as the
    rest of a measurement diff can tell: same registry, same pod, same
    server no further back in its replies, same battery baseline. *)
Definition advances {W} (st st' : St W) (evs : list event) : Prop :=
  published st' = published st ++ evs ∧
  callbacks st' = callbacks st ∧
  pod_name st' = pod_name st ∧
  cloud st' = cloud st ∧
  requests st ≤ requests st' ∧
  old_measurements st' !! "batteryVoltage"
  = old_measurements st !! "batteryVoltage".

(** A server that from now on answers every state request with [state]
    and lets [Pod._measurements] come back with [measurements]: the
    request that names the battery voltage is served with it, or it is
    refused with an HTTP error and the request that follows, which does
    not name the battery voltage, is served with it. *)
Definition serves {W} (st : St W) (measurements state : dict) : Prop :=
  ∀ n, requests st ≤ n →
    cloud st n ReqAcState = Ok state ∧
    (cloud st n (ReqMeasurements true) = Ok measurements ∨
     (cloud st n (ReqMeasurements true) = Raise HTTPError ∧
      cloud st (S n) (ReqMeasurements false) = Ok measurements)).

(** A server that from now on answers every state request with
    [state]. *)
Definition reports {W} (st : St W) (state : dict) : Prop :=
  ∀ n, requests st ≤ n → cloud st n ReqAcState = Ok state.

(** No callback of the registry ever raises [AttributeError], the one
    exception [hi_dp_event] swallows. *)
Definition no_attribute_error {W} (d : registry W) : Prop :=
  ∀ evt cbs g cb, In (evt, cbs) d → In (g, cb) cbs →
    ∀ event value obj w, snd (cb event value obj w) ≠ Some AttributeError.

(** What the call [Notify] makes for the event [e] ends with. *)
Definition dispatch_of {W} (e : event) (st : St W) : result unit :=
  outcome (Notify (ev_name e) (ev_value e) (ev_obj e)) st.

(** The values Python takes for false: [None], [False], a zero of
    either sign and the empty text. *)
Definition falsy (v : pyval) : Prop :=
  v = PNone ∨ v = PBool false ∨ v = PInt 0 ∨
  (∃ f, v = PFloat f ∧ (f =? 0)%float = true) ∨ v = PStr "".

(** ** Vocabulary of the further properties *)

(** The ids under which the registry holds a callback. *)
Definition registry_ids {W} (d : registry W) : list guid :=
  flat_map (fun '(_, cbs) => map fst cbs) d.

(** Every id of the registry was drawn before the supply reached [n]. *)
Definition drawn_below {W} (n : guid) (d : registry W) : Prop :=
  ∀ g, In g (registry_ids d) → g < n.

(** The calls of a list that are not made under the id [g]. *)
Definition without {W} (g : guid) (calls : list (string * guid * callback W))
    : list (string * guid * callback W) :=
  filter (fun c => snd (call_key c) ≠ g) calls.

(** A text with none of the characters [fnmatch] gives a meaning to. *)
Definition glob_free (s : string) : bool :=
  negb (contains "*" s || contains "?" s || contains "[" s).

(** No character of the list is one [fnmatch] gives a meaning to. *)
Fixpoint literal (l : list ascii) : bool :=
  match l with
  | [] => true
  | c :: l' =>
      negb (Ascii.eqb c "*") && negb (Ascii.eqb c "?") && negb (Ascii.eqb c "[")
      && literal l'
  end.


(** Whether the diff of device-state field [k] fires: the fetched value
    is known and differs from what the baseline holds. *)
Definition fires (old new : dict) (k : string) : bool :=
  negb (is_None (get_or_None new k)) &&
  py_ne (get_or_None new k) (get_or_None old k).

(** The event a pod publishes about one of its modes. *)
Definition mode_event (name mode property : string) (value : pyval) : event :=
  {| ev_name := name +:+ "." +:+ mode +:+ "." +:+ property; ev_value := value;
     ev_obj := ModeObj name mode |}.

(** The mode a pass leaves current: the fetched one when the mode diff
    fires, the one it found otherwise. *)
Definition mode_after (old new : dict) (current : string) : string :=
  if fires old new "mode" then
    match get_or_None new "mode" with
    | PStr B => B
    | _ => current
    end
  else current.

(** The events the device-state diff is to publish, in order. *)
Definition state_events (name : string) (old new : dict) (current : string)
    : list event :=
  let mode := mode_after old new current in
  let scoped k property :=
    if fires old new k
    then [mode_event name mode property (get_or_None new k)] else [] in
  (if fires old new "mode" then [pod_event name "mode" (PStr mode)] else []) ++
  scoped "swing" "swing" ++
  scoped "targetTemperature" "temp" ++
  scoped "fanLevel" "fan_level" ++
  (if fires old new "on"
   then [pod_event name "power" (PBool (py_bool (get_or_None new "on")))]
   else []) ++
  scoped "temperatureUnit" "temp_unit".

(** What the baseline holds for field [k] after the diff. *)
Definition rebased (old new : dict) (k : string) : option pyval :=
  if fires old new k then Some (get_or_None new k) else old !! k.

(** [st'] is [st] after the events [evs] were published by a block of the
    device-state diff: same registry, same pod. *)
Definition passes {W} (st st' : St W) (evs : list event) : Prop :=
  published st' = published st ++ evs ∧
  callbacks st' = callbacks st ∧
  pod_name st' = pod_name st ∧
  capabilities_modes st' = capabilities_modes st.

(** A computation that leaves the component [f] of the state as it found
    it. *)
Definition preserves {W A B} (f : St W → B) (m : M (W := W) A) : Prop :=
  ∀ st, f (fst (m st)) = f st.

(** The baseline entry [x] of a field agrees with the fetched value [v]:
    [v] is unknown, or [x] holds a value equal to it. *)
Definition settled (x : option pyval) (v : pyval) : Prop :=
  v = PNone ∨ ∃ o, x = Some o ∧ py_eq v o = true.

(** What holds of the two attributes and the live threads at every
    moment of a pod's life. *)
Definition sound (l : Life) : Prop :=
  match pollers l with
  | [] => _thread l = false → _event l = false
  | [Looping] => _thread l = true
  | [Leaving] => _thread l = false ∧ _event l = true
  | _ => False
  end.

(** * Scenarios

    Concrete callbacks, registries, servers and pods on which the
    properties below are exercised.  The callbacks act on a log of labels. *)

Definition logging (label : string) : callback (list string) :=
  fun _ _ _ w => (w ++ [label], None).

Definition failing (label : string) (e : exn) : callback (list string) :=
  fun _ _ _ w => (w ++ [label], Some e).

(** A server that answers every request the same way; [fetch_battery]
    says whether the request that names [batteryVoltage] is served or
    refused with an HTTP error. *)
Definition steady_cloud (state measurements : dict) (fetch_battery : bool)
    (n : nat) (r : request) : result dict :=
  match r with
  | ReqAcState => Ok state
  | ReqMeasurements true =>
      if fetch_battery then Ok measurements else Raise HTTPError
  | ReqMeasurements false => Ok (delete "batteryVoltage" measurements)
  end.

(** A pod at rest: nothing bound, nothing published, no request sent. *)
Definition pod_at_rest (name mode : string) (modes : gset string)
    (server : nat -> request -> result dict) : St (list string) :=
  {| callbacks := []; world := []; invoked := []; published := [];
     next_guid := 0; cloud := server; requests := 0; pod_name := name;
     capabilities_modes := modes; _mode := mode;
     __fnht := None; __clcs := None;
     old_state := ∅; old_measurements := ∅ |}.

(** Stand-ins for the C library: [exp] by its power series after halving
    the argument eight times, [log] by Halley's iteration on it, [pow]
    by the rounded product for the exponent 2 the code raises to. *)
Fixpoint exp_series (terms : nat) (y term acc : float) (k : float) : float :=
  match terms with
  | O => acc
  | S n => let term' := (term * y / k)%float in
           exp_series n y term' (acc + term')%float (k + 1)%float
  end.

Fixpoint square_times (n : nat) (x : float) : float :=
  match n with
  | O => x
  | S n' => square_times n' (x * x)%float
  end.

Definition series_exp (x : float) : float :=
  square_times 8 (exp_series 20 (x / 256)%float 1 1 1).

Fixpoint halley_log (steps : nat) (x y : float) : float :=
  match steps with
  | O => y
  | S n => let e := series_exp y in
           halley_log n x (y + 2 * (x - e) / (x + e))%float
  end.

Definition scenario_libm : Libm :=
  {| libm_exp := series_exp;
     libm_log := fun x => halley_log 60 x 0;
     libm_pow := fun x y => if (y =? 2)%float then (x * x)%float else nan |}.

(** *** A pod named "den" *)

Definition den_state : dict :=
  list_to_map
    [("on", PBool true); ("mode", PStr "cool"); ("swing", PStr "stopped");
     ("targetTemperature", PInt 22); ("fanLevel", PStr "auto");
     ("temperatureUnit", PStr "C")].

Definition den_measurements : dict :=
  list_to_map
    [("temperature", PFloat 22.5); ("humidity", PInt 50);
     ("batteryVoltage", PInt 3000)].

Definition den_modes : gset string := {["cool"; "heat"; "fan"]}.

(** The pod after [_poll] has taken its baselines from a steady server,
    one logging callback being bound to every event of the pod. *)
Definition den_polled : St (list string) :=
  exec (Pod_bind "*" (logging "seen") ;; poll_baseline)
       (pod_at_rest "den" "cool" den_modes
          (steady_cloud den_state den_measurements true)).

(** A server that serves the battery reading to the requests numbered
    below [served] and refuses it, with an HTTP error, from then on. *)
Definition battery_dropping_cloud (served : nat) (n : nat) (r : request)
    : result dict :=
  match r with
  | ReqAcState => Ok den_state
  | ReqMeasurements true =>
      if (n <? served)%nat then Ok den_measurements else Raise HTTPError
  | ReqMeasurements false => Ok (delete "batteryVoltage" den_measurements)
  end.

(** A server on which, after the first [before] requests, the device is
    found switched off and the battery lower. *)
Definition switching_cloud (before : nat) (n : nat) (r : request)
    : result dict :=
  match r with
  | ReqAcState =>
      Ok (if (n <? before)%nat then den_state
          else <["on" := PBool false]> den_state)
  | ReqMeasurements _ =>
      Ok (if (n <? before)%nat then den_measurements
          else <["batteryVoltage" := PInt 2900]> den_measurements)
  end.

(** The pod after its baselines were taken, with a registry whose first
    callback for [den.power] raises. *)
Definition den_guarded : St (list string) :=
  exec (Notify_bind "den.power" (failing "first" (OtherError "boom")) ;;
        Notify_bind "den.power" (logging "second") ;;
        Notify_bind "den.*" (logging "third") ;;
        poll_baseline)
       (pod_at_rest "den" "cool" den_modes (switching_cloud 2)).

Definition value_of (r : result float) : float :=
  match r with
  | Ok x => x
  | Raise _ => 0%float
  end.

(** What the den's server shows once the device was switched to heating
    with the louvre swinging, and once only its power was cut. *)
Definition den_heating : dict :=
  <["mode" := PStr "heat"]> (<["swing" := PStr "rangeFull"]> den_state).

Definition den_switched_off : dict := <["on" := PBool false]> den_state.

(** Fresh measurements in which all three readings moved. *)
Definition den_warmer : dict :=
  list_to_map
    [("temperature", PFloat 23.0); ("humidity", PInt 55);
     ("batteryVoltage", PInt 2950)].

(** A pod whose server reports no unit of measure and no humidity. *)
Definition unitless_pod : St (list string) :=
  pod_at_rest "den" "cool" den_modes
    (steady_cloud (delete "temperatureUnit" den_state) den_measurements true).

Definition dry_pod : St (list string) :=
  with_fnht (Some false)
    (pod_at_rest "den" "cool" den_modes
       (steady_cloud den_state (delete "humidity" den_measurements) true)).

(** ** Further scenarios *)

(** The capabilities of the den's cooling mode. *)
Definition den_cool : Mode :=
  {| mode_name := "cool";
     _supported :=
       {| swing := Some [PStr "stopped"; PStr "rangeFull"];
          temperatures :=
            Some [("C", Some (map PInt [18; 19; 20; 21; 22; 23; 24; 25; 26]%Z));
                  ("F", Some (map PInt [64; 66; 68; 70; 72; 73; 75; 77; 79]%Z))];
          fanLevels := Some [PStr "low"; PStr "medium"; PStr "high"; PStr "auto"]
       |} |}.

(** The den with no poll running and a server that accepts every
    change. *)
Definition den_device : Dev (list string) :=
  {| pod := pod_at_rest "den" "cool" den_modes
              (steady_cloud den_state den_measurements true);
     life := idle;
     sent := [];
     patch_reply := fun _ _ => None |}.

(** A pod whose polling thread is in its loop. *)
Definition polling : Life :=
  {| _thread := true; _event := false; pollers := [Looping] |}.

(** What the den's server shows once the device reports a mode its
    capabilities do not list. *)
Definition den_turbo : dict := <["mode" := PStr "turbo"]> den_state.

(** The den on a server that reports a humidity of zero. *)
Definition parched_pod : St (list string) :=
  pod_at_rest "den" "cool" den_modes
    (steady_cloud den_state (<["humidity" := PInt 0]> den_measurements) true).

(** The den on a server that refuses the request naming the battery
    voltage. *)
Definition mains_pod : St (list string) :=
  pod_at_rest "den" "cool" den_modes
    (steady_cloud den_state den_measurements false).

(** The den after its baselines were taken, with a callback for the mode
    event that raises. *)
Definition den_watched : St (list string) :=
  exec (Notify_bind "den.mode" (failing "watcher" (OtherError "boom")) ;;
        poll_baseline)
       (pod_at_rest "den" "cool" den_modes
          (steady_cloud den_state den_measurements true)).

(** The den found switched off when its baselines were taken. *)
Definition den_off_polled : St (list string) :=
  exec (Pod_bind "*" (logging "seen") ;; poll_baseline)
       (pod_at_rest "den" "cool" den_modes
          (steady_cloud den_switched_off den_measurements true)).

(** Measurements in which the thermometer reports no number, and the den
    on a server that keeps reporting them. *)
Definition den_fevered : dict := <["temperature" := PFloat nan]> den_measurements.

Definition fevered_pod : St (list string) :=
  pod_at_rest "den" "cool" den_modes (steady_cloud den_state den_fevered true).

(** A server on which, after the first [before] requests, the room is
    found warmer and more humid and the battery lower; and the den after
    its baselines were taken from it, a callback bound to every event of
    the pod. *)
Definition warming_cloud (before : nat) (n : nat) (r : request) : result dict :=
  match r with
  | ReqAcState => Ok den_state
  | ReqMeasurements _ =>
      Ok (if (n <? before)%nat then den_measurements else den_warmer)
  end.

Definition den_warming : St (list string) :=
  exec (Pod_bind "*" (logging "seen") ;; poll_baseline)
       (pod_at_rest "den" "cool" den_modes (warming_cloud 2)).

(** A server on which, after the first [before] requests, the air is
    found warmer and perfectly dry, and the battery lower. *)
Definition drying_cloud (before : nat) (n : nat) (r : request) : result dict :=
  match r with
  | ReqAcState => Ok den_state
  | ReqMeasurements _ =>
      Ok (if (n <? before)%nat then den_measurements
          else <["humidity" := PInt 0]> den_warmer)
  end.

(** * Properties *)

(** ** Running the monad *)

Section Run.
Context {W : Type}.
Implicit Types st : St W.

Lemma bind_Ok {A B} (m : M A) (k : A → M B) st st' a :
  m st = (st', Ok a) → bind m k st = k a st'.
Proof. unfold bind. by intros ->. Qed.

Lemma bind_Raise {A B} (m : M A) (k : A → M B) st st' e :
  m st = (st', Raise e) → bind m k st = (st', Raise e).
Proof. unfold bind. by intros ->. Qed.

Lemma bind_assoc {A B C} (m : M A) (k : A → M B) (h : B → M C) st :
  bind (bind m k) h st = bind m (fun a => bind (k a) h) st.
Proof. unfold bind. destruct (m st) as [st' [a|e]]; reflexivity. Qed.

Lemma bind_ext {A B} (m : M A) (k1 k2 : A → M B) st :
  (∀ a st', k1 a st' = k2 a st') → bind m k1 st = bind m k2 st.
Proof. intros H. unfold bind. destruct (m st) as [st' [a|e]]; [apply H | reflexivity]. Qed.

Lemma world_invoked_twice st w1 i1 w2 i2 :
  with_invoked i2 (with_world w2 (with_invoked i1 (with_world w1 st)))
  = with_invoked i2 (with_world w2 st).
Proof. by destruct st. Qed.

Lemma world_invoked_same st :
  with_invoked (invoked st) (with_world (world st) st) = st.
Proof. by destruct st. Qed.
End Run.

(** ** The router *)

Section RouterFacts.
Context {W : Type}.
Implicit Types (st : St W) (d : registry W).

Lemma run_calls_app l1 l2 event value obj st :
  run_calls (l1 ++ l2) event value obj st
  = (run_calls l1 event value obj ;; run_calls l2 event value obj) st.
Proof.
  revert st. induction l1 as [|[[e g] cb] l1 IH]; intros st; simpl.
  - reflexivity.
  - rewrite bind_assoc. apply bind_ext. intros _ st'. apply IH.
Qed.

Lemma process_callbacks_calls e cbs event value obj st :
  process_callbacks e cbs event value obj st
  = run_calls (map (fun '(g, cb) => (e, g, cb)) cbs) event value obj st.
Proof.
  revert st. induction cbs as [|[g cb] cbs IH]; intros st; simpl; [reflexivity|].
  apply bind_ext. intros _ st'. apply IH.
Qed.

(** The loop of [Notify.__call__] makes exactly the calls of [matching]. *)
Lemma dispatch_matching d event value obj st :
  dispatch d event value obj st = run_calls (matching d event) event value obj st.
Proof.
  revert st. induction d as [|[evt cbs] d IH]; intros st; simpl; [reflexivity|].
  rewrite run_calls_app. unfold matches.
  destruct ((contains "*" evt || contains "?" evt) && fnmatch event evt).
  - unfold bind at 1 2. rewrite process_callbacks_calls.
    destruct (run_calls _ event value obj st) as [st' [[]|x]]; [apply IH | reflexivity].
  - destruct (String.eqb (lower evt) event).
    + unfold bind at 1 2. rewrite process_callbacks_calls.
      destruct (run_calls _ event value obj st) as [st' [[]|x]]; [apply IH | reflexivity].
    + unfold bind at 1 2. simpl. apply IH.
Qed.

(** Calls that all return are all made, and the run returns. *)
Lemma run_calls_quiet (calls : list (string * guid * callback W))
    event value obj st :
  (∀ c, In c calls → ∀ w, snd (snd c event value obj w) = None) →
  ∃ w, run_calls calls event value obj st
       = (with_invoked (invoked st ++ map call_key calls) (with_world w st), Ok tt).
Proof.
  revert st. induction calls as [|[[e g] cb] calls IH]; intros st Hq; simpl.
  - exists (world st). rewrite app_nil_r, world_invoked_same. reflexivity.
  - assert (Hcb := Hq (e, g, cb) (or_introl eq_refl) (world st)). simpl in Hcb.
    unfold bind, call. destruct (cb event value obj (world st)) as [w r].
    simpl in Hcb. subst r.
    destruct (IH (with_invoked (invoked st ++ [(e, g)]) (with_world w st))) as [w' Hw'].
    { intros c Hc. apply Hq. by right. }
    exists w'. rewrite Hw'. rewrite world_invoked_twice.
    f_equal. f_equal. destruct st; simpl. by rewrite <- app_assoc.
Qed.


Lemma quiet_matching d event :
  quiet d → ∀ c, In c (matching d event) →
    ∀ ev value obj w, snd (snd c ev value obj w) = None.
Proof.
  intros Hq [[p g] cb] Hin. unfold matching in Hin.
  apply in_flat_map in Hin as [[evt cbs] [Hd Hin]].
  destruct (matches evt event); [|contradiction].
  apply in_map_iff in Hin as [[g' cb'] [Heq Hin]].
  inversion Heq; subst. intros. simpl. eapply Hq; eauto.
Qed.

(** Whatever the callbacks do, a run touches the world and the call
    trace only. *)
Lemma run_calls_frame (calls : list (string * guid * callback W))
    event value obj st :
  ∃ w i r, run_calls calls event value obj st
           = (with_invoked i (with_world w st), r).
Proof.
  revert st. induction calls as [|[[e g] cb] calls IH]; intros st; simpl.
  - exists (world st), (invoked st), (Ok tt). by rewrite world_invoked_same.
  - unfold bind, call. destruct (cb event value obj (world st)) as [w [x|]].
    + by eexists _, _, _.
    + destruct (IH (with_invoked (invoked st ++ [(e, g)]) (with_world w st)))
        as (w' & i' & r' & ->).
      exists w', i', r'. by rewrite world_invoked_twice.
Qed.

(** What one [Notify(...)] does to the state. *)
Lemma Notify_unfold event value obj st :
  Notify event value obj st
  = run_calls (matching (callbacks st) event) event value obj
      (with_published
         (published st ++
          [{| ev_name := event; ev_value := value; ev_obj := obj |}]) st).
Proof.
  unfold Notify, bind, gets, modify. simpl. by rewrite dispatch_matching.
Qed.

Lemma Notify_run event value obj st :
  ∃ w i r,
    Notify event value obj st
    = (with_invoked i (with_world w
         (with_published
            (published st ++
             [{| ev_name := event; ev_value := value; ev_obj := obj |}]) st)), r)
    ∧ (quiet (callbacks st) → r = Ok tt).
Proof.
  rewrite Notify_unfold. set (st1 := with_published _ st).
  destruct (run_calls_frame (matching (callbacks st) event) event value obj st1)
    as (w & i & r & Hrun).
  exists w, i, r. split; [exact Hrun|].
  intros Hq.
  destruct (run_calls_quiet (matching (callbacks st) event) event value obj st1)
    as [w' Hw'].
  { intros c Hc. by apply (quiet_matching (callbacks st) event Hq c Hc). }
  rewrite Hw' in Hrun. by inversion Hrun.
Qed.

(** What a run of calls ends with depends on the world alone. *)
Lemma run_calls_outcome (calls : list (string * guid * callback W))
    event value obj st1 st2 :
  world st1 = world st2 →
  snd (run_calls calls event value obj st1)
  = snd (run_calls calls event value obj st2).
Proof.
  revert st1 st2. induction calls as [|[[e g] cb] calls IH]; intros st1 st2 Hw;
    simpl; [reflexivity|].
  unfold bind, call. rewrite Hw.
  destruct (cb event value obj (world st2)) as [w [x|]]; [reflexivity|].
  apply IH. by destruct st1, st2.
Qed.

(** What a dispatch ends with depends on the registry and the world
    alone. *)
Lemma Notify_outcome event value obj st1 st2 :
  callbacks st1 = callbacks st2 → world st1 = world st2 →
  outcome (Notify event value obj) st1 = outcome (Notify event value obj) st2.
Proof.
  intros Hc Hw. unfold outcome. rewrite !Notify_unfold, Hc.
  apply run_calls_outcome. by destruct st1, st2.
Qed.

(** A run of calls that raises got its exception from one of them. *)
Lemma run_calls_raise_inv (calls : list (string * guid * callback W))
    event value obj st x :
  snd (run_calls calls event value obj st) = Raise x →
  ∃ c w, In c calls ∧ snd (snd c event value obj w) = Some x.
Proof.
  revert st. induction calls as [|[[e g] cb] calls IH]; intros st; simpl;
    [discriminate|].
  unfold bind, call.
  destruct (cb event value obj (world st)) as [w [y|]] eqn:E; simpl.
  - intros [= <-]. exists (e, g, cb), (world st). split; [by left|].
    simpl. by rewrite E.
  - intros H. apply IH in H as (c & w' & Hin & Hc).
    exists c, w'. split; [by right | exact Hc].
Qed.

Lemma matching_registered d event p g (cb : callback W) :
  In (p, g, cb) (matching d event) → ∃ cbs, In (p, cbs) d ∧ In (g, cb) cbs.
Proof.
  unfold matching. intros Hin.
  apply in_flat_map in Hin as [[evt cbs] [Hd Hin]].
  destruct (matches evt event); [|contradiction].
  apply in_map_iff in Hin as [[g' cb'] [Heq Hin]].
  inversion Heq; subst. by exists cbs.
Qed.

Lemma Notify_raise_inv event value obj st x :
  outcome (Notify event value obj) st = Raise x →
  ∃ p cbs g cb w, In (p, cbs) (callbacks st) ∧ In (g, cb) cbs ∧
                  snd (cb event value obj w) = Some x.
Proof.
  unfold outcome. rewrite Notify_unfold. intros H.
  apply run_calls_raise_inv in H as ([[p g] cb] & w & Hin & Hc).
  apply matching_registered in Hin as (cbs & Hd & Hcb).
  by exists p, cbs, g, cb, w.
Qed.

Lemma Notify_no_attribute_error event value obj st :
  no_attribute_error (callbacks st) →
  outcome (Notify event value obj) st ≠ Raise AttributeError.
Proof.
  intros Hn H. apply Notify_raise_inv in H as (p & cbs & g & cb & w & Hd & Hc & E).
  by apply (Hn p cbs g cb Hd Hc event value obj w).
Qed.

(** A pattern without wildcard is tested by comparing its lower-cased
    text with the event name as published. *)
Lemma matches_exact evt event :
  contains "*" evt = false → contains "?" evt = false →
  matches evt event = String.eqb (lower evt) event.
Proof.
  intros H1 H2. unfold matches. rewrite H1, H2. simpl.
  by destruct (String.eqb (lower evt) event).
Qed.

(** *** Glob patterns of the form [*text] *)

Lemma list_ascii_of_string_app (s t : string) :
  list_ascii_of_string (s +:+ t) = list_ascii_of_string s ++ list_ascii_of_string t.
Proof. induction s as [|c s IH]; simpl; [reflexivity | by rewrite IH]. Qed.

Lemma re_match_star_suffix (p : list glob_tok) (s l : list ascii) :
  re_match p l = true → re_match (GStar :: p) (s ++ l) = true.
Proof.
  intros Hp. induction s as [|c s IH].
  - simpl. destruct l; by rewrite Hp.
  - simpl. simpl in IH. rewrite IH. apply orb_true_r.
Qed.
End RouterFacts.

(** ** The arithmetic never reports a value as unavailable *)

Create HintDb available.

Section Available.
Context {libm : Libm}.

Lemma available_Ok {A} (a : A) : available (Ok a).
Proof. discriminate. Qed.

Lemma available_bind {A B} (r : result A) (k : A → result B) :
  available r → (∀ a, available (k a)) → available (rbind r k).
Proof.
  intros Hr Hk. destruct r; [apply Hk|].
  intros E. simpl in E. injection E as ->. by apply Hr.
Qed.

Lemma available_float_of_int z : available (float_of_int z).
Proof. unfold float_of_int. by destruct (is_infinity _). Qed.

Lemma available_as_float v : available (as_float v).
Proof. destruct v; simpl; try discriminate; apply available_float_of_int. Qed.

Lemma available_py_float v : available (py_float v).
Proof.
  destruct v; simpl; try discriminate; try apply available_float_of_int.
  by destruct (float_of_text _).
Qed.

Lemma available_py_gt0 v : available (py_gt0 v).
Proof. by destruct v. Qed.

Lemma available_float_div x y : available (float_div x y).
Proof. unfold float_div. by destruct (_ =? _)%float. Qed.

Lemma available_float_sq x : available (float_sq x).
Proof.
  unfold float_sq. destruct (is_nan x); [discriminate|].
  destruct (is_infinity x); [discriminate|].
  destruct (x =? 0)%float; [discriminate|].
  destruct (abs x =? 1)%float; [discriminate|].
  by destruct (is_infinity _).
Qed.

Lemma available_math_exp x : available (math_exp x).
Proof. unfold math_exp. destruct (_ && _); [done|]. by destruct (_ && _). Qed.

Lemma available_math_log x : available (math_log x).
Proof. unfold math_log. destruct (_ && _); [done|]. by destruct (_ && _). Qed.

Hint Resolve available_Ok available_as_float available_py_float
  available_py_gt0 available_float_div available_float_sq
  available_math_exp available_math_log available_float_of_int : available.

Lemma available_c2f v : available (c2f v).
Proof. unfold c2f. apply available_bind; auto with available. Qed.

Lemma available_f2c v : available (f2c v).
Proof. unfold f2c. apply available_bind; auto with available. Qed.

Hint Resolve available_c2f available_f2c : available.

Lemma available_py_sq v : available (py_sq v).
Proof.
  destruct v; simpl; try discriminate.
  apply available_bind; auto with available.
Qed.

Lemma available_sq_float v : available (sq_float v).
Proof.
  unfold sq_float. apply available_bind; [apply available_py_sq|].
  auto with available.
Qed.

Lemma available_fsum_loop xs st : available (fsum_loop st xs).
Proof.
  revert st. induction xs as [|x xs IH]; intros st; simpl; [discriminate|].
  apply available_bind; [|exact IH].
  unfold fsum_add. destruct (fsum_fold x (fs_partials st)) as [kept top].
  destruct (_ =? _)%float; [discriminate|].
  destruct (negb _); [|discriminate]. by destruct (is_finite x).
Qed.

Lemma available_math_fsum xs : available (math_fsum xs).
Proof.
  unfold math_fsum. apply available_bind; [apply available_fsum_loop|].
  intros st. destruct (negb _); [by destruct (is_nan _)|].
  by destruct (rev _).
Qed.

Lemma available_dew_point_of t h fnht : available (dew_point_of t h fnht).
Proof.
  unfold dew_point_of.
  apply available_bind.
  { destruct fnht; [|discriminate]. apply available_bind; auto with available. }
  intros temp.
  repeat (apply available_bind; [auto with available | intros ?]).
  destruct fnht; auto with available.
Qed.

Lemma available_heat_index_of t h clcs : available (heat_index_of t h clcs).
Proof.
  unfold heat_index_of.
  apply available_bind.
  { destruct clcs; [|discriminate]. apply available_bind; auto with available. }
  intros temp.
  apply available_bind.
  { unfold heat_index_simple.
    repeat (apply available_bind; [auto with available | intros ?]).
    discriminate. }
  intros simple.
  apply available_bind.
  { destruct (_ <=? _)%float; [|discriminate].
    unfold heat_index_rothfusz.
    do 4 (apply available_bind;
          [first [apply available_sq_float | auto with available] | intros ?]).
    apply available_math_fsum. }
  intros hi. destruct clcs; auto with available.
Qed.
End Available.

(** ** One iteration of the poll loop *)

Section PollFacts.
Context {W : Type} {libm : Libm}.
Implicit Types (st : St W) (v o : pyval) (k : string).

Lemma state_changed_run v k st :
  state_changed v k st
  = (st, if is_None v then Ok false
         else let* o := subscript (old_state st) k in Ok (py_ne v o)).
Proof.
  unfold state_changed. destruct (is_None v); [reflexivity|].
  unfold bind, gets, lift, ret. simpl.
  by destruct (subscript (old_state st) k).
Qed.

Lemma measurement_changed_run v k st :
  measurement_changed v k st
  = (st, let* o := subscript (old_measurements st) k in Ok (py_ne v o)).
Proof.
  unfold measurement_changed, bind, gets, lift, ret. simpl.
  by destruct (subscript (old_measurements st) k).
Qed.

Lemma bind_gets {A B} (f : St W → A) (k : A → M B) st :
  bind (gets f) k st = k (f st) st.
Proof. reflexivity. Qed.

Lemma bind_modify {B} (f : St W → St W) (k : unit → M B) st :
  bind (modify f) k st = k tt (f st).
Proof. reflexivity. Qed.

Lemma bind_ret {A B} (a : A) (k : A → M (W := W) B) st :
  bind (ret a) k st = k a st.
Proof. reflexivity. Qed.

Lemma old_state_set_run k v st :
  old_state_set k v st = (with_old_state (<[k := v]> (old_state st)) st, Ok tt).
Proof. reflexivity. Qed.

Lemma old_measurements_set_run k v st :
  old_measurements_set k v st
  = (with_old_measurements (<[k := v]> (old_measurements st)) st, Ok tt).
Proof. reflexivity. Qed.

Lemma py_eq_refl v : is_nan_value v = false → py_eq v v = true.
Proof.
  destruct v as [|b|z|f|s]; simpl; intros Hn.
  - reflexivity.
  - by destruct b.
  - apply Z.eqb_refl.
  - unfold is_nan in Hn. by apply negb_false_iff in Hn.
  - apply String.eqb_refl.
Qed.

(** A fetched field identical to the baseline's, NaN apart, is
    [unchanged]. *)
Lemma identical_unchanged (old new : dict) k v :
  old !! k = Some v → get_or_None new k = v → is_nan_value v = false →
  unchanged old new k.
Proof. intros Ho Hn Hv. exists v. split; [exact Ho|]. rewrite Hn. by apply py_eq_refl. Qed.

Lemma state_changed_unchanged state k st :
  unchanged (old_state st) state k →
  state_changed (get_or_None state k) k st = (st, Ok false).
Proof.
  intros (o & Ho & Heq). rewrite state_changed_run.
  destruct (is_None _); [reflexivity|].
  unfold subscript. rewrite Ho. simpl. unfold py_ne. by rewrite Heq.
Qed.

Lemma measurement_changed_unchanged measurements k st :
  unchanged (old_measurements st) measurements k →
  measurement_changed (get_or_None measurements k) k st = (st, Ok false).
Proof.
  intros (o & Ho & Heq). rewrite measurement_changed_run.
  unfold subscript. rewrite Ho. simpl. unfold py_ne. by rewrite Heq.
Qed.

Lemma scoped_field_unchanged state k property st :
  unchanged (old_state st) state k →
  scoped_field (get_or_None state k) k property st = (st, Ok tt).
Proof.
  intros H. unfold scoped_field.
  by rewrite (bind_Ok _ _ _ _ _ (state_changed_unchanged _ _ _ H)).
Qed.

(** An iteration over an unchanged device state does nothing. *)
Lemma diff_state_unchanged state st :
  (∀ k, In k ["mode"; "swing"; "targetTemperature"; "fanLevel"; "on";
              "temperatureUnit"] → unchanged (old_state st) state k) →
  diff_state state st = (st, Ok tt).
Proof.
  intros H. unfold diff_state.
  rewrite (bind_Ok _ _ _ _ _ (state_changed_unchanged state "mode" st ltac:(apply H; simpl; tauto))).
  simpl when.
  rewrite (bind_Ok _ _ st st tt) by reflexivity.
  rewrite (bind_Ok _ _ _ _ _ (scoped_field_unchanged state "swing" "swing" st ltac:(apply H; simpl; tauto))).
  rewrite (bind_Ok _ _ _ _ _ (scoped_field_unchanged state "targetTemperature" "temp" st ltac:(apply H; simpl; tauto))).
  rewrite (bind_Ok _ _ _ _ _ (scoped_field_unchanged state "fanLevel" "fan_level" st ltac:(apply H; simpl; tauto))).
  rewrite (bind_Ok _ _ _ _ _ (state_changed_unchanged state "on" st ltac:(apply H; simpl; tauto))).
  simpl when.
  rewrite (bind_Ok _ _ st st tt) by reflexivity.
  apply scoped_field_unchanged. apply H; simpl; tauto.
Qed.

Lemma diff_measurements_unchanged measurements st :
  (∀ k, In k ["temperature"; "humidity"; "batteryVoltage"] →
        unchanged (old_measurements st) measurements k) →
  diff_measurements measurements st = (st, Ok tt).
Proof.
  intros H. unfold diff_measurements.
  rewrite (bind_Ok _ _ _ _ _ (measurement_changed_unchanged measurements "humidity" st ltac:(apply H; simpl; tauto))).
  rewrite (bind_Ok _ _ st st false) by reflexivity.
  rewrite (bind_Ok _ _ st st tt).
  - rewrite (bind_Ok _ _ _ _ _ (measurement_changed_unchanged measurements "batteryVoltage" st ltac:(apply H; simpl; tauto))).
    reflexivity.
  - rewrite (bind_Ok _ _ _ _ _ (measurement_changed_unchanged measurements "temperature" st ltac:(apply H; simpl; tauto))).
    rewrite (bind_Ok _ _ _ _ _ (measurement_changed_unchanged measurements "humidity" st ltac:(apply H; simpl; tauto))).
    reflexivity.
Qed.

Lemma unchanged_insert_ne old new k k' v :
  k' ≠ k → unchanged old new k → unchanged (<[k' := v]> old) new k.
Proof.
  intros Hne (o & Ho & Heq). exists o. split; [|exact Heq].
  by rewrite lookup_insert_ne.
Qed.

Lemma state_changed_changed state k o st :
  get_or_None state k ≠ PNone →
  changed_from (old_state st) state k o →
  state_changed (get_or_None state k) k st = (st, Ok true).
Proof.
  intros Hk [Ho Hne]. rewrite state_changed_run.
  destruct (get_or_None state k) eqn:E; try congruence;
    simpl; unfold subscript; rewrite Ho; simpl; by rewrite Hne.
Qed.

(** C5, amended.  A diff pass over fetched dictionaries that equal the
    baselines under Python's [==] in every device-state field and every
    measurement field, an absent field reading [None], publishes no
    event: it calls no callback and leaves the state as it found it.
    (Identical values are equal unless they are a NaN.) *)
Theorem identical_snapshots_publish_nothing st state measurements :
  (∀ k, In k ["mode"; "swing"; "targetTemperature"; "fanLevel"; "on";
              "temperatureUnit"] → unchanged (old_state st) state k) →
  (∀ k, In k ["temperature"; "humidity"; "batteryVoltage"] →
        unchanged (old_measurements st) measurements k) →
  diff state measurements st = (st, Ok tt) ∧
  published (exec (diff state measurements) st) = published st.
Proof.
  intros Hs Hm.
  assert (E : diff state measurements st = (st, Ok tt)).
  { unfold diff. rewrite (bind_Ok _ _ _ _ _ (diff_state_unchanged state st Hs)).
    by apply diff_measurements_unchanged. }
  split; [exact E|]. unfold exec. by rewrite E.
Qed.

Lemma diff_state_power_only st state o :
  (∀ k, In k ["mode"; "swing"; "targetTemperature"; "fanLevel";
              "temperatureUnit"] → unchanged (old_state st) state k) →
  get_or_None state "on" ≠ PNone →
  changed_from (old_state st) state "on" o →
  ∃ w i r,
    diff_state state st
    = (with_invoked i (with_world w (with_published
         (published st ++
          [{| ev_name := pod_name st +:+ ".power";
              ev_value := PBool (py_bool (get_or_None state "on"));
              ev_obj := PodObj (pod_name st) |}])
         (with_old_state (<["on" := get_or_None state "on"]> (old_state st)) st))),
       r).
Proof.
  intros Hs Hknown Hon. unfold diff_state.
  rewrite (bind_Ok _ _ _ _ _ (state_changed_unchanged state "mode" st ltac:(apply Hs; simpl; tauto))).
  simpl when.
  rewrite (bind_Ok _ _ st st tt) by reflexivity.
  rewrite (bind_Ok _ _ _ _ _ (scoped_field_unchanged state "swing" "swing" st ltac:(apply Hs; simpl; tauto))).
  rewrite (bind_Ok _ _ _ _ _ (scoped_field_unchanged state "targetTemperature" "temp" st ltac:(apply Hs; simpl; tauto))).
  rewrite (bind_Ok _ _ _ _ _ (scoped_field_unchanged state "fanLevel" "fan_level" st ltac:(apply Hs; simpl; tauto))).
  rewrite (bind_Ok _ _ _ _ _ (state_changed_changed state "on" o st Hknown Hon)).
  simpl when.
  set (st1 := with_old_state (<["on" := get_or_None state "on"]> (old_state st)) st).
  destruct (Notify_run (pod_name st +:+ ".power")
              (PBool (py_bool (get_or_None state "on"))) (PodObj (pod_name st)) st1)
    as (w & i & r & Hrun & _).
  exists w, i, r.
  assert (Hblock :
    (old_state_set "on" (get_or_None state "on") ;;
     name <- gets pod_name ;;
     Notify (name +:+ ".power") (PBool (py_bool (get_or_None state "on")))
            (PodObj name)) st
    = (with_invoked i (with_world w (with_published
         (published st ++
          [{| ev_name := pod_name st +:+ ".power";
              ev_value := PBool (py_bool (get_or_None state "on"));
              ev_obj := PodObj (pod_name st) |}]) st1)), r)).
  { unfold bind at 1. unfold old_state_set at 1. unfold bind at 1, gets at 1, modify at 1.
    simpl. fold st1. unfold bind at 1, gets at 1. simpl. rewrite Hrun.
    by destruct st. }
  destruct r as [[]|e].
  - rewrite (bind_Ok _ _ _ _ _ Hblock).
    apply scoped_field_unchanged. destruct st; simpl in *.
    apply unchanged_insert_ne; [done|]. apply Hs. simpl; tauto.
  - by rewrite (bind_Raise _ _ _ _ _ Hblock).
Qed.

Lemma py_bool_falsy v : py_bool v = false ↔ falsy v.
Proof.
  unfold falsy. destruct v as [|b|z|f|s]; simpl.
  - split; [by left | reflexivity].
  - split.
    + intros ->. right. by left.
    + intros [?|[?|[?|[(f & ? & _)|?]]]]; congruence.
  - rewrite negb_false_iff, Z.eqb_eq. split.
    + intros ->. right. right. by left.
    + intros [?|[?|[?|[(f & ? & _)|?]]]]; congruence.
  - rewrite negb_false_iff. split.
    + intros H. right. right. right. left. by exists f.
    + intros [?|[?|[?|[(f' & [= <-] & H)|?]]]]; congruence.
  - rewrite negb_false_iff, String.eqb_eq. split.
    + intros ->. by repeat right.
    + intros [?|[?|[?|[(f & ? & _)|?]]]]; congruence.
Qed.

(** C6, amended.  When the fetched [on] is known and differs from the
    baseline and every other device-state and measurement field equals
    it under Python's [==], one diff pass publishes exactly one event:
    the power event, carrying a boolean that is [False] exactly when the
    fetched value is one Python takes for false ([False], a zero, the
    empty text), and [True] otherwise. *)
Theorem power_change_alone_publishes_power st state measurements o :
  (∀ k, In k ["mode"; "swing"; "targetTemperature"; "fanLevel";
              "temperatureUnit"] → unchanged (old_state st) state k) →
  (∀ k, In k ["temperature"; "humidity"; "batteryVoltage"] →
        unchanged (old_measurements st) measurements k) →
  get_or_None state "on" ≠ PNone →
  changed_from (old_state st) state "on" o →
  ∃ b : bool,
    published (exec (diff state measurements) st)
    = published st ++ [pod_event (pod_name st) "power" (PBool b)] ∧
    (b = false ↔ falsy (get_or_None state "on")).
Proof.
  intros Hs Hm Hknown Hon. exists (py_bool (get_or_None state "on")).
  split; [|apply py_bool_falsy]. unfold exec, diff.
  destruct (diff_state_power_only st state o Hs Hknown Hon) as (w & i & [[]|e] & Hrun).
  - rewrite (bind_Ok _ _ _ _ _ Hrun).
    rewrite diff_measurements_unchanged; [by destruct st|].
    intros k Hk. destruct st; simpl. by apply Hm.
  - rewrite (bind_Raise _ _ _ _ _ Hrun). by destruct st.
Qed.

(** *** Computations that only append to the published trace *)

Lemma grows_ret {A} (a : A) : grows (W := W) (ret a).
Proof. intros st. exists []. simpl. by rewrite app_nil_r. Qed.

Lemma grows_raise {A} e : grows (W := W) (A := A) (raise e).
Proof. intros st. exists []. simpl. by rewrite app_nil_r. Qed.

Lemma grows_lift {A} (r : result A) : grows (W := W) (lift r).
Proof. intros st. exists []. simpl. by rewrite app_nil_r. Qed.

Lemma grows_gets {A} (f : St W → A) : grows (gets f).
Proof. intros st. exists []. simpl. by rewrite app_nil_r. Qed.

Lemma grows_modify (f : St W → St W) :
  (∀ st, published (f st) = published st) → grows (modify f).
Proof. intros Hf st. exists []. simpl. by rewrite Hf, app_nil_r. Qed.

Lemma grows_bind {A B} (m : M (W := W) A) (k : A → M (W := W) B) :
  grows m → (∀ a, grows (k a)) → grows (bind m k).
Proof.
  intros Hm Hk st. unfold bind. destruct (Hm st) as [l Hl].
  destruct (m st) as [st' [a|e]]; simpl in Hl.
  - destruct (Hk a st') as [l' Hl']. exists (l ++ l').
    by rewrite Hl', Hl, app_assoc.
  - by exists l.
Qed.

Lemma grows_when b (m : M (W := W) unit) : grows m → grows (when b m).
Proof. intros Hm. destruct b; [exact Hm | apply grows_ret]. Qed.

Lemma grows_try_except {A} (body : M (W := W) A) catches handler :
  grows body → grows handler → grows (try_except body catches handler).
Proof.
  intros Hb Hh st. unfold try_except. destruct (Hb st) as [l Hl].
  destruct (body st) as [st' [a|e]]; simpl in Hl; [by exists l|].
  destruct (catches e); [|by exists l].
  destruct (Hh st') as [l' Hl']. exists (l ++ l').
  by rewrite Hl', Hl, app_assoc.
Qed.

Lemma grows_Notify event value obj : grows (W := W) (Notify event value obj).
Proof.
  intros st. destruct (Notify_run event value obj st) as (w & i & r & -> & _).
  eexists. by destruct st.
Qed.

Lemma grows_state_changed v k : grows (W := W) (state_changed v k).
Proof. intros st. rewrite state_changed_run. exists []. simpl. by rewrite app_nil_r. Qed.

Lemma grows_old_state_set k v : grows (W := W) (old_state_set k v).
Proof.
  unfold old_state_set. apply grows_bind; [apply grows_gets|].
  intros a. apply grows_modify. by intros [].
Qed.

Lemma length_append (a b : string) :
  String.length (a +:+ b) = String.length a + String.length b.
Proof. induction a as [|c a IH]; simpl; [reflexivity | by rewrite IH]. Qed.

Lemma append_inj_r (a b s : string) : a +:+ s = b +:+ s → a = b.
Proof.
  revert b. induction a as [|x a IH]; intros [|y b]; simpl; intros E.
  - reflexivity.
  - exfalso. assert (L := f_equal String.length E).
    rewrite !length_append in L. simpl in L. lia.
  - exfalso. assert (L := f_equal String.length E).
    rewrite !length_append in L. simpl in L. lia.
  - cbn in E. inversion E; subst. f_equal. by apply IH.
Qed.

Lemma changed_from_insert_ne old new k k' v o :
  k' ≠ k → changed_from old new k o → changed_from (<[k' := v]> old) new k o.
Proof. intros Hne [Ho Hc]. split; [by rewrite lookup_insert_ne | exact Hc]. Qed.

Lemma scoped_field_changed state k property o st :
  get_or_None state k ≠ PNone →
  changed_from (old_state st) state k o →
  ∃ w i r,
    scoped_field (get_or_None state k) k property st
    = (with_invoked i (with_world w (with_published
         (published st ++
          [{| ev_name := pod_name st +:+ "." +:+ _mode st +:+ "." +:+ property;
              ev_value := get_or_None state k;
              ev_obj := ModeObj (pod_name st) (_mode st) |}])
         (with_old_state (<[k := get_or_None state k]> (old_state st)) st))), r)
    ∧ (quiet (callbacks st) → r = Ok tt).
Proof.
  intros Hk Hc. unfold scoped_field.
  rewrite (bind_Ok _ _ _ _ _ (state_changed_changed state k o st Hk Hc)).
  simpl when.
  rewrite (bind_Ok _ _ _ _ _ (old_state_set_run _ _ _)).
  rewrite !bind_gets.
  match goal with |- context [Notify ?e ?v ?ob ?s] =>
    destruct (Notify_run e v ob s) as (w & i & r & Hrun & Hq) end.
  exists w, i, r. split.
  - rewrite Hrun. by destruct st.
  - intros Hquiet. apply Hq. by destruct st.
Qed.

Lemma mode_block_run st state (B : string) o :
  B ∈ capabilities_modes st →
  state !! "mode" = Some (PStr B) →
  changed_from (old_state st) state "mode" o →
  ∃ w i r,
    (c <- state_changed (get_or_None state "mode") "mode" ;;
     when c
       (m <- Mode_of (get_or_None state "mode") ;;
        modify (with_mode m) ;;
        old_state_set "mode" (get_or_None state "mode") ;;
        name <- gets pod_name ;;
        mode_name <- gets _mode ;;
        Notify (name +:+ ".mode") (PStr mode_name) (PodObj name))) st
    = (with_invoked i (with_world w (with_published
         (published st ++
          [{| ev_name := pod_name st +:+ ".mode"; ev_value := PStr B;
              ev_obj := PodObj (pod_name st) |}])
         (with_old_state (<["mode" := PStr B]> (old_state st)) (with_mode B st)))), r)
    ∧ (quiet (callbacks st) → r = Ok tt)
    ∧ r = outcome (Notify (pod_name st +:+ ".mode") (PStr B) (PodObj (pod_name st))) st.
Proof.
  intros HB Hmode Hc.
  assert (Hg : get_or_None state "mode" = PStr B) by (unfold get_or_None; by rewrite Hmode).
  rewrite (bind_Ok _ _ _ _ _ (state_changed_changed state "mode" o st ltac:(by rewrite Hg) Hc)).
  simpl when. rewrite Hg.
  assert (HM : Mode_of (PStr B) st = (st, Ok B)).
  { unfold Mode_of. rewrite bind_gets. by rewrite (bool_decide_eq_true_2 _ HB). }
  rewrite (bind_Ok _ _ _ _ _ HM). rewrite bind_modify.
  rewrite (bind_Ok _ _ _ _ _ (old_state_set_run _ _ _)).
  rewrite !bind_gets.
  match goal with |- context [Notify ?e ?v ?ob ?s] =>
    destruct (Notify_run e v ob s) as (w & i & r & Hrun & Hq);
    assert (Ho := Notify_outcome e v ob s st) end.
  exists w, i, r. split; [|split].
  - rewrite Hrun. by destruct st.
  - intros Hquiet. apply Hq. by destruct st.
  - unfold outcome in Ho at 1. rewrite Hrun in Ho. cbn [snd] in Ho.
    replace (pod_name (with_old_state _ _)) with (pod_name st) in Ho
      by (by destruct st).
    replace (_mode (with_old_state _ _)) with B in Ho by (by destruct st).
    apply Ho; by destruct st.
Qed.

Lemma grows_http_get r : grows (W := W) (http_get r).
Proof. intros st. exists []. unfold http_get. destruct st; simpl. by rewrite app_nil_r. Qed.

Ltac grows_step :=
  first
    [ apply grows_Notify | apply grows_http_get | apply grows_state_changed
    | apply grows_ret
    | apply grows_raise | apply grows_lift | apply grows_gets
    | apply grows_modify; intros []; reflexivity
    | apply grows_when | apply grows_try_except
    | match goal with
      | |- grows (if ?b then _ else _) => destruct b
      | |- grows (match ?x with _ => _ end) => destruct x
      end
    | apply grows_bind; [|intros ?] ].

Lemma grows_diff_measurements measurements :
  grows (W := W) (diff_measurements measurements).
Proof. unfold diff_measurements. repeat grows_step. Qed.

Lemma grows_diff_state_tail state :
  grows (W := W)
    (scoped_field (get_or_None state "targetTemperature") "targetTemperature" "temp" ;;
     scoped_field (get_or_None state "fanLevel") "fanLevel" "fan_level" ;;
     c <- state_changed (get_or_None state "on") "on" ;;
     when c
       (old_state_set "on" (get_or_None state "on") ;;
        name <- gets pod_name ;;
        Notify (name +:+ ".power") (PBool (py_bool (get_or_None state "on")))
               (PodObj name)) ;;
     scoped_field (get_or_None state "temperatureUnit") "temperatureUnit" "temp_unit").
Proof. repeat grows_step. Qed.

Lemma diff_state_mode_and_swing st state (A B : string) (s0 : pyval) :
  B ∈ capabilities_modes st →
  state !! "mode" = Some (PStr B) →
  changed_from (old_state st) state "mode" (PStr A) →
  get_or_None state "swing" ≠ PNone →
  changed_from (old_state st) state "swing" s0 →
  let mode_ev := pod_event (pod_name st) "mode" (PStr B) in
  let swing_ev :=
    mode_event (pod_name st) B "swing" (get_or_None state "swing") in
  ∃ rest,
    published (fst (diff_state state st)) = published st ++ mode_ev :: rest ∧
    (dispatch_of mode_ev st = Ok tt → ∃ rest', rest = swing_ev :: rest') ∧
    (dispatch_of mode_ev st ≠ Ok tt →
     rest = [] ∧ snd (diff_state state st) = dispatch_of mode_ev st).
Proof.
  intros HB Hmode Hmc Hsk Hsc mode_ev swing_ev.
  destruct (mode_block_run st state B (PStr A) HB Hmode Hmc)
    as (w & i & r & Hrun & _ & Hr).
  change (dispatch_of mode_ev st) with
    (outcome (Notify (pod_name st +:+ ".mode") (PStr B) (PodObj (pod_name st))) st).
  rewrite <- Hr. clear Hr.
  destruct (diff_state state st) as [st' r'] eqn:E. cbn [fst snd].
  unfold diff_state in E. rewrite <- bind_assoc in E.
  destruct r as [[]|e].
  - rewrite (bind_Ok _ _ _ _ _ Hrun) in E.
    set (st2 := with_invoked i _) in *.
    destruct (scoped_field_changed state "swing" "swing" s0 st2 Hsk)
      as (w' & i' & r2 & Hrun' & _).
    { destruct st; simpl. by apply changed_from_insert_ne. }
    set (st3 := with_invoked i' _) in *.
    assert (Hl : ∃ l, published st' = published st3 ++ l).
    { destruct r2 as [[]|e].
      - rewrite (bind_Ok _ _ _ _ _ Hrun') in E.
        destruct (grows_diff_state_tail state st3) as [l Hl].
        rewrite E in Hl. by exists l.
      - rewrite (bind_Raise _ _ _ _ _ Hrun') in E. injection E as <- <-.
        exists []. by rewrite app_nil_r. }
    destruct Hl as [l Hl].
    exists (swing_ev :: l). split; [|split].
    + rewrite Hl. subst st3 st2. destruct st; simpl. by rewrite <- !app_assoc.
    + intros _. by exists l.
    + intros Hn. by destruct Hn.
  - rewrite (bind_Raise _ _ _ _ _ Hrun) in E. injection E as <- <-.
    exists []. split; [by destruct st|]. split; [discriminate | done].
Qed.

(** C4, amended.  When the mode changes from [A] to [B], a mode of the
    device, and the swing changes as well, both fetched values known,
    one diff pass publishes the mode event carrying [B] first.  If the
    dispatch of that event returns, the event published next is the
    swing event, named under [B] and not under [A]; if it ends with an
    exception, the pass ends with it and publishes nothing more. *)
Theorem mode_and_swing_change_publish_under_new_mode
    st state measurements (A B : string) (s0 : pyval) :
  B ∈ capabilities_modes st →
  state !! "mode" = Some (PStr B) →
  changed_from (old_state st) state "mode" (PStr A) →
  get_or_None state "swing" ≠ PNone →
  changed_from (old_state st) state "swing" s0 →
  let name := pod_name st in
  let mode_ev := pod_event name "mode" (PStr B) in
  let swing_ev := mode_event name B "swing" (get_or_None state "swing") in
  (∃ rest,
     published (exec (diff state measurements) st)
     = published st ++ mode_ev :: rest ∧
     (dispatch_of mode_ev st = Ok tt → ∃ rest', rest = swing_ev :: rest') ∧
     (dispatch_of mode_ev st ≠ Ok tt →
      rest = [] ∧
      outcome (diff state measurements) st = dispatch_of mode_ev st)) ∧
  ev_name swing_ev
  ≠ ev_name (mode_event name A "swing" (get_or_None state "swing")).
Proof.
  intros HB Hmode Hmc Hsk Hsc name mode_ev swing_ev. split.
  - destruct (diff_state_mode_and_swing st state A B s0 HB Hmode Hmc Hsk Hsc)
      as (rest & Hp & Hok & Hraise).
    fold name mode_ev swing_ev in Hp, Hok, Hraise.
    unfold exec, outcome, diff.
    destruct (diff_state state st) as [st' [[]|e]] eqn:E; cbn [fst snd] in *.
    + rewrite (bind_Ok _ _ _ _ _ E).
      destruct (grows_diff_measurements measurements st') as [l Hl].
      exists (rest ++ l). split; [|split].
      * rewrite Hl, Hp. by rewrite <- app_assoc.
      * intros H. destruct (Hok H) as [rest' ->]. by exists (rest' ++ l).
      * intros H. destruct (Hraise H) as [_ Hx]. by rewrite <- Hx in H.
    + rewrite (bind_Raise _ _ _ _ _ E). cbn [fst snd].
      exists rest. split; [exact Hp|]. split; [exact Hok | exact Hraise].
  - intros E. destruct Hmc as [_ Hne]. unfold get_or_None in Hne.
    rewrite Hmode in Hne. simpl in Hne. cbn [ev_name mode_event] in E.
    apply (inj (String.app name)) in E.
    apply (inj (String.app ".")) in E. apply append_inj_r in E. subst.
    unfold py_ne in Hne. simpl in Hne. by rewrite String.eqb_refl in Hne.
Qed.

(** *** The baseline of an absent device-state field *)

Lemma keeps_gets {A} k (f : St W → A) : keeps k (gets f).
Proof. by intros st. Qed.

Lemma keeps_bind {A B} k (m : M (W := W) A) (h : A → M (W := W) B) :
  keeps k m → (∀ a, keeps k (h a)) → keeps k (bind m h).
Proof.
  intros Hm Hh st. unfold bind. specialize (Hm st).
  destruct (m st) as [st' [a|e]]; simpl in Hm; [|exact Hm].
  by rewrite (Hh a st').
Qed.

Lemma keeps_Notify k event value obj : keeps (W := W) k (Notify event value obj).
Proof.
  intros st. destruct (Notify_run event value obj st) as (w & i & r & -> & _).
  by destruct st.
Qed.

Lemma keeps_old_state_set k k' v : k' ≠ k → keeps (W := W) k (old_state_set k' v).
Proof.
  intros Hne st. rewrite old_state_set_run. destruct st; simpl.
  by rewrite lookup_insert_ne.
Qed.

(** A block behind [v is not None and v != old_state[key]] keeps the
    baseline of [k] if its body does whenever [v] is known. *)
Lemma keeps_guarded k v key (body : M (W := W) unit) :
  (v ≠ PNone → keeps k body) →
  keeps k (c <- state_changed v key ;; when c body).
Proof.
  intros Hb st. unfold bind. rewrite state_changed_run.
  destruct v; simpl; try reflexivity;
    (destruct (subscript (old_state st) key) as [o|e]; simpl; [|reflexivity];
     destruct (py_ne _ o); simpl; [by apply Hb | reflexivity]).
Qed.

Lemma keeps_guarded_then {B} k v key (body : M (W := W) unit)
    (rest : M (W := W) B) :
  (v ≠ PNone → keeps k body) → keeps k rest →
  keeps k (c <- state_changed v key ;; when c body ;; rest).
Proof.
  intros Hb Hr st. unfold bind at 1. rewrite state_changed_run.
  destruct v; simpl; try apply Hr;
    (destruct (subscript (old_state st) key) as [o|e]; simpl; [|reflexivity];
     destruct (py_ne _ o); simpl;
     [apply (keeps_bind k body (fun _ => rest)); [by apply Hb | by intros _]
     | apply Hr]).
Qed.

Lemma keeps_scoped_field k v key property :
  (v ≠ PNone → key ≠ k) → keeps (W := W) k (scoped_field v key property).
Proof.
  intros Hk. unfold scoped_field. apply keeps_guarded. intros Hv.
  apply keeps_bind; [by apply keeps_old_state_set, Hk | intros _].
  apply keeps_bind; [apply keeps_gets | intros name].
  apply keeps_bind; [apply keeps_gets | intros mode_name].
  apply keeps_Notify.
Qed.

(** X1.  A device-state field absent from the fetched state keeps its
    baseline through the device-state diff, whatever the other fields
    and the callbacks do. *)
Theorem absent_state_field_keeps_its_baseline st state k :
  state !! k = None →
  old_state (exec (diff_state state) st) !! k = old_state st !! k.
Proof.
  intros Habsent.
  assert (Hnone : get_or_None state k = PNone)
    by (unfold get_or_None; by rewrite Habsent).
  assert (Hkey : ∀ key, get_or_None state key ≠ PNone → key ≠ k)
    by (intros key Hv ->; contradiction).
  unfold exec. revert st. change (keeps (W := W) k (diff_state state)).
  unfold diff_state.
  apply keeps_guarded_then.
  { intros Hv.
    apply keeps_bind.
    { intros st. unfold Mode_of. rewrite bind_gets.
      destruct (get_or_None state "mode") as [| | | |s]; try reflexivity.
      by destruct (bool_decide _). }
    intros m. apply keeps_bind; [by intros [] | intros _].
    apply keeps_bind; [by apply keeps_old_state_set, Hkey | intros _].
    apply keeps_bind; [apply keeps_gets | intros name].
    apply keeps_bind; [apply keeps_gets | intros mode_name].
    apply keeps_Notify. }
  apply keeps_bind; [by apply keeps_scoped_field, Hkey | intros _].
  apply keeps_bind; [by apply keeps_scoped_field, Hkey | intros _].
  apply keeps_bind; [by apply keeps_scoped_field, Hkey | intros _].
  apply keeps_guarded_then; [|by apply keeps_scoped_field, Hkey].
  intros Hv.
  apply keeps_bind; [by apply keeps_old_state_set, Hkey | intros _].
  apply keeps_bind; [apply keeps_gets | intros name].
  apply keeps_Notify.
Qed.

(** *** Reading the server *)

Lemma refetched_trans st1 st2 st3 :
  refetched st1 st2 → refetched st2 st3 → refetched st1 st3.
Proof.
  intros (n & f & c & Hn & ->) (n' & f' & c' & Hn' & ->).
  exists n', f', c'. split; [destruct st1; simpl in *; lia | by destruct st1].
Qed.

Lemma refetched_requests st n :
  requests st ≤ n → refetched st (with_requests n st).
Proof. intros Hn. exists n, (__fnht st), (__clcs st). split; [exact Hn | by destruct st]. Qed.

Lemma refetched_fnht st f : refetched st (with_fnht f st).
Proof. exists (requests st), f, (__clcs st). split; [lia | by destruct st]. Qed.

Lemma refetched_clcs st c : refetched st (with_clcs c st).
Proof. exists (requests st), (__fnht st), c. split; [lia | by destruct st]. Qed.

Lemma steady_refetched st st' m s :
  refetched st st' → steady st m s → steady st' m s.
Proof.
  intros (n & f & c & Hn & ->) Hs k Hk. destruct st; simpl in *.
  apply Hs. simpl. lia.
Qed.

Lemma Pod_state_steady st m s :
  steady st m s →
  Pod_state st = (with_requests (S (requests st)) st, Ok s).
Proof.
  intros Hs. unfold Pod_state, http_get.
  by destruct (Hs (requests st) (le_n _)) as [_ ->].
Qed.

Lemma Pod__measurements_steady st m s :
  steady st m s →
  Pod__measurements st = (with_requests (S (requests st)) st, Ok m).
Proof.
  intros Hs. unfold Pod__measurements, try_except, http_get.
  by destruct (Hs (requests st) (le_n _)) as [-> _].
Qed.

Lemma Pod_room_temp_steady st m s :
  steady st m s →
  Pod_room_temp st
  = (with_requests (S (requests st)) st,
     match m !! "temperature" with
     | Some v => Ok v
     | None => Raise AttributeError
     end).
Proof.
  intros Hs. unfold Pod_room_temp, try_except.
  rewrite (bind_Ok _ _ _ _ _ (Pod__measurements_steady st m s Hs)).
  unfold lift, subscript. by destruct (m !! "temperature").
Qed.

Lemma Pod_room_humidity_steady st m s :
  steady st m s →
  Pod_room_humidity st
  = (with_requests (S (requests st)) st,
     match m !! "humidity" with
     | Some v => Ok v
     | None => Raise AttributeError
     end).
Proof.
  intros Hs. unfold Pod_room_humidity, try_except.
  rewrite (bind_Ok _ _ _ _ _ (Pod__measurements_steady st m s Hs)).
  unfold lift, subscript. by destruct (m !! "humidity").
Qed.

Lemma Pod_room_dew_point_steady st m s :
  steady st m s →
  ∃ st', refetched st st' ∧
    Pod_room_dew_point st = (st', dew_point_reading m s (__fnht st)).
Proof.
  intros Hs. unfold Pod_room_dew_point, dew_point_reading.
  unfold bind at 1. rewrite (Pod_room_temp_steady st m s Hs).
  destruct (m !! "temperature") as [t|].
  2:{ eexists. split; [|reflexivity]. apply refetched_requests. lia. }
  set (st1 := with_requests (S (requests st)) st).
  assert (Hs1 : steady st1 m s).
  { eapply steady_refetched; [|exact Hs]. apply refetched_requests. lia. }
  unfold bind at 1. rewrite (Pod_room_humidity_steady st1 m s Hs1).
  destruct (m !! "humidity") as [h|].
  2:{ eexists. split; [|reflexivity]. subst st1.
      eapply refetched_trans; apply refetched_requests; simpl; lia. }
  set (st2 := with_requests (S (requests st1)) st1).
  assert (Hs2 : steady st2 m s).
  { eapply steady_refetched; [|exact Hs1]. apply refetched_requests. lia. }
  unfold bind at 1, try_except. unfold Mode_temp_unit. rewrite bind_assoc.
  rewrite (bind_Ok _ _ _ _ _ (Pod_state_steady st2 m s Hs2)).
  set (st3 := with_requests (S (requests st2)) st2).
  assert (R3 : refetched st st3).
  { subst st3 st2 st1.
    eapply refetched_trans; [|apply refetched_requests; simpl; lia].
    eapply refetched_trans; apply refetched_requests; simpl; lia. }
  unfold unit_text.
  destruct (s !! "temperatureUnit") as [[| | | |u]|]; simpl;
    try (unfold bind, gets, ret, raise, lift; simpl;
         replace (__fnht st3) with (__fnht st) by (by destruct st);
         destruct (__fnht st); simpl; eexists; (split; [exact R3 | reflexivity])).
  eexists. split; [|reflexivity].
  eapply refetched_trans; [exact R3|].
  eapply refetched_trans; [apply refetched_fnht | apply refetched_clcs].
Qed.

(** *** Steps of the measurement diff *)

Lemma advances_refl st : advances st st [].
Proof. unfold advances. rewrite app_nil_r. repeat split; lia. Qed.

Lemma advances_trans st1 st2 st3 e1 e2 :
  advances st1 st2 e1 → advances st2 st3 e2 → advances st1 st3 (e1 ++ e2).
Proof.
  intros (P1 & C1 & N1 & S1 & R1 & B1) (P2 & C2 & N2 & S2 & R2 & B2).
  unfold advances. rewrite P2, P1, C2, C1, N2, N1, S2, S1, B2, B1, app_assoc.
  repeat split; lia.
Qed.

Lemma refetched_advances st st' : refetched st st' → advances st st' [].
Proof.
  intros (n & f & c & Hn & ->). unfold advances. destruct st; simpl in *.
  rewrite app_nil_r. repeat split; lia.
Qed.

Lemma old_measurements_set_advances k v st :
  k ≠ "batteryVoltage" →
  advances st (with_old_measurements (<[k := v]> (old_measurements st)) st) [].
Proof.
  intros Hk. unfold advances. destruct st; simpl. rewrite app_nil_r.
  repeat split; try lia. by rewrite lookup_insert_ne.
Qed.

Lemma measurement_changed_at v k o st :
  old_measurements st !! k = Some o →
  measurement_changed v k st = (st, Ok (py_ne v o)).
Proof.
  intros Ho. rewrite measurement_changed_run. unfold subscript. by rewrite Ho.
Qed.

(** The derived readings are unavailable: nothing is published. *)
Lemma hi_dp_event_unavailable st st' :
  Pod_room_dew_point st = (st', Raise AttributeError) →
  hi_dp_event st = (st', Ok tt).
Proof.
  intros H. unfold hi_dp_event, try_except. rewrite bind_gets.
  by rewrite (bind_Raise _ _ _ _ _ H).
Qed.

(** C9, amended.  With the server answering, the dew point is
    unavailable exactly when the temperature or the humidity reading is
    absent, or the unit of measure cannot be determined and none is
    cached; with the readings present and the unit undetermined but
    cached, the computation is the arithmetic on the cached unit; and
    when the dew point is unavailable the poll loop publishes neither
    derived event. *)
Theorem dew_point_unavailable_exactly_when st m s :
  steady st m s →
  (outcome Pod_room_dew_point st = Raise AttributeError ↔
     m !! "temperature" = None ∨ m !! "humidity" = None ∨
     (unit_text s = None ∧ __fnht st = None)) ∧
  (∀ t h fnht,
     m !! "temperature" = Some t → m !! "humidity" = Some h →
     unit_text s = None → __fnht st = Some fnht →
     outcome Pod_room_dew_point st = dew_point_of t h fnht) ∧
  (outcome Pod_room_dew_point st = Raise AttributeError →
     outcome hi_dp_event st = Ok tt ∧
     published (exec hi_dp_event st) = published st).
Proof.
  intros Hs. destruct (Pod_room_dew_point_steady st m s Hs) as (st' & R & E).
  unfold outcome, exec. rewrite E. simpl. split; [|split].
  - unfold dew_point_reading.
    destruct (m !! "temperature") as [t|]; [|split; [by left | done]].
    destruct (m !! "humidity") as [h|]; [|split; [right; by left | done]].
    destruct (unit_text s) as [u|].
    + split.
      * intros Hd. by apply available_dew_point_of in Hd.
      * intros [?|[?|[? _]]]; discriminate.
    + destruct (__fnht st) as [f|].
      * split.
        -- intros Hd. by apply available_dew_point_of in Hd.
        -- intros [?|[?|[_ ?]]]; discriminate.
      * split; [intros _; right; right; done | done].
  - intros t h fnht Ht Hh Hu Hf. unfold dew_point_reading.
    by rewrite Ht, Hh, Hu, Hf.
  - intros Hd. rewrite Hd in E.
    rewrite (hi_dp_event_unavailable st st' E). simpl.
    split; [reflexivity|]. destruct R as (n & f & c & _ & ->). by destruct st.
Qed.
End PollFacts.

(** ** The router, the client and the heat index *)

Section RouterClaims.
Context {W : Type}.
Implicit Types (st : St W).


(** X2.  When no callback due for an event raises, and the registry is
    left as it is while the event is dispatched (no callback, and no
    other thread, binds or unbinds meanwhile: the callbacks of the
    embedding cannot), all of them are called, in registry order, and
    [Notify] returns. *)
Lemma Notify_all_return st event value obj :
  (∀ c, In c (matching (callbacks st) event) →
        ∀ w, snd (snd c event value obj w) = None) →
  outcome (Notify event value obj) st = Ok tt ∧
  invoked (exec (Notify event value obj) st)
  = invoked st ++ map call_key (matching (callbacks st) event).
Proof.
  intros Hq. unfold outcome, exec. rewrite Notify_unfold.
  match goal with |- context [run_calls _ _ _ _ ?st1] =>
    destruct (run_calls_quiet _ event value obj st1 Hq) as [w Hw] end.
  rewrite Hw.
  simpl. split; [reflexivity | by destruct st].
Qed.

End RouterClaims.

(** ** The heat index *)

Section HeatIndex.
Context {libm : Libm}.

End HeatIndex.

(** ** Binding and unbinding *)

Section Subscriptions.
Context {W : Type}.
Implicit Types (st : St W) (d : registry W) (cb : callback W).

Lemma matching_registry_del g d event :
  matching (registry_del g d) event = without g (matching d event).
Proof.
  unfold without. induction d as [|[evt cbs] d IH]; simpl; [reflexivity|].
  rewrite filter_app. f_equal; [|exact IH].
  destruct (matches evt event); [|reflexivity].
  induction cbs as [|[g' cb] cbs IHc]; simpl; [reflexivity|].
  rewrite !filter_cons. simpl.
  destruct (decide (Is_true (negb (g' =? g)%nat))) as [Hd|Hd];
    destruct (decide (g' ≠ g)) as [Hn|Hn]; simpl.
  - f_equal. exact IHc.
  - exfalso. apply Hn. intros ->. by rewrite Nat.eqb_refl in Hd.
  - exfalso. apply Hd. apply Nat.eqb_neq in Hn. by rewrite Hn.
  - exact IHc.
Qed.

Lemma registry_ids_del g d : ¬ In g (registry_ids (registry_del g d)).
Proof.
  induction d as [|[evt cbs] d IH]; simpl; [tauto|].
  rewrite in_app_iff. intros [H|H]; [|by apply IH].
  apply in_map_iff in H as [[g' cb] [Hg Hin]]. simpl in Hg. subst g'.
  apply list_elem_of_In, list_elem_of_filter in Hin as [Hp _].
  simpl in Hp. by rewrite Nat.eqb_refl in Hp.
Qed.

Lemma registry_del_unknown g d :
  ¬ In g (registry_ids d) → registry_del g d = d.
Proof.
  induction d as [|[evt cbs] d IH]; simpl; [reflexivity|].
  rewrite in_app_iff. intros Hn. f_equal; [|apply IH; tauto].
  f_equal.
  assert (Hc : ¬ In g (map fst cbs)) by tauto. clear Hn IH.
  induction cbs as [|[g' cb] cbs IHc]; [reflexivity|].
  simpl in Hc. rewrite filter_cons. simpl.
  destruct (decide (Is_true (negb (g' =? g)%nat))) as [Hd|Hd].
  - f_equal. apply IHc. tauto.
  - exfalso. apply Hd. destruct (Nat.eqb_spec g' g); [tauto | done].
Qed.

Lemma with_callbacks_same st : with_callbacks (callbacks st) st = st.
Proof. by destruct st. Qed.

Lemma callbacks_set_fresh g cb (cbs : list (guid * callback W)) :
  ¬ In g (map fst cbs) → callbacks_set g cb cbs = cbs ++ [(g, cb)].
Proof.
  induction cbs as [|[g' cb'] cbs IH]; simpl; [reflexivity|].
  intros Hn. destruct (Nat.eqb_spec g' g) as [->|_]; [tauto|].
  f_equal. apply IH. tauto.
Qed.

Lemma without_map_fresh g evt (cbs : list (guid * callback W)) :
  ¬ In g (map fst cbs) →
  without g (map (fun '(g, cb) => (evt, g, cb)) cbs)
  = map (fun '(g, cb) => (evt, g, cb)) cbs.
Proof.
  unfold without. induction cbs as [|[g' cb'] cbs IH]; simpl; [reflexivity|].
  intros Hn. rewrite filter_cons. simpl.
  destruct (decide (g' ≠ g)) as [_|Hd]; [|exfalso; apply Hd; tauto].
  f_equal. apply IH. tauto.
Qed.

Lemma without_matching_fresh g d event :
  ¬ In g (registry_ids d) → without g (matching d event) = matching d event.
Proof.
  induction d as [|[evt cbs] d IH]; simpl; [reflexivity|].
  rewrite in_app_iff. intros Hn. unfold without in *. rewrite filter_app.
  f_equal; [|apply IH; tauto].
  destruct (matches evt event); [|reflexivity].
  apply without_map_fresh. tauto.
Qed.

Lemma matching_registry_set_without e g cb d event :
  ¬ In g (registry_ids d) →
  without g (matching (registry_set e g cb d) event) = matching d event.
Proof.
  induction d as [|[evt cbs] d IH]; simpl.
  - intros _. destruct (matches e event); [|reflexivity].
    unfold without. simpl. rewrite filter_cons. simpl.
    by destruct (decide (g ≠ g)).
  - rewrite in_app_iff. intros Hn. destruct (String.eqb evt e); simpl.
    + unfold without. rewrite filter_app. f_equal.
      2:{ apply without_matching_fresh. tauto. }
      destruct (matches evt event); [|reflexivity].
      rewrite callbacks_set_fresh by tauto. rewrite map_app, filter_app.
      simpl. rewrite filter_cons. simpl.
      destruct (decide (g ≠ g)); [done|]. rewrite filter_nil, app_nil_r.
      apply without_map_fresh. tauto.
    + unfold without in *. rewrite filter_app. f_equal; [|apply IH; tauto].
      destruct (matches evt event); [|reflexivity].
      apply without_map_fresh. tauto.
Qed.

Lemma matching_pattern p g cb d event :
  In (p, g, cb) (matching d event) → matches p event = true.
Proof.
  unfold matching. intros Hin.
  apply in_flat_map in Hin as [[evt cbs] [_ Hin]].
  destruct (matches evt event) eqn:E; [|contradiction].
  apply in_map_iff in Hin as [[g' cb'] [Heq _]]. by inversion Heq; subst.
Qed.

Lemma callbacks_set_In g cb (cbs : list (guid * callback W)) :
  In (g, cb) (callbacks_set g cb cbs).
Proof.
  induction cbs as [|[g' cb'] cbs IH]; simpl; [by left|].
  destruct (Nat.eqb_spec g' g) as [->|_]; [by left | by right].
Qed.

Lemma registry_set_due e g cb d event :
  matches e event = true → In (e, g, cb) (matching (registry_set e g cb d) event).
Proof.
  intros Hm. induction d as [|[evt cbs] d IH]; simpl.
  - rewrite Hm. by left.
  - destruct (String.eqb_spec evt e) as [->|_]; simpl; apply in_or_app.
    + left. rewrite Hm. apply in_map_iff. exists (g, cb).
      split; [reflexivity | apply callbacks_set_In].
    + by right.
Qed.

Lemma callbacks_set_ids g cb (cbs : list (guid * callback W)) x :
  In x (map fst (callbacks_set g cb cbs)) → x = g ∨ In x (map fst cbs).
Proof.
  induction cbs as [|[g' cb'] cbs IH]; simpl.
  - intros [<-|[]]. by left.
  - destruct (Nat.eqb_spec g' g) as [->|_]; simpl.
    + intros [<-|H]; [by left | right; by right].
    + intros [<-|H]; [right; by left|]. destruct (IH H); [by left | right; by right].
Qed.

Lemma registry_set_ids e g cb d x :
  In x (registry_ids (registry_set e g cb d)) → x = g ∨ In x (registry_ids d).
Proof.
  induction d as [|[evt cbs] d IH]; simpl.
  - intros [<-|[]]. by left.
  - destruct (String.eqb evt e); simpl; rewrite !in_app_iff.
    + intros [H|H]; [|tauto]. destruct (callbacks_set_ids _ _ _ _ H); tauto.
    + intros [H|H]; [tauto|]. destruct (IH H); tauto.
Qed.

Lemma Notify_bind_run e cb st :
  Notify_bind e cb st
  = (with_callbacks (registry_set e (next_guid st) cb (callbacks st))
       (with_next_guid (S (next_guid st)) st), Ok (next_guid st)).
Proof. by destruct st. Qed.

Lemma Notify_unbind_run g st :
  Notify_unbind g st = (with_callbacks (registry_del g (callbacks st)) st, Ok tt).
Proof. reflexivity. Qed.

Lemma drawn_below_fresh st :
  drawn_below (next_guid st) (callbacks st) →
  ¬ In (next_guid st) (registry_ids (callbacks st)).
Proof. intros Hd Hin. apply Hd in Hin. lia. Qed.

(** X4.  [Notify.unbind] always returns; from then on no event calls
    anything under the id, and the calls due under the other ids are
    the same as before, in the same order. *)
Theorem Notify_unbind_silences g st :
  let st' := exec (Notify_unbind g) st in
  outcome (Notify_unbind g) st = Ok tt ∧
  ¬ In g (registry_ids (callbacks st')) ∧
  ∀ event, matching (callbacks st') event
           = without g (matching (callbacks st) event).
Proof.
  intros st'. subst st'. unfold exec, outcome. rewrite Notify_unbind_run.
  cbn [fst snd]. replace (callbacks (with_callbacks _ st))
    with (registry_del g (callbacks st)) by (by destruct st).
  split; [reflexivity|]. split; [apply registry_ids_del|].
  intros event. apply matching_registry_del.
Qed.

(** X5.  Unbinding an id under which nothing is registered (one never
    issued, or one already unbound) changes nothing and raises nothing. *)
Theorem Notify_unbind_unknown_id g st :
  ¬ In g (registry_ids (callbacks st)) →
  Notify_unbind g st = (st, Ok tt).
Proof.
  intros Hn. rewrite Notify_unbind_run, (registry_del_unknown g _ Hn).
  by rewrite with_callbacks_same.
Qed.

(** X6.  [Notify.bind] returns a fresh id and makes the callback due,
    under that id, for exactly the events its pattern matches; the calls
    that were due before are still due, in the same order, and the ids of
    the registry stay below the supply. *)
Theorem Notify_bind_adds e cb st :
  drawn_below (next_guid st) (callbacks st) →
  let g := next_guid st in
  let st' := exec (Notify_bind e cb) st in
  outcome (Notify_bind e cb) st = Ok g ∧
  drawn_below (next_guid st') (callbacks st') ∧
  ∀ event,
    (In (e, g, cb) (matching (callbacks st') event) ↔ matches e event = true) ∧
    without g (matching (callbacks st') event) = matching (callbacks st) event.
Proof.
  intros Hd g st'. subst g st'. unfold exec, outcome. rewrite Notify_bind_run.
  cbn [fst snd].
  replace (callbacks (with_callbacks _ _))
    with (registry_set e (next_guid st) cb (callbacks st)) by (by destruct st).
  replace (next_guid (with_callbacks _ _)) with (S (next_guid st)) by (by destruct st).
  split; [reflexivity|]. split.
  - intros x Hx. apply registry_set_ids in Hx as [->|Hx]; [lia|].
    apply Hd in Hx. lia.
  - intros event. split.
    + split; [apply matching_pattern | apply registry_set_due].
    + apply matching_registry_set_without. by apply drawn_below_fresh.
Qed.

(** X7.  Binding a callback and unbinding it with the id [bind] returned
    leaves every event with the calls it had before. *)
Theorem bind_then_unbind_restores_the_calls e cb st :
  drawn_below (next_guid st) (callbacks st) →
  let m := (g <- Notify_bind e cb ;; Notify_unbind g) in
  outcome m st = Ok tt ∧
  ∀ event, matching (callbacks (exec m st)) event
           = matching (callbacks st) event.
Proof.
  intros Hd m. subst m. unfold exec, outcome, bind.
  rewrite Notify_bind_run, Notify_unbind_run. cbn [fst snd].
  split; [reflexivity|]. intros event.
  replace (callbacks (with_callbacks _ _))
    with (registry_del (next_guid st)
            (registry_set e (next_guid st) cb (callbacks st))) by (by destruct st).
  rewrite matching_registry_del. apply matching_registry_set_without.
  by apply drawn_below_fresh.
Qed.
End Subscriptions.

(** ** Literal text in a glob *)

Section Globs.

Lemma glob_free_literal s : glob_free s = literal (list_ascii_of_string s).
Proof.
  unfold glob_free. induction s as [|c s IH]; [reflexivity|].
  cbn [contains list_ascii_of_string literal]. rewrite <- IH.
  rewrite (Ascii.eqb_sym c "*"), (Ascii.eqb_sym c "?"), (Ascii.eqb_sym c "[").
  destruct (Ascii.eqb "*" c), (Ascii.eqb "?" c), (Ascii.eqb "[" c);
    cbn [negb orb andb]; try reflexivity;
    by destruct (contains "*" s), (contains "?" s).
Qed.

Lemma translate_aux_literal (l r : list ascii) (n : nat) :
  literal l = true →
  translate_aux (length l + n) (l ++ r) = map GLit l ++ translate_aux n r.
Proof.
  induction l as [|c l IH]; intros Hl; [reflexivity|].
  cbn [literal] in Hl. apply andb_prop in Hl as [Hl Hl'].
  apply andb_prop in Hl as [Hl H3]. apply andb_prop in Hl as [H1 H2].
  apply negb_true_iff in H1, H2, H3.
  cbn [length Nat.add app translate_aux map]. rewrite H1, H2, H3.
  by rewrite IH.
Qed.

Lemma re_match_literal (l : list ascii) (q : list glob_tok) (s : list ascii) :
  re_match (map GLit l ++ q) s = true ↔ ∃ t, s = l ++ t ∧ re_match q t = true.
Proof.
  revert s. induction l as [|c l IH]; intros s.
  - cbn [map app]. split; [intros H; by exists s | by intros (t & -> & H)].
  - cbn [map app re_match]. destruct s as [|d s].
    + split; [discriminate | by intros (t & Ht & _)].
    + cbn [tok_accepts]. rewrite andb_true_iff, IH. split.
      * intros [Hc (t & -> & Ht)]. apply Ascii.eqb_eq in Hc as ->. by exists t.
      * intros (t & Ht & Hq). injection Ht as -> ->.
        split; [apply Ascii.eqb_refl | by exists t].
Qed.

Lemma re_match_star (q : list glob_tok) (s : list ascii) :
  re_match (GStar :: q) s = true ↔ ∃ pre t, s = pre ++ t ∧ re_match q t = true.
Proof.
  split.
  - induction s as [|c s IH]; cbn [re_match].
    + rewrite orb_false_r. intros H. by exists [], [].
    + intros H. apply orb_prop in H as [H|H].
      * by exists [], (c :: s).
      * destruct (IH H) as (pre & t & -> & Ht). by exists (c :: pre), t.
  - intros (pre & t & -> & Ht). by apply re_match_star_suffix.
Qed.

Lemma re_match_nil (s : list ascii) : re_match [] s = true ↔ s = [].
Proof. destruct s; simpl; split; congruence. Qed.

Lemma string_of_list_app (a b : list ascii) :
  string_of_list_ascii (a ++ b) = string_of_list_ascii a +:+ string_of_list_ascii b.
Proof. induction a as [|c a IH]; simpl; [reflexivity | by rewrite IH]. Qed.

(** A glob made of literal text and a final star matches the names that
    start with the text. *)
Lemma fnmatch_prefix (text event : string) :
  glob_free text = true →
  fnmatch event (text +:+ "*") = true ↔ ∃ rest, event = text +:+ rest.
Proof.
  intros Hg. rewrite glob_free_literal in Hg. unfold fnmatch, translate.
  rewrite list_ascii_of_string_app, length_app.
  rewrite (translate_aux_literal _ _ _ Hg). cbn [list_ascii_of_string length translate_aux].
  replace (Ascii.eqb "*" "*") with true by reflexivity.
  rewrite re_match_literal. split.
  - intros (t & Ht & _). exists (string_of_list_ascii t).
    rewrite <- (string_of_list_ascii_of_string event), Ht, string_of_list_app.
    by rewrite string_of_list_ascii_of_string.
  - intros (rest & ->). exists (list_ascii_of_string rest).
    split; [apply list_ascii_of_string_app|].
    apply re_match_star. exists (list_ascii_of_string rest), []. by rewrite app_nil_r.
Qed.

(** A glob made of a star and literal text matches the names that end
    with the text. *)
Lemma fnmatch_suffix (text event : string) :
  glob_free text = true →
  fnmatch event ("*" +:+ text) = true ↔ ∃ front, event = front +:+ text.
Proof.
  intros Hg. rewrite glob_free_literal in Hg. unfold fnmatch, translate.
  change ("*" +:+ text) with (String "*" text).
  cbn [list_ascii_of_string length translate_aux].
  replace (Ascii.eqb "*" "*") with true by reflexivity.
  assert (Ht : translate_aux (length (list_ascii_of_string text)) (list_ascii_of_string text)
               = map GLit (list_ascii_of_string text)).
  { generalize (translate_aux_literal (list_ascii_of_string text) [] 0 Hg).
    rewrite Nat.add_0_r, !app_nil_r. by destruct (list_ascii_of_string text). }
  rewrite Ht, re_match_star. split.
  - intros (pre & t & He & Hm).
    rewrite <- (app_nil_r (map GLit _)) in Hm.
    apply re_match_literal in Hm as (t' & -> & Hn). apply re_match_nil in Hn as ->.
    rewrite app_nil_r in He. exists (string_of_list_ascii pre).
    rewrite <- (string_of_list_ascii_of_string event), He, string_of_list_app.
    by rewrite string_of_list_ascii_of_string.
  - intros (front & ->). exists (list_ascii_of_string front), (list_ascii_of_string text).
    split; [apply list_ascii_of_string_app|].
    rewrite <- (app_nil_r (map GLit _)). apply re_match_literal.
    exists []. by rewrite app_nil_r.
Qed.

Lemma contains_app c (a b : string) :
  contains c (a +:+ b) = contains c a || contains c b.
Proof.
  induction a as [|d a IH]; [reflexivity|].
  simpl. rewrite IH. by rewrite orb_assoc.
Qed.

Lemma lower_app (a b : string) : lower (a +:+ b) = lower a +:+ lower b.
Proof. induction a as [|c a IH]; simpl; [reflexivity | by rewrite IH]. Qed.

Lemma length_lower (a : string) : String.length (lower a) = String.length a.
Proof. induction a as [|c a IH]; simpl; [reflexivity | by rewrite IH]. Qed.
End Globs.

(** ** Which events a subscription hears *)

Section Hearing.
Context {W : Type}.
Implicit Types (st : St W) (d : registry W) (cb : callback W).

Lemma matches_true evt event :
  matches evt event = true ↔
  ((contains "*" evt || contains "?" evt) = true ∧ fnmatch event evt = true)
  ∨ lower evt = event.
Proof.
  unfold matches.
  destruct (contains "*" evt || contains "?" evt); cbn [andb].
  - destruct (fnmatch event evt).
    + split; [by left | reflexivity].
    + rewrite String.eqb_eq. split; [by right | by intros [[_ ?]|?]].
  - rewrite String.eqb_eq. split; [by right | by intros [[? _]|?]].
Qed.

Lemma append_assoc (a b c : string) : (a +:+ b) +:+ c = a +:+ (b +:+ c).
Proof.
  induction a as [|x a IH]; [reflexivity|].
  change (String x ((a +:+ b) +:+ c) = String x (a +:+ (b +:+ c))).
  by rewrite IH.
Qed.

Lemma glob_free_app (a b : string) :
  glob_free (a +:+ b) = glob_free a && glob_free b.
Proof.
  unfold glob_free. rewrite !contains_app.
  destruct (contains "*" a), (contains "?" a), (contains "[" a),
    (contains "*" b), (contains "?" b), (contains "[" b); reflexivity.
Qed.

(** What [Notify.bind] leaves due under the id it returns. *)
Lemma bound_due e cb st event :
  In (e, next_guid st, cb) (matching (callbacks (exec (Notify_bind e cb) st)) event)
  ↔ matches e event = true.
Proof.
  unfold exec. rewrite Notify_bind_run. cbn [fst].
  replace (callbacks (with_callbacks _ _))
    with (registry_set e (next_guid st) cb (callbacks st)) by (by destruct st).
  split; [apply matching_pattern | apply registry_set_due].
Qed.

Lemma Pod_bind_run p cb st :
  In p Pod_property_names →
  Pod_bind p cb st = Notify_bind (pod_name st +:+ "." +:+ p) cb st.
Proof.
  intros Hin. unfold Pod_bind. rewrite bind_gets.
  replace (existsb (String.eqb p) (take 6 Pod_property_names)) with true; [reflexivity|].
  symmetry. apply existsb_exists. exists p. split; [exact Hin | apply String.eqb_refl].
Qed.

(** X8.  [Pod.bind] accepts the six names of its tuple, registering the
    two-part pattern [name.property], and rejects every other name with
    [ValueError], the registry and the id supply untouched: the branch
    that would register [name.*.property] is never taken. *)
Theorem Pod_bind_accepts_its_six_names p cb st :
  (In p ["mode"; "power"; "room_temp"; "room_humidity"; "battery_voltage"; "*"] ∧
   Pod_bind p cb st = Notify_bind (pod_name st +:+ "." +:+ p) cb st) ∨
  (¬ In p ["mode"; "power"; "room_temp"; "room_humidity"; "battery_voltage"; "*"] ∧
   Pod_bind p cb st = (st, Raise ValueError)).
Proof.
  destruct (existsb (String.eqb p) Pod_property_names) eqn:E.
  - left. apply existsb_exists in E as (x & Hx & Heq).
    apply String.eqb_eq in Heq as <-. split; [exact Hx | by apply Pod_bind_run].
  - right. split.
    + intros Hin. assert (existsb (String.eqb p) Pod_property_names = true); [|congruence].
      apply existsb_exists. exists p. split; [exact Hin | apply String.eqb_refl].
    + unfold Pod_bind. rewrite bind_gets.
      change (take 6 Pod_property_names) with Pod_property_names.
      rewrite E. reflexivity.
Qed.

(** X9.  A callback bound with [Pod.bind('*', ...)] on a pod whose name
    is ASCII and holds no glob character is due for the events whose
    name starts with the pod's name and a dot (those of its modes
    included), and for the event that spells the lower-cased pattern
    itself; for no other. *)
Theorem Pod_bind_star_hears_the_pod cb st :
  is_ascii (pod_name st) = true →
  glob_free (pod_name st) = true →
  let name := pod_name st in
  let st' := exec (Pod_bind "*" cb) st in
  outcome (Pod_bind "*" cb) st = Ok (next_guid st) ∧
  ∀ event,
    In (name +:+ ".*", next_guid st, cb) (matching (callbacks st') event) ↔
    (∃ rest, event = name +:+ "." +:+ rest) ∨ event = lower name +:+ ".*".
Proof.
  intros _ Hg name st'. subst name st'. unfold exec, outcome.
  rewrite Pod_bind_run by (unfold Pod_property_names; cbn [In]; tauto).
  split; [by rewrite Notify_bind_run|]. intros event.
  rewrite (bound_due (pod_name st +:+ ".*") cb st event), matches_true.
  replace (contains "*" (pod_name st +:+ ".*") || contains "?" (pod_name st +:+ ".*"))
    with true.
  2:{ rewrite (contains_app "*"). change (contains "*" ".*") with true.
      by rewrite orb_true_r. }
  assert (Hl : lower (pod_name st +:+ ".*") = lower (pod_name st) +:+ ".*")
    by (by rewrite lower_app).
  rewrite Hl.
  change (pod_name st +:+ ".*") with (pod_name st +:+ ("." +:+ "*")).
  rewrite <- append_assoc, fnmatch_prefix.
  2:{ rewrite glob_free_app, Hg. reflexivity. }
  split.
  - intros [[_ [rest ->]]|<-]; [left; exists rest; by rewrite append_assoc | by right].
  - intros [[rest ->]| ->]; [|by right].
    left. split; [reflexivity|]. exists rest. by rewrite append_assoc.
Qed.

Lemma contains_pod_event c name p :
  contains c name = false → contains c ("." +:+ p) = false →
  contains c (name +:+ "." +:+ p) = false.
Proof. intros H1 H2. by rewrite contains_app, H1, H2. Qed.

(** X10.  A callback bound with [Pod.bind] to one property of a pod whose
    name is ASCII and holds no wildcard is due for the pod's own event
    of that name exactly when the pod's name has no capital letter: the
    router lower-cases the pattern and compares it with the event name
    as published. *)
Theorem Pod_bind_hears_its_event_iff_lower_case p cb st :
  is_ascii (pod_name st) = true →
  In p ["mode"; "power"; "room_temp"; "room_humidity"; "battery_voltage"] →
  contains "*" (pod_name st) = false →
  contains "?" (pod_name st) = false →
  let name := pod_name st in
  let st' := exec (Pod_bind p cb) st in
  In (name +:+ "." +:+ p, next_guid st, cb)
     (matching (callbacks st') (name +:+ "." +:+ p))
  ↔ lower name = name.
Proof.
  intros _ Hin H1 H2 name st'. subst name st'. unfold exec.
  rewrite Pod_bind_run by (unfold Pod_property_names; cbn [In] in *; tauto).
  rewrite (bound_due (pod_name st +:+ "." +:+ p) cb st), matches_true.
  assert (Hp : contains "*" ("." +:+ p) = false ∧ contains "?" ("." +:+ p) = false
               ∧ lower ("." +:+ p) = "." +:+ p).
  { cbn [In] in Hin.
    repeat (destruct Hin as [<-|Hin]; [repeat split; vm_compute; reflexivity|]).
    destruct Hin. }
  destruct Hp as (P1 & P2 & P3).
  rewrite (contains_pod_event _ _ _ H1 P1), (contains_pod_event _ _ _ H2 P2).
  rewrite lower_app, P3. split.
  - intros [[? _]|Heq]; [discriminate|]. by apply append_inj_r in Heq.
  - intros ->. by right.
Qed.

Lemma fnmatch_two_stars event : fnmatch event "**" = true.
Proof.
  unfold fnmatch. change (translate "**") with [GStar; GStar].
  apply re_match_star. exists [], (list_ascii_of_string event). split; [reflexivity|].
  apply re_match_star. exists (list_ascii_of_string event), []. by rewrite app_nil_r.
Qed.

(** X11.  A callback bound with [Client.bind] is due for the events whose
    name ends with the property name, whatever the device and the mode,
    and for no other; bound to ['*'], it is due for every event. *)
Theorem Client_bind_hears_the_suffix p cb st :
  In p Client_property_names →
  let st' := exec (Client_bind p cb) st in
  outcome (Client_bind p cb) st = Ok (next_guid st) ∧
  ∀ event,
    In ("*" +:+ p, next_guid st, cb) (matching (callbacks st') event) ↔
    p = "*" ∨ ∃ front, event = front +:+ p.
Proof.
  intros Hin st'. subst st'.
  assert (Hrun : Client_bind p cb st = Notify_bind ("*" +:+ p) cb st).
  { unfold Client_bind.
    replace (existsb (String.eqb p) Client_property_names) with true; [reflexivity|].
    symmetry. apply existsb_exists. exists p. split; [exact Hin | apply String.eqb_refl]. }
  unfold outcome, exec. rewrite Hrun. split; [by rewrite Notify_bind_run|].
  intros event. rewrite (bound_due ("*" +:+ p) cb st event), matches_true.
  replace (contains "*" ("*" +:+ p) || contains "?" ("*" +:+ p)) with true by reflexivity.
  unfold Client_property_names in Hin. cbn [In] in Hin.
  assert (Hp : p = "*" ∨ (glob_free p = true ∧ lower ("*" +:+ p) = "*" +:+ p)).
  { repeat (destruct Hin as [<-|Hin];
            [first [by left | right; split; vm_compute; reflexivity]|]).
    destruct Hin. }
  destruct Hp as [->|[Hg Hl]].
  - split; [by left|]. intros _. left. split; [reflexivity | apply fnmatch_two_stars].
  - rewrite (fnmatch_suffix p event Hg), Hl. split.
    + intros [[_ ?]|<-]; right; [done | by exists "*"].
    + intros [-> | ?]; [|by left].
      vm_compute in Hg. discriminate.
Qed.

(** X12.  [Mode.bind] accepts the five names of its tuple and rejects any
    other with [ValueError], nothing being registered; a callback bound
    to one property of a mode, pod and mode names being ASCII and
    holding no wildcard, is due for one event name only, the lower-cased
    pattern: the events of the same property under another mode do not
    call it. *)
Theorem Mode_bind_hears_its_mode_only mode p cb st :
  is_ascii (pod_name st +:+ "." +:+ mode) = true →
  contains "*" (pod_name st +:+ "." +:+ mode) = false →
  contains "?" (pod_name st +:+ "." +:+ mode) = false →
  let pattern := pod_name st +:+ "." +:+ mode +:+ "." +:+ p in
  let st' := exec (Mode_bind mode p cb) st in
  (In p ["swing"; "temp"; "fan_level"; "temp_unit"] →
   outcome (Mode_bind mode p cb) st = Ok (next_guid st) ∧
   ∀ event, In (pattern, next_guid st, cb) (matching (callbacks st') event)
            ↔ event = lower pattern) ∧
  (¬ In p ["swing"; "temp"; "fan_level"; "temp_unit"; "*"] →
   Mode_bind mode p cb st = (st, Raise ValueError)).
Proof.
  intros _ H1 H2 pattern st'. subst pattern st'. split.
  - intros Hin.
    assert (Hrun : Mode_bind mode p cb st
                   = Notify_bind (pod_name st +:+ "." +:+ mode +:+ "." +:+ p) cb st).
    { unfold Mode_bind.
      replace (existsb (String.eqb p) Mode_property_names) with true; [reflexivity|].
      symmetry. apply existsb_exists. exists p.
      split; [unfold Mode_property_names; cbn [In] in *; tauto | apply String.eqb_refl]. }
    unfold outcome, exec. rewrite Hrun. split; [by rewrite Notify_bind_run|].
    intros event. rewrite (bound_due _ cb st event), matches_true.
    assert (Hp : contains "*" ("." +:+ p) = false ∧ contains "?" ("." +:+ p) = false).
    { cbn [In] in Hin.
      repeat (destruct Hin as [<-|Hin]; [split; vm_compute; reflexivity|]).
      destruct Hin. }
    destruct Hp as [P1 P2].
    replace (pod_name st +:+ "." +:+ mode +:+ "." +:+ p)
      with ((pod_name st +:+ "." +:+ mode) +:+ "." +:+ p)
      by (by rewrite !append_assoc).
    rewrite (contains_pod_event _ _ _ H1 P1), (contains_pod_event _ _ _ H2 P2).
    split; [intros [[? _]|<-]; [discriminate | reflexivity] | intros -> ; by right].
  - intros Hn. unfold Mode_bind.
    replace (existsb (String.eqb p) Mode_property_names) with false; [reflexivity|].
    symmetry. apply not_true_is_false. intros E.
    apply existsb_exists in E as (x & Hx & Heq). apply String.eqb_eq in Heq as <-.
    by apply Hn.
Qed.
(** The calls a run made are the first of those it was given. *)
Lemma run_calls_invoked (calls : list (string * guid * callback W))
    event value obj st :
  ∃ pre post, calls = pre ++ post ∧
    invoked (fst (run_calls calls event value obj st))
    = invoked st ++ map call_key pre.
Proof.
  revert st. induction calls as [|[[e g] c] calls IH]; intros st.
  - exists [], []. split; [reflexivity|]. simpl. by rewrite app_nil_r.
  - simpl. unfold bind, call.
    destruct (c event value obj (world st)) as [w [x|]].
    + exists [(e, g, c)], calls. split; [reflexivity|]. by destruct st.
    + destruct (IH (with_invoked (invoked st ++ [(e, g)]) (with_world w st)))
        as (pre & post & -> & Hi).
      exists ((e, g, c) :: pre), post. split; [reflexivity|].
      rewrite Hi. destruct st; simpl. by rewrite <- app_assoc.
Qed.

Lemma matching_of_registered d event p cbs g cb :
  In (p, cbs) d → In (g, cb) cbs → matches p event = true →
  In (p, g, cb) (matching d event).
Proof.
  intros Hd Hc Hm. unfold matching. apply in_flat_map.
  exists (p, cbs). split; [exact Hd|]. rewrite Hm.
  apply in_map_iff. by exists (g, cb).
Qed.

(** X3.  The callbacks registered under an ASCII pattern without
    wildcard are called for one event only, the one whose name is the
    pattern's lower-cased text: they are due for that event and for no
    other, and [Notify] of any other event calls none of them, whatever
    the callbacks it does call do. *)
Theorem exact_pattern_is_called_on_its_lower_case_only
    st evt event value obj :
  is_ascii evt = true →
  contains "*" evt = false → contains "?" evt = false →
  (∀ g cb, In (evt, g, cb) (matching (callbacks st) event) ↔
           lower evt = event ∧
           ∃ cbs, In (evt, cbs) (callbacks st) ∧ In (g, cb) cbs) ∧
  (lower evt ≠ event →
   ∀ g, ¬ In (evt, g)
            (drop (length (invoked st))
               (invoked (exec (Notify event value obj) st)))).
Proof.
  intros _ H1 H2.
  assert (Hm : matches evt event = true ↔ lower evt = event).
  { rewrite (matches_exact evt event H1 H2). apply String.eqb_eq. }
  split.
  - intros g cb. split.
    + intros Hin. split.
      * apply Hm. by apply (matching_pattern evt g cb (callbacks st)).
      * by apply (matching_registered _ event).
    + intros [Hl (cbs & Hd & Hc)].
      apply (matching_of_registered _ _ _ cbs); [done | done | by apply Hm].
  - intros Hne g Hin. unfold exec in Hin. rewrite Notify_unfold in Hin.
    match type of Hin with context [run_calls ?c _ _ _ ?s] =>
      destruct (run_calls_invoked c event value obj s)
        as (pre & post & Hc & Hi) end.
    rewrite Hi in Hin.
    change (invoked (with_published
                       (published st ++
                        [{| ev_name := event; ev_value := value; ev_obj := obj |}])
                       st)) with (invoked st) in Hin.
    rewrite drop_app_length in Hin.
    apply in_map_iff in Hin as ([[p g'] cb] & Heq & Hpre).
    injection Heq as -> ->.
    apply Hne, Hm. apply (matching_pattern evt g cb (callbacks st)).
    rewrite Hc. apply in_or_app. by left.
Qed.
End Hearing.

(** ** The device-state diff, field by field *)

Section StateDiff.
Context {W : Type} {libm : Libm}.
Implicit Types (st : St W) (v o : pyval) (k : string).

Lemma passes_refl st : passes st st [].
Proof. unfold passes. by rewrite app_nil_r. Qed.

Lemma passes_trans st1 st2 st3 e1 e2 :
  passes st1 st2 e1 → passes st2 st3 e2 → passes st1 st3 (e1 ++ e2).
Proof.
  intros (P1 & C1 & N1 & M1) (P2 & C2 & N2 & M2).
  unfold passes. by rewrite P2, P1, C2, C1, N2, N1, M2, M1, app_assoc.
Qed.

Lemma cond_insert_ne (f : bool) k k' v (d : dict) :
  k ≠ k' → (if f then <[k := v]> d else d) !! k' = d !! k'.
Proof. intros Hne. destruct f; [by rewrite lookup_insert_ne | reflexivity]. Qed.

Lemma cond_insert_eq (f : bool) k v (d : dict) :
  (if f then <[k := v]> d else d) !! k = if f then Some v else d !! k.
Proof. destruct f; [by rewrite lookup_insert_eq | reflexivity]. Qed.

End StateDiff.

(** ** A pass that completed is not repeated *)

Section Rebaseline.
Context {W : Type} {libm : Libm}.
Implicit Types (st : St W) (v o : pyval) (k : string).

Lemma bind_inv_Ok {A B} (m : M (W := W) A) (h : A → M (W := W) B) st st' b :
  bind m h st = (st', Ok b) →
  ∃ st1 a, m st = (st1, Ok a) ∧ h a st1 = (st', Ok b).
Proof.
  unfold bind. destruct (m st) as [st1 [a|e]]; [|discriminate].
  intros H. by exists st1, a.
Qed.

Lemma preserves_ret {A B} (f : St W → B) (a : A) : preserves f (ret a).
Proof. by intros st. Qed.

Lemma preserves_raise {A B} (f : St W → B) e : preserves (A := A) f (raise e).
Proof. by intros st. Qed.

Lemma preserves_lift {A B} (f : St W → B) (r : result A) : preserves f (lift r).
Proof. by intros st. Qed.

Lemma preserves_gets {A B} (f : St W → B) (g : St W → A) : preserves f (gets g).
Proof. by intros st. Qed.

Lemma preserves_modify {B} (f : St W → B) (g : St W → St W) :
  (∀ st, f (g st) = f st) → preserves f (modify g).
Proof. intros H st. apply H. Qed.

Lemma preserves_bind {A B C} (f : St W → C) (m : M (W := W) A)
    (h : A → M (W := W) B) :
  preserves f m → (∀ a, preserves f (h a)) → preserves f (bind m h).
Proof.
  intros Hm Hh st. unfold bind. specialize (Hm st).
  destruct (m st) as [st' [a|e]]; simpl in Hm; [|exact Hm].
  by rewrite (Hh a st').
Qed.

Lemma preserves_when {C} (f : St W → C) b (m : M (W := W) unit) :
  preserves f m → preserves f (when b m).
Proof. intros Hm. destruct b; [exact Hm | apply preserves_ret]. Qed.

Lemma preserves_try_except {A C} (f : St W → C) (body : M (W := W) A)
    catches handler :
  preserves f body → preserves f handler →
  preserves f (try_except body catches handler).
Proof.
  intros Hb Hh st. unfold try_except. specialize (Hb st).
  destruct (body st) as [st' [a|e]]; simpl in Hb; [exact Hb|].
  destruct (catches e); [|exact Hb]. by rewrite (Hh st').
Qed.

Lemma preserves_state_changed {C} (f : St W → C) v k :
  preserves f (state_changed v k).
Proof. intros st. by rewrite state_changed_run. Qed.

Lemma preserves_measurement_changed {C} (f : St W → C) v k :
  preserves f (measurement_changed v k).
Proof. intros st. by rewrite measurement_changed_run. Qed.

Lemma old_state_Notify event value obj :
  preserves (W := W) old_state (Notify event value obj).
Proof.
  intros st. destruct (Notify_run event value obj st) as (w & i & r & -> & _).
  by destruct st.
Qed.

Lemma old_measurements_Notify event value obj :
  preserves (W := W) old_measurements (Notify event value obj).
Proof.
  intros st. destruct (Notify_run event value obj st) as (w & i & r & -> & _).
  by destruct st.
Qed.

Lemma old_state_http_get r : preserves (W := W) old_state (http_get r).
Proof. intros st. by destruct st. Qed.

Lemma old_measurements_http_get r :
  preserves (W := W) old_measurements (http_get r).
Proof. intros st. by destruct st. Qed.

Ltac preserves_step :=
  first
    [ apply old_state_Notify | apply old_measurements_Notify
    | apply old_state_http_get | apply old_measurements_http_get
    | apply preserves_state_changed | apply preserves_measurement_changed
    | apply preserves_ret | apply preserves_raise | apply preserves_lift
    | apply preserves_gets
    | apply preserves_modify; intros []; reflexivity
    | apply preserves_when | apply preserves_try_except
    | match goal with
      | |- preserves _ (if ?b then _ else _) => destruct b
      | |- preserves _ (match ?x with _ => _ end) => destruct x
      end
    | apply preserves_bind; [|intros ?] ].

Lemma old_state_hi_dp_event : preserves (W := W) old_state hi_dp_event.
Proof.
  unfold hi_dp_event, Pod_room_dew_point, Pod_room_heat_index, Pod_room_temp,
    Pod_room_humidity, Mode_temp_unit, Pod__measurements, Pod_state.
  repeat preserves_step.
Qed.

Lemma old_measurements_hi_dp_event :
  preserves (W := W) old_measurements hi_dp_event.
Proof.
  unfold hi_dp_event, Pod_room_dew_point, Pod_room_heat_index, Pod_room_temp,
    Pod_room_humidity, Mode_temp_unit, Pod__measurements, Pod_state.
  repeat preserves_step.
Qed.

Lemma old_measurements_diff_state state :
  preserves (W := W) old_measurements (diff_state state).
Proof.
  unfold diff_state, scoped_field, old_state_set, Mode_of.
  repeat preserves_step.
Qed.

Lemma old_state_diff_measurements measurements :
  preserves (W := W) old_state (diff_measurements measurements).
Proof.
  unfold diff_measurements, temp_event, rh_event, old_measurements_set.
  repeat first [apply old_state_hi_dp_event | preserves_step].
Qed.

Lemma keeps_run {A} k (m : M (W := W) A) st st' r :
  keeps k m → m st = (st', r) → old_state st' !! k = old_state st !! k.
Proof. intros Hk E. specialize (Hk st). by rewrite E in Hk. Qed.

Lemma preserves_run {A B} (f : St W → B) (m : M (W := W) A) st st' r :
  preserves f m → m st = (st', r) → f st' = f st.
Proof. intros Hk E. specialize (Hk st). by rewrite E in Hk. Qed.

Lemma py_ne_false v o : py_ne v o = false → py_eq v o = true.
Proof. unfold py_ne. by destruct (py_eq v o). Qed.

(** A guarded block that returned left the field settled, if its body
    stores the fetched value and nothing after the store touches it. *)
Lemma guarded_settles v k (body : M (W := W) unit) st st' :
  is_nan_value v = false →
  (∀ s s', body s = (s', Ok tt) → old_state s' !! k = Some v) →
  (c <- state_changed v k ;; when c body) st = (st', Ok tt) →
  settled (old_state st' !! k) v.
Proof.
  intros Hnan Hbody H. unfold bind in H. rewrite state_changed_run in H.
  destruct (is_None v) eqn:Hv.
  { left. by destruct v. }
  unfold subscript in H. destruct (old_state st !! k) as [o|] eqn:Ho; [|discriminate].
  simpl in H. destruct (py_ne v o) eqn:Hne; simpl in H.
  - right. exists v. split; [by apply (Hbody st st') | by apply py_eq_refl].
  - injection H as <-. right. exists o. split; [exact Ho | by apply py_ne_false].
Qed.

Lemma scoped_field_settles v k property st st' :
  is_nan_value v = false →
  scoped_field v k property st = (st', Ok tt) →
  settled (old_state st' !! k) v.
Proof.
  intros Hnan. unfold scoped_field. apply guarded_settles; [exact Hnan|].
  intros s s' E. rewrite (bind_Ok _ _ _ _ _ (old_state_set_run _ _ _)) in E.
  rewrite !bind_gets in E.
  rewrite (preserves_run old_state _ _ _ _ (old_state_Notify _ _ _) E).
  destruct s; simpl. by rewrite lookup_insert_eq.
Qed.

Lemma power_block_settles v st st' :
  is_nan_value v = false →
  (c <- state_changed v "on" ;;
   when c
     (old_state_set "on" v ;;
      name <- gets pod_name ;;
      Notify (name +:+ ".power") (PBool (py_bool v)) (PodObj name))) st
  = (st', Ok tt) →
  settled (old_state st' !! "on") v.
Proof.
  intros Hnan. apply guarded_settles; [exact Hnan|].
  intros s s' E. rewrite (bind_Ok _ _ _ _ _ (old_state_set_run _ _ _)) in E.
  rewrite !bind_gets in E.
  rewrite (preserves_run old_state _ _ _ _ (old_state_Notify _ _ _) E).
  destruct s; simpl. by rewrite lookup_insert_eq.
Qed.

Lemma mode_block_settles v st st' :
  is_nan_value v = false →
  (c <- state_changed v "mode" ;;
   when c
     (m <- Mode_of v ;;
      modify (with_mode m) ;;
      old_state_set "mode" v ;;
      name <- gets pod_name ;;
      mode_name <- gets _mode ;;
      Notify (name +:+ ".mode") (PStr mode_name) (PodObj name))) st
  = (st', Ok tt) →
  settled (old_state st' !! "mode") v.
Proof.
  intros Hnan. apply guarded_settles; [exact Hnan|].
  intros s s' E. apply bind_inv_Ok in E as (s1 & m & E1 & E).
  rewrite bind_modify in E.
  rewrite (bind_Ok _ _ _ _ _ (old_state_set_run _ _ _)) in E.
  rewrite !bind_gets in E.
  rewrite (preserves_run old_state _ _ _ _ (old_state_Notify _ _ _) E).
  destruct s1; simpl. by rewrite lookup_insert_eq.
Qed.

Lemma keeps_power_block k v :
  k ≠ "on" →
  keeps (W := W) k
    (c <- state_changed v "on" ;;
     when c
       (old_state_set "on" v ;;
        name <- gets pod_name ;;
        Notify (name +:+ ".power") (PBool (py_bool v)) (PodObj name))).
Proof.
  intros Hk. apply keeps_guarded. intros _.
  apply keeps_bind; [by apply keeps_old_state_set | intros _].
  apply keeps_bind; [apply keeps_gets | intros name].
  apply keeps_Notify.
Qed.

(** The six blocks of a device-state diff that returned. *)
Lemma diff_state_blocks state st st' :
  diff_state state st = (st', Ok tt) →
  ∃ st1 st2 st3 st4 st5,
    (c <- state_changed (get_or_None state "mode") "mode" ;;
     when c
       (m <- Mode_of (get_or_None state "mode") ;;
        modify (with_mode m) ;;
        old_state_set "mode" (get_or_None state "mode") ;;
        name <- gets pod_name ;;
        mode_name <- gets _mode ;;
        Notify (name +:+ ".mode") (PStr mode_name) (PodObj name))) st
    = (st1, Ok tt) ∧
    scoped_field (get_or_None state "swing") "swing" "swing" st1 = (st2, Ok tt) ∧
    scoped_field (get_or_None state "targetTemperature") "targetTemperature" "temp" st2
    = (st3, Ok tt) ∧
    scoped_field (get_or_None state "fanLevel") "fanLevel" "fan_level" st3
    = (st4, Ok tt) ∧
    (c <- state_changed (get_or_None state "on") "on" ;;
     when c
       (old_state_set "on" (get_or_None state "on") ;;
        name <- gets pod_name ;;
        Notify (name +:+ ".power") (PBool (py_bool (get_or_None state "on")))
               (PodObj name))) st4
    = (st5, Ok tt) ∧
    scoped_field (get_or_None state "temperatureUnit") "temperatureUnit" "temp_unit" st5
    = (st', Ok tt).
Proof.
  unfold diff_state. intros H.
  rewrite <- bind_assoc in H. apply bind_inv_Ok in H as (st1 & [] & E1 & H).
  apply bind_inv_Ok in H as (st2 & [] & E2 & H).
  apply bind_inv_Ok in H as (st3 & [] & E3 & H).
  apply bind_inv_Ok in H as (st4 & [] & E4 & H).
  rewrite <- bind_assoc in H. apply bind_inv_Ok in H as (st5 & [] & E5 & H).
  by exists st1, st2, st3, st4, st5.
Qed.

Lemma diff_state_settles state st st' :
  (∀ k, In k ["mode"; "swing"; "targetTemperature"; "fanLevel"; "on";
              "temperatureUnit"] →
        is_nan_value (get_or_None state k) = false) →
  diff_state state st = (st', Ok tt) →
  ∀ k, In k ["mode"; "swing"; "targetTemperature"; "fanLevel"; "on";
             "temperatureUnit"] →
       settled (old_state st' !! k) (get_or_None state k).
Proof.
  intros Hnan H.
  apply diff_state_blocks in H as (st1 & st2 & st3 & st4 & st5 & E1 & E2 & E3 & E4 & E5 & E6).
  assert (K : ∀ k v key p (s s' : St W),
               scoped_field v key p s = (s', Ok tt) → key ≠ k →
               old_state s' !! k = old_state s !! k).
  { intros k v key p s s' E Hne.
    apply (keeps_run k (scoped_field v key p) s s' (Ok tt)); [|exact E].
    apply keeps_scoped_field. by intros _. }
  intros k Hk. cbn [In] in Hk.
  destruct Hk as [<-|[<-|[<-|[<-|[<-|[<-|[]]]]]]].
  - rewrite (K "mode" _ _ _ _ _ E6 ltac:(done)).
    rewrite (keeps_run "mode" _ _ _ _ (keeps_power_block "mode" _ ltac:(done)) E5).
    rewrite (K "mode" _ _ _ _ _ E4 ltac:(done)), (K "mode" _ _ _ _ _ E3 ltac:(done)),
      (K "mode" _ _ _ _ _ E2 ltac:(done)).
    eapply mode_block_settles; [apply Hnan; simpl; tauto | exact E1].
  - rewrite (K "swing" _ _ _ _ _ E6 ltac:(done)).
    rewrite (keeps_run "swing" _ _ _ _ (keeps_power_block "swing" _ ltac:(done)) E5).
    rewrite (K "swing" _ _ _ _ _ E4 ltac:(done)), (K "swing" _ _ _ _ _ E3 ltac:(done)).
    eapply scoped_field_settles; [apply Hnan; simpl; tauto | exact E2].
  - rewrite (K "targetTemperature" _ _ _ _ _ E6 ltac:(done)).
    rewrite (keeps_run "targetTemperature" _ _ _ _
               (keeps_power_block "targetTemperature" _ ltac:(done)) E5).
    rewrite (K "targetTemperature" _ _ _ _ _ E4 ltac:(done)).
    eapply scoped_field_settles; [apply Hnan; simpl; tauto | exact E3].
  - rewrite (K "fanLevel" _ _ _ _ _ E6 ltac:(done)).
    rewrite (keeps_run "fanLevel" _ _ _ _ (keeps_power_block "fanLevel" _ ltac:(done)) E5).
    eapply scoped_field_settles; [apply Hnan; simpl; tauto | exact E4].
  - rewrite (K "on" _ _ _ _ _ E6 ltac:(done)).
    eapply power_block_settles; [apply Hnan; simpl; tauto | exact E5].
  - eapply scoped_field_settles; [apply Hnan; simpl; tauto | exact E6].
Qed.

(** A device-state diff over settled fields does nothing. *)
Lemma state_changed_settled v k st :
  settled (old_state st !! k) v → state_changed v k st = (st, Ok false).
Proof.
  intros [->|(o & Ho & Heq)]; rewrite state_changed_run; [reflexivity|].
  destruct (is_None v); [reflexivity|].
  unfold subscript. rewrite Ho. simpl. unfold py_ne. by rewrite Heq.
Qed.

Lemma scoped_field_settled v k property st :
  settled (old_state st !! k) v → scoped_field v k property st = (st, Ok tt).
Proof.
  intros H. unfold scoped_field.
  by rewrite (bind_Ok _ _ _ _ _ (state_changed_settled _ _ _ H)).
Qed.

Lemma diff_state_settled state st :
  (∀ k, In k ["mode"; "swing"; "targetTemperature"; "fanLevel"; "on";
              "temperatureUnit"] →
        settled (old_state st !! k) (get_or_None state k)) →
  diff_state state st = (st, Ok tt).
Proof.
  intros H. unfold diff_state.
  rewrite (bind_Ok _ _ _ _ _ (state_changed_settled _ "mode" st ltac:(apply H; simpl; tauto))).
  simpl when.
  rewrite (bind_Ok _ _ st st tt) by reflexivity.
  rewrite (bind_Ok _ _ _ _ _ (scoped_field_settled _ "swing" "swing" st ltac:(apply H; simpl; tauto))).
  rewrite (bind_Ok _ _ _ _ _ (scoped_field_settled _ "targetTemperature" "temp" st ltac:(apply H; simpl; tauto))).
  rewrite (bind_Ok _ _ _ _ _ (scoped_field_settled _ "fanLevel" "fan_level" st ltac:(apply H; simpl; tauto))).
  rewrite (bind_Ok _ _ _ _ _ (state_changed_settled _ "on" st ltac:(apply H; simpl; tauto))).
  simpl when.
  rewrite (bind_Ok _ _ st st tt) by reflexivity.
  apply scoped_field_settled. apply H; simpl; tauto.
Qed.

Lemma old_measurements_events temperature humidity :
  preserves (W := W) old_measurements
    (temp_event temperature ;; rh_event humidity ;; hi_dp_event).
Proof.
  apply preserves_bind; [|intros _; apply preserves_bind; [|intros _]].
  - unfold temp_event. apply preserves_bind; [apply preserves_gets | intros ?].
    apply old_measurements_Notify.
  - unfold rh_event. apply preserves_bind; [apply preserves_gets | intros ?].
    apply old_measurements_Notify.
  - apply old_measurements_hi_dp_event.
Qed.

Lemma old_measurements_temp_events temperature :
  preserves (W := W) old_measurements (temp_event temperature ;; hi_dp_event).
Proof.
  apply preserves_bind; [|intros _; apply old_measurements_hi_dp_event].
  unfold temp_event. apply preserves_bind; [apply preserves_gets | intros ?].
  apply old_measurements_Notify.
Qed.

Lemma old_measurements_rh_events humidity :
  preserves (W := W) old_measurements (rh_event humidity ;; hi_dp_event).
Proof.
  apply preserves_bind; [|intros _; apply old_measurements_hi_dp_event].
  unfold rh_event. apply preserves_bind; [apply preserves_gets | intros ?].
  apply old_measurements_Notify.
Qed.

Lemma measurement_changed_inv v k st st' c :
  measurement_changed v k st = (st', Ok c) →
  ∃ o, old_measurements st !! k = Some o ∧ st' = st ∧ c = py_ne v o.
Proof.
  rewrite measurement_changed_run. unfold subscript.
  destruct (old_measurements st !! k) as [o|]; [|discriminate].
  simpl. intros H. injection H as <- <-. by exists o.
Qed.

(** The measurement baseline after a measurement diff that returned. *)
Lemma diff_measurements_rebaselines measurements st st' :
  diff_measurements measurements st = (st', Ok tt) →
  ∃ t0 h0 b0,
    old_measurements st !! "temperature" = Some t0 ∧
    old_measurements st !! "humidity" = Some h0 ∧
    old_measurements st !! "batteryVoltage" = Some b0 ∧
    old_measurements st'
    = (if py_ne (get_or_None measurements "batteryVoltage") b0
       then <["batteryVoltage" := get_or_None measurements "batteryVoltage"]>
       else id)
      ((if py_ne (get_or_None measurements "humidity") h0
        then <["humidity" := get_or_None measurements "humidity"]> else id)
       ((if py_ne (get_or_None measurements "temperature") t0
         then <["temperature" := get_or_None measurements "temperature"]> else id)
        (old_measurements st))).
Proof.
  unfold diff_measurements.
  set (t := get_or_None measurements "temperature").
  set (h := get_or_None measurements "humidity").
  set (b := get_or_None measurements "batteryVoltage").
  intros H.
  apply bind_inv_Ok in H as (s1 & ch & Eh & H).
  apply measurement_changed_inv in Eh as (h0 & Hh0 & -> & ->).
  apply bind_inv_Ok in H as (s2 & both & Eb & H).
  apply bind_inv_Ok in H as (s3 & [] & Ebr & H).
  assert (Hbr : ∃ t0, old_measurements st !! "temperature" = Some t0 ∧
            old_measurements s3
            = (if py_ne h h0 then <["humidity" := h]> else id)
                ((if py_ne t t0 then <["temperature" := t]> else id)
                   (old_measurements st))).
  { destruct (py_ne h h0) eqn:Nh.
    - apply measurement_changed_inv in Eb as (t0 & Ht0 & -> & ->).
      exists t0. split; [exact Ht0|].
      destruct (py_ne t t0) eqn:Nt.
      + rewrite (bind_Ok _ _ _ _ _ (old_measurements_set_run _ _ _)) in Ebr.
        rewrite (bind_Ok _ _ _ _ _ (old_measurements_set_run _ _ _)) in Ebr.
        rewrite (preserves_run old_measurements _ _ _ _
                   (old_measurements_events t h) Ebr).
        by destruct st.
      + rewrite (bind_Ok _ _ _ _ _ (measurement_changed_at t _ t0 st Ht0)) in Ebr.
        rewrite Nt in Ebr.
        rewrite (bind_Ok _ _ _ _ _ (measurement_changed_at h _ h0 st Hh0)) in Ebr.
        rewrite Nh in Ebr. simpl when in Ebr.
        rewrite (bind_Ok _ _ _ _ _ (old_measurements_set_run _ _ _)) in Ebr.
        rewrite (preserves_run old_measurements _ _ _ _
                   (old_measurements_rh_events h) Ebr).
        by destruct st.
    - injection Eb as <- <-.
      apply bind_inv_Ok in Ebr as (s4 & ct & Et & Ebr).
      apply measurement_changed_inv in Et as (t0 & Ht0 & -> & ->).
      exists t0. split; [exact Ht0|].
      destruct (py_ne t t0) eqn:Nt.
      + rewrite (bind_Ok _ _ _ _ _ (old_measurements_set_run _ _ _)) in Ebr.
        rewrite (preserves_run old_measurements _ _ _ _
                   (old_measurements_temp_events t) Ebr).
        by destruct st.
      + rewrite (bind_Ok _ _ _ _ _ (measurement_changed_at h _ h0 st Hh0)) in Ebr.
        rewrite Nh in Ebr. simpl when in Ebr. by injection Ebr as <-. }
  destruct Hbr as (t0 & Ht0 & Hs3).
  apply bind_inv_Ok in H as (s5 & cb & Ecb & H).
  apply measurement_changed_inv in Ecb as (b0 & Hb0 & -> & ->).
  assert (Hb : old_measurements st !! "batteryVoltage" = Some b0).
  { rewrite Hs3 in Hb0.
    destruct (py_ne h h0), (py_ne t t0); simpl in Hb0;
      rewrite ?lookup_insert_ne in Hb0 by done; exact Hb0. }
  exists t0, h0, b0. repeat split; try assumption.
  destruct (py_ne b b0); simpl when in H.
  - rewrite (bind_Ok _ _ _ _ _ (old_measurements_set_run _ _ _)) in H.
    rewrite bind_gets in H.
    rewrite (preserves_run old_measurements _ _ _ _
               (old_measurements_Notify _ _ _) H).
    rewrite <- Hs3. by destruct s3.
  - injection H as <-. by rewrite Hs3.
Qed.

Lemma diff_measurements_settles measurements st st' :
  (∀ k, In k ["temperature"; "humidity"; "batteryVoltage"] →
        is_nan_value (get_or_None measurements k) = false) →
  diff_measurements measurements st = (st', Ok tt) →
  ∀ k, In k ["temperature"; "humidity"; "batteryVoltage"] →
       unchanged (old_measurements st') measurements k.
Proof.
  intros Hnan H.
  apply diff_measurements_rebaselines in H as (t0 & h0 & b0 & Ht & Hh & Hb & ->).
  intros k Hk. cbn [In] in Hk. unfold unchanged.
  destruct Hk as [<-|[<-|[<-|[]]]].
  - destruct (py_ne _ b0), (py_ne _ h0); simpl;
      rewrite ?lookup_insert_ne by done;
      (destruct (py_ne _ t0) eqn:N; simpl;
       [rewrite lookup_insert_eq; eexists; split;
          [reflexivity | apply py_eq_refl, Hnan; simpl; tauto]
       |exists t0; split; [exact Ht | by apply py_ne_false]]).
  - destruct (py_ne _ b0), (py_ne _ t0); simpl;
      rewrite ?lookup_insert_ne by done;
      (destruct (py_ne _ h0) eqn:N; simpl;
       [rewrite lookup_insert_eq; eexists; split;
          [reflexivity | apply py_eq_refl, Hnan; simpl; tauto]
       |rewrite ?lookup_insert_ne by done;
        exists h0; split; [exact Hh | by apply py_ne_false]]).
  - destruct (py_ne _ b0) eqn:N; simpl.
    + rewrite lookup_insert_eq. eexists.
      split; [reflexivity | apply py_eq_refl, Hnan; simpl; tauto].
    + exists b0. split; [|by apply py_ne_false].
      destruct (py_ne _ h0), (py_ne _ t0); simpl;
        rewrite ?lookup_insert_ne by done; exact Hb.
Qed.

(** X14.  A diff pass that returned has settled the baselines: run
    again on the same fetched dictionaries (no NaN among their values) it
    publishes nothing, calls nothing and changes nothing, whatever the
    callbacks did in the first pass. *)
Theorem completed_pass_is_not_repeated st state measurements :
  (∀ k, In k ["mode"; "swing"; "targetTemperature"; "fanLevel"; "on";
              "temperatureUnit"] →
        is_nan_value (get_or_None state k) = false) →
  (∀ k, In k ["temperature"; "humidity"; "batteryVoltage"] →
        is_nan_value (get_or_None measurements k) = false) →
  outcome (diff state measurements) st = Ok tt →
  let st' := exec (diff state measurements) st in
  diff state measurements st' = (st', Ok tt).
Proof.
  intros Hs Hm Hok st'. subst st'. unfold outcome, exec in *.
  destruct (diff state measurements st) as [st' r] eqn:E. simpl in Hok. subst r.
  cbn [fst]. unfold diff in E.
  apply bind_inv_Ok in E as (st1 & [] & E1 & E2).
  assert (S1 := diff_state_settles state st st1 Hs E1).
  assert (S2 := diff_measurements_settles measurements st1 st' Hm E2).
  assert (O : old_state st' = old_state st1)
    by exact (preserves_run old_state _ _ _ _
                (old_state_diff_measurements measurements) E2).
  unfold diff.
  rewrite (bind_Ok _ _ st' st' tt).
  - by apply diff_measurements_unchanged.
  - apply diff_state_settled. intros k Hk. rewrite O. by apply S1.
Qed.
End Rebaseline.

(** ** The events of a device-state diff that returns *)

Section StateEvents.
Context {W : Type} {libm : Libm}.
Implicit Types (st : St W) (v o : pyval) (k : string).

(** Whatever its callbacks do, a dispatch publishes its event and leaves
    the pod as it found it. *)
Lemma Notify_passes_any event value obj st st' r :
  Notify event value obj st = (st', r) →
  passes st st' [{| ev_name := event; ev_value := value; ev_obj := obj |}] ∧
  old_state st' = old_state st ∧ _mode st' = _mode st.
Proof.
  destruct (Notify_run event value obj st) as (w & i & r' & -> & _).
  intros [= <- <-]. unfold passes. by destruct st.
Qed.

(** A guarded block that returned: its body ran and returned if the
    fetched value is known and differs from the baseline, and nothing
    happened otherwise. *)
Lemma guarded_returned v k (body : M (W := W) unit) st st' :
  (c <- state_changed v k ;; when c body) st = (st', Ok tt) →
  if negb (is_None v) && py_ne v (get_or_None (old_state st) k)
  then body st = (st', Ok tt) else st' = st.
Proof.
  intros H. unfold bind in H. rewrite state_changed_run in H.
  destruct (is_None v); simpl in *.
  - by injection H as <-.
  - unfold subscript, get_or_None in *.
    destruct (old_state st !! k) as [o|]; [|discriminate].
    simpl in H. destruct (py_ne v o); simpl in H; [exact H | by injection H as <-].
Qed.

Lemma scoped_field_returned v k property st st' :
  scoped_field v k property st = (st', Ok tt) →
  let f := negb (is_None v) && py_ne v (get_or_None (old_state st) k) in
  passes st st'
    (if f then [mode_event (pod_name st) (_mode st) property v] else []) ∧
  old_state st' = (if f then <[k := v]> (old_state st) else old_state st) ∧
  _mode st' = _mode st.
Proof.
  intros H f. apply guarded_returned in H. fold f in H. destruct f.
  - rewrite (bind_Ok _ _ _ _ _ (old_state_set_run _ _ _)) in H.
    rewrite !bind_gets in H.
    apply Notify_passes_any in H as (P & O & Mo).
    split; [|split].
    + destruct P as (P1 & P2 & P3 & P4). unfold passes, mode_event.
      rewrite P1, P2, P3, P4. by destruct st.
    + rewrite O. by destruct st.
    + rewrite Mo. by destruct st.
  - subst st'. split; [apply passes_refl | done].
Qed.

Lemma power_block_returned v st st' :
  (c <- state_changed v "on" ;;
   when c
     (old_state_set "on" v ;;
      name <- gets pod_name ;;
      Notify (name +:+ ".power") (PBool (py_bool v)) (PodObj name))) st
  = (st', Ok tt) →
  let f := negb (is_None v) && py_ne v (get_or_None (old_state st) "on") in
  passes st st'
    (if f then [pod_event (pod_name st) "power" (PBool (py_bool v))] else []) ∧
  old_state st' = (if f then <["on" := v]> (old_state st) else old_state st) ∧
  _mode st' = _mode st.
Proof.
  intros H f. apply guarded_returned in H. fold f in H. destruct f.
  - rewrite (bind_Ok _ _ _ _ _ (old_state_set_run _ _ _)) in H.
    rewrite !bind_gets in H.
    apply Notify_passes_any in H as (P & O & Mo).
    split; [|split].
    + destruct P as (P1 & P2 & P3 & P4). unfold passes, pod_event.
      rewrite P1, P2, P3, P4. by destruct st.
    + rewrite O. by destruct st.
    + rewrite Mo. by destruct st.
  - subst st'. split; [apply passes_refl | done].
Qed.

(** The mode block returns only for a mode of the device. *)
Lemma mode_block_returned v st st' :
  (c <- state_changed v "mode" ;;
   when c
     (m <- Mode_of v ;;
      modify (with_mode m) ;;
      old_state_set "mode" v ;;
      name <- gets pod_name ;;
      mode_name <- gets _mode ;;
      Notify (name +:+ ".mode") (PStr mode_name) (PodObj name))) st
  = (st', Ok tt) →
  let f := negb (is_None v) && py_ne v (get_or_None (old_state st) "mode") in
  let mode := if f then match v with PStr B => B | _ => _mode st end
              else _mode st in
  passes st st' (if f then [pod_event (pod_name st) "mode" (PStr mode)] else []) ∧
  old_state st' = (if f then <["mode" := v]> (old_state st) else old_state st) ∧
  _mode st' = mode ∧
  (f = true → ∃ B, v = PStr B ∧ B ∈ capabilities_modes st).
Proof.
  intros H f mode. subst mode. apply guarded_returned in H. fold f in H.
  destruct f.
  - apply bind_inv_Ok in H as (s1 & B & EM & H).
    assert (HM : s1 = st ∧ v = PStr B ∧ B ∈ capabilities_modes st).
    { unfold Mode_of in EM. rewrite bind_gets in EM.
      destruct v as [| | | |x]; try discriminate.
      destruct (bool_decide (x ∈ capabilities_modes st)) eqn:Hx; [|discriminate].
      injection EM as <- <-. apply bool_decide_eq_true_1 in Hx. done. }
    destruct HM as (-> & -> & HB).
    rewrite bind_modify in H.
    rewrite (bind_Ok _ _ _ _ _ (old_state_set_run _ _ _)) in H.
    rewrite !bind_gets in H.
    apply Notify_passes_any in H as (P & O & Mo).
    split; [|split; [|split]].
    + destruct P as (P1 & P2 & P3 & P4). unfold passes, pod_event.
      rewrite P1, P2, P3, P4. by destruct st.
    + rewrite O. by destruct st.
    + rewrite Mo. by destruct st.
    + intros _. by exists B.
  - subst st'. split; [apply passes_refl | done].
Qed.

Lemma get_cond_insert_ne (f : bool) k k' v (d : dict) :
  k ≠ k' → get_or_None (if f then <[k := v]> d else d) k' = get_or_None d k'.
Proof. intros Hne. unfold get_or_None. by rewrite cond_insert_ne. Qed.

(** X13.  A device-state diff that returns has published, in this order,
    [mode], [swing], [temp], [fan_level], [power] and [temp_unit], each
    exactly when its fetched value is known and differs from the
    baseline, and nothing else; the mode-scoped events are named after
    the mode the pass leaves current, the new one when the mode changed,
    and the baseline of each field that fired holds the fetched value
    afterwards.  (It returns unless the baseline misses a field, the new
    mode is none of the device's, or a dispatch ends with an
    exception.) *)
Theorem state_events_in_order st state :
  outcome (diff_state state) st = Ok tt →
  let st' := exec (diff_state state) st in
  published st'
  = published st ++ state_events (pod_name st) (old_state st) state (_mode st) ∧
  _mode st' = mode_after (old_state st) state (_mode st) ∧
  ∀ k, In k ["mode"; "swing"; "targetTemperature"; "fanLevel"; "on";
             "temperatureUnit"] →
       old_state st' !! k = rebased (old_state st) state k.
Proof.
  intros Hok st'. subst st'. unfold outcome, exec in *.
  destruct (diff_state state st) as [st' r] eqn:E. cbn [fst snd] in *. subst r.
  apply diff_state_blocks in E
    as (st1 & st2 & st3 & st4 & st5 & E1 & E2 & E3 & E4 & E5 & E6).
  apply mode_block_returned in E1 as (P1 & O1 & M1 & _).
  apply scoped_field_returned in E2 as (P2 & O2 & M2).
  apply scoped_field_returned in E3 as (P3 & O3 & M3).
  apply scoped_field_returned in E4 as (P4 & O4 & M4).
  apply power_block_returned in E5 as (P5 & O5 & M5).
  apply scoped_field_returned in E6 as (P6 & O6 & M6).
  assert (G2 : get_or_None (old_state st1) "swing"
               = get_or_None (old_state st) "swing")
    by (rewrite O1; by apply get_cond_insert_ne).
  rewrite G2 in P2, O2.
  assert (G3 : get_or_None (old_state st2) "targetTemperature"
               = get_or_None (old_state st) "targetTemperature")
    by (rewrite O2, get_cond_insert_ne, O1, get_cond_insert_ne; done).
  rewrite G3 in P3, O3.
  assert (G4 : get_or_None (old_state st3) "fanLevel"
               = get_or_None (old_state st) "fanLevel")
    by (rewrite O3, get_cond_insert_ne, O2, get_cond_insert_ne, O1,
          get_cond_insert_ne; done).
  rewrite G4 in P4, O4.
  assert (G5 : get_or_None (old_state st4) "on"
               = get_or_None (old_state st) "on")
    by (rewrite O4, get_cond_insert_ne, O3, get_cond_insert_ne, O2,
          get_cond_insert_ne, O1, get_cond_insert_ne; done).
  rewrite G5 in P5, O5.
  assert (G6 : get_or_None (old_state st5) "temperatureUnit"
               = get_or_None (old_state st) "temperatureUnit")
    by (rewrite O5, get_cond_insert_ne, O4, get_cond_insert_ne, O3,
          get_cond_insert_ne, O2, get_cond_insert_ne, O1, get_cond_insert_ne;
        done).
  rewrite G6 in P6, O6.
  assert (P12 := passes_trans _ _ _ _ _ P1 P2).
  assert (P13 := passes_trans _ _ _ _ _ P12 P3).
  assert (P14 := passes_trans _ _ _ _ _ P13 P4).
  assert (P15 := passes_trans _ _ _ _ _ P14 P5).
  assert (P16 := passes_trans _ _ _ _ _ P15 P6).
  assert (Hm : _mode st1 = mode_after (old_state st) state (_mode st))
    by (rewrite M1; reflexivity).
  split; [|split].
  - destruct P16 as (-> & _). f_equal. unfold state_events, fires.
    destruct P1 as (_ & _ & N1 & _), P12 as (_ & _ & N2 & _),
      P13 as (_ & _ & N3 & _), P14 as (_ & _ & N4 & _), P15 as (_ & _ & N5 & _).
    rewrite N1, N2, N3, N4, N5, M5, M4, M3, M2, <- Hm, M1.
    rewrite <- !app_assoc. reflexivity.
  - by rewrite M6, M5, M4, M3, M2.
  - intros k Hk. unfold rebased, fires. cbn [In] in Hk.
    rewrite O6, O5, O4, O3, O2, O1.
    destruct Hk as [<-|[<-|[<-|[<-|[<-|[<-|[]]]]]]].
    + rewrite !cond_insert_ne by done. by rewrite cond_insert_eq.
    + rewrite !cond_insert_ne by done. by rewrite cond_insert_eq, cond_insert_ne by done.
    + rewrite !cond_insert_ne by done. by rewrite cond_insert_eq, !cond_insert_ne by done.
    + rewrite !cond_insert_ne by done. by rewrite cond_insert_eq, !cond_insert_ne by done.
    + rewrite cond_insert_ne by done. by rewrite cond_insert_eq, !cond_insert_ne by done.
    + by rewrite cond_insert_eq, !cond_insert_ne by done.
Qed.
End StateEvents.


(** ** The poll loop and the server *)

Section SteadyPolls.
Context {W : Type} {libm : Libm}.
Implicit Types (st : St W) (v o : pyval) (k : string).

Lemma steady_requests st m s n :
  steady st m s → requests st ≤ n → steady (with_requests n st) m s.
Proof.
  intros Hs Hn. eapply steady_refetched; [|exact Hs]. by apply refetched_requests.
Qed.

Lemma with_requests_twice st a b :
  with_requests b (with_requests a st) = with_requests b st.
Proof. by destruct st. Qed.

Lemma poll_baseline_steady st m s :
  steady st m s →
  poll_baseline st
  = (with_old_measurements
       (<["batteryVoltage" := get_or_None m "batteryVoltage"]>
        (<["humidity" := get_or_None m "humidity"]>
         (<["temperature" := get_or_None m "temperature"]> ∅)))
       (with_old_state (s ∪ blank_state)
          (with_requests (S (S (requests st))) st)), Ok tt).
Proof.
  intros Hs. unfold poll_baseline.
  rewrite (bind_Ok _ _ _ _ _ (Pod_state_steady st m s Hs)). rewrite bind_modify.
  set (st1 := with_old_state _ _).
  assert (Hs1 : steady st1 m s).
  { intros n Hn. subst st1. destruct st; simpl in *. apply Hs. simpl. lia. }
  rewrite (bind_Ok _ _ _ _ _ (Pod__measurements_steady st1 m s Hs1)).
  unfold modify. subst st1. by destruct st.
Qed.

Lemma baseline_state_unchanged (s : dict) k :
  In k ["mode"; "swing"; "targetTemperature"; "fanLevel"; "on";
        "temperatureUnit"] →
  is_nan_value (get_or_None s k) = false →
  unchanged (s ∪ blank_state) s k.
Proof.
  intros Hk Hnan. unfold unchanged, get_or_None in *.
  rewrite lookup_union. destruct (s !! k) as [v|] eqn:E.
  - exists v. split; [by destruct (blank_state !! k) | by apply py_eq_refl].
  - exists PNone. split; [|reflexivity].
    cbn [In] in Hk. destruct Hk as [<-|[<-|[<-|[<-|[<-|[<-|[]]]]]]]; reflexivity.
Qed.

Lemma baseline_measurements_unchanged (m : dict) k :
  In k ["temperature"; "humidity"; "batteryVoltage"] →
  is_nan_value (get_or_None m k) = false →
  unchanged
    (<["batteryVoltage" := get_or_None m "batteryVoltage"]>
     (<["humidity" := get_or_None m "humidity"]>
      (<["temperature" := get_or_None m "temperature"]> ∅))) m k.
Proof.
  intros Hk Hnan. exists (get_or_None m k). split; [|by apply py_eq_refl].
  cbn [In] in Hk. destruct Hk as [<-|[<-|[<-|[]]]].
  - rewrite !lookup_insert_ne by done. by rewrite lookup_insert_eq.
  - rewrite lookup_insert_ne by done. by rewrite lookup_insert_eq.
  - by rewrite lookup_insert_eq.
Qed.

Lemma poll_iteration_steady st m s :
  steady st m s →
  (∀ k, In k ["mode"; "swing"; "targetTemperature"; "fanLevel"; "on";
              "temperatureUnit"] → unchanged (old_state st) s k) →
  (∀ k, In k ["temperature"; "humidity"; "batteryVoltage"] →
        unchanged (old_measurements st) m k) →
  poll_iteration st = (with_requests (S (S (requests st))) st, Ok tt).
Proof.
  intros Hs Us Um. unfold poll_iteration.
  rewrite (bind_Ok _ _ _ _ _ (Pod_state_steady st m s Hs)).
  set (st1 := with_requests _ st).
  assert (Hs1 : steady st1 m s) by (apply steady_requests; [exact Hs | lia]).
  rewrite (bind_Ok _ _ _ _ _ (Pod__measurements_steady st1 m s Hs1)).
  set (st2 := with_requests _ st1).
  unfold diff. rewrite (bind_Ok _ _ st2 st2 tt).
  - rewrite diff_measurements_unchanged; [by destruct st|].
    intros k Hk. subst st2 st1. destruct st; simpl. by apply Um.
  - apply diff_state_unchanged.
    intros k Hk. subst st2 st1. destruct st; simpl. by apply Us.
Qed.

Lemma poll_loop_steady n st m s :
  steady st m s →
  (∀ k, In k ["mode"; "swing"; "targetTemperature"; "fanLevel"; "on";
              "temperatureUnit"] → unchanged (old_state st) s k) →
  (∀ k, In k ["temperature"; "humidity"; "batteryVoltage"] →
        unchanged (old_measurements st) m k) →
  poll_loop n st = (with_requests (requests st + 2 * n) st, Ok tt).
Proof.
  revert st. induction n as [|n IH]; intros st Hs Us Um.
  - cbn [poll_loop]. rewrite Nat.mul_0_r, Nat.add_0_r. by destruct st.
  - cbn [poll_loop].
    rewrite (bind_Ok _ _ _ _ _ (poll_iteration_steady st m s Hs Us Um)).
    rewrite IH.
    + rewrite with_requests_twice.
      replace (requests (with_requests (S (S (requests st))) st))
        with (S (S (requests st))) by (by destruct st).
      do 2 f_equal. lia.
    + apply steady_requests; [exact Hs | lia].
    + intros k Hk. destruct st; simpl. by apply Us.
    + intros k Hk. destruct st; simpl. by apply Um.
Qed.

(** X15.  On a server that keeps answering with the same state and the
    same measurements (no NaN among them), [_poll] takes its baselines
    and then runs any number of iterations without publishing an event
    or calling a callback; it sends two requests for the baselines and
    two per iteration. *)
Theorem steady_server_polls_in_silence st m s n :
  steady st m s →
  (∀ k, In k ["mode"; "swing"; "targetTemperature"; "fanLevel"; "on";
              "temperatureUnit"] →
        is_nan_value (get_or_None s k) = false) →
  (∀ k, In k ["temperature"; "humidity"; "batteryVoltage"] →
        is_nan_value (get_or_None m k) = false) →
  let st' := exec (Pod__poll n) st in
  outcome (Pod__poll n) st = Ok tt ∧
  published st' = published st ∧
  invoked st' = invoked st ∧
  world st' = world st ∧
  requests st' = requests st + 2 + 2 * n.
Proof.
  intros Hs Ns Nm st'. subst st'. unfold outcome, exec, Pod__poll.
  rewrite (bind_Ok _ _ _ _ _ (poll_baseline_steady st m s Hs)).
  rewrite (poll_loop_steady n _ m s).
  - destruct st; simpl. repeat split; lia.
  - intros k Hk. destruct st; simpl in *. apply Hs. simpl. lia.
  - intros k Hk. destruct st; simpl. apply baseline_state_unchanged; auto.
  - intros k Hk. destruct st; simpl. apply baseline_measurements_unchanged; auto.
Qed.

(** X16.  When the fetched mode is known, differs from the baseline and
    is not one of the modes of the device's capabilities, the diff pass
    ends with [KeyError] before anything is published: no event, no
    baseline touched, the current mode kept. *)
Theorem unknown_mode_ends_the_pass st state measurements o :
  get_or_None state "mode" ≠ PNone →
  changed_from (old_state st) state "mode" o →
  (∀ B, get_or_None state "mode" = PStr B → B ∉ capabilities_modes st) →
  diff state measurements st = (st, Raise KeyError).
Proof.
  intros Hk Hc Hun. unfold diff, diff_state.
  rewrite !bind_assoc.
  rewrite (bind_Ok _ _ _ _ _ (state_changed_changed state "mode" o st Hk Hc)).
  simpl when. rewrite !bind_assoc.
  assert (HM : Mode_of (get_or_None state "mode") st = (st, Raise KeyError)).
  { unfold Mode_of. rewrite bind_gets.
    destruct (get_or_None state "mode") as [| | | |B] eqn:E; try reflexivity.
    rewrite bool_decide_eq_false_2; [reflexivity | by apply Hun]. }
  by rewrite (bind_Raise _ _ _ _ _ HM).
Qed.

(** X17.  On a device whose server refuses the measurement request that
    names the battery voltage, [battery_voltage] reads the reply to the
    request without it: the value if that reply has one, and otherwise
    the unavailable-value condition, not the [KeyError] or the HTTP
    error. *)
Theorem battery_voltage_of_the_fallback_reply st (m : dict) :
  cloud st (requests st) (ReqMeasurements true) = Raise HTTPError →
  cloud st (S (requests st)) (ReqMeasurements false) = Ok m →
  Pod_battery_voltage st
  = (with_requests (S (S (requests st))) st,
     match m !! "batteryVoltage" with
     | Some v => Ok v
     | None => Raise AttributeError
     end).
Proof.
  intros H1 H2.
  unfold Pod_battery_voltage, try_except, bind, Pod__measurements, try_except, http_get.
  rewrite H1. cbn [exn_eqb].
  replace (requests (with_requests (S (requests st)) st)) with (S (requests st))
    by (by destruct st).
  replace (cloud (with_requests (S (requests st)) st)) with (cloud st)
    by (by destruct st).
  rewrite H2. unfold lift, subscript.
  destruct (m !! "batteryVoltage"); by destruct st.
Qed.
End SteadyPolls.

(** ** The derived readings and their cached unit *)

Section DerivedReadings.
Context {W : Type} {libm : Libm}.
Implicit Types (st : St W) (v o : pyval) (k : string).

(** [Pod.room_dew_point] on a steady server: the state it leaves, the
    cached flags included. *)
Lemma Pod_room_dew_point_run st m s :
  steady st m s →
  ∃ st', refetched st st' ∧
    Pod_room_dew_point st = (st', dew_point_reading m s (__fnht st)) ∧
    match m !! "temperature", m !! "humidity", unit_text s with
    | Some _, Some _, Some u =>
        __fnht st' = Some (startswith "f" (lower u)) ∧
        __clcs st' = Some (negb (startswith "f" (lower u)))
    | _, _, _ => __fnht st' = __fnht st ∧ __clcs st' = __clcs st
    end.
Proof.
  intros Hs. unfold Pod_room_dew_point, dew_point_reading.
  unfold bind at 1. rewrite (Pod_room_temp_steady st m s Hs).
  destruct (m !! "temperature") as [t|].
  2:{ eexists. split; [|split; [reflexivity|]].
      - apply refetched_requests. lia.
      - by destruct st. }
  set (st1 := with_requests (S (requests st)) st).
  assert (Hs1 : steady st1 m s).
  { eapply steady_refetched; [|exact Hs]. apply refetched_requests. lia. }
  unfold bind at 1. rewrite (Pod_room_humidity_steady st1 m s Hs1).
  destruct (m !! "humidity") as [h|].
  2:{ eexists. split; [|split; [reflexivity|]].
      - subst st1. eapply refetched_trans; apply refetched_requests; simpl; lia.
      - by destruct st. }
  set (st2 := with_requests (S (requests st1)) st1).
  assert (Hs2 : steady st2 m s).
  { eapply steady_refetched; [|exact Hs1]. apply refetched_requests. lia. }
  unfold bind at 1, try_except. unfold Mode_temp_unit. rewrite bind_assoc.
  rewrite (bind_Ok _ _ _ _ _ (Pod_state_steady st2 m s Hs2)).
  set (st3 := with_requests (S (requests st2)) st2).
  assert (R3 : refetched st st3).
  { subst st3 st2 st1.
    eapply refetched_trans; [|apply refetched_requests; simpl; lia].
    eapply refetched_trans; apply refetched_requests; simpl; lia. }
  unfold unit_text.
  destruct (s !! "temperatureUnit") as [[| | | |u]|]; simpl;
    try (unfold bind, gets, ret, raise, lift; simpl;
         replace (__fnht st3) with (__fnht st) by (by destruct st);
         destruct (__fnht st) eqn:Ef; simpl; eexists;
         (split; [exact R3 | split; [reflexivity | by destruct st]])).
  eexists. split; [|split; [reflexivity | by destruct st]].
  eapply refetched_trans; [exact R3|].
  eapply refetched_trans; [apply refetched_fnht | apply refetched_clcs].
Qed.

Lemma Pod_room_heat_index_run st m s :
  steady st m s →
  ∃ st', refetched st st' ∧
    Pod_room_heat_index st = (st', heat_index_reading m s (__clcs st)) ∧
    match m !! "temperature", m !! "humidity", unit_text s with
    | Some _, Some _, Some u =>
        __clcs st' = Some (startswith "c" (lower u)) ∧
        __fnht st' = Some (negb (startswith "c" (lower u)))
    | _, _, _ => __fnht st' = __fnht st ∧ __clcs st' = __clcs st
    end.
Proof.
  intros Hs. unfold Pod_room_heat_index, heat_index_reading.
  unfold bind at 1. rewrite (Pod_room_temp_steady st m s Hs).
  destruct (m !! "temperature") as [t|].
  2:{ eexists. split; [|split; [reflexivity|]].
      - apply refetched_requests. lia.
      - by destruct st. }
  set (st1 := with_requests (S (requests st)) st).
  assert (Hs1 : steady st1 m s).
  { eapply steady_refetched; [|exact Hs]. apply refetched_requests. lia. }
  unfold bind at 1. rewrite (Pod_room_humidity_steady st1 m s Hs1).
  destruct (m !! "humidity") as [h|].
  2:{ eexists. split; [|split; [reflexivity|]].
      - subst st1. eapply refetched_trans; apply refetched_requests; simpl; lia.
      - by destruct st. }
  set (st2 := with_requests (S (requests st1)) st1).
  assert (Hs2 : steady st2 m s).
  { eapply steady_refetched; [|exact Hs1]. apply refetched_requests. lia. }
  unfold bind at 1, try_except. unfold Mode_temp_unit. rewrite bind_assoc.
  rewrite (bind_Ok _ _ _ _ _ (Pod_state_steady st2 m s Hs2)).
  set (st3 := with_requests (S (requests st2)) st2).
  assert (R3 : refetched st st3).
  { subst st3 st2 st1.
    eapply refetched_trans; [|apply refetched_requests; simpl; lia].
    eapply refetched_trans; apply refetched_requests; simpl; lia. }
  unfold unit_text.
  destruct (s !! "temperatureUnit") as [[| | | |u]|]; simpl;
    try (unfold bind, gets, ret, raise, lift; simpl;
         replace (__clcs st3) with (__clcs st) by (by destruct st);
         destruct (__clcs st) eqn:Ef; simpl; eexists;
         (split; [exact R3 | split; [reflexivity | by destruct st]])).
  eexists. split; [|split; [reflexivity | by destruct st]].
  eapply refetched_trans; [exact R3|].
  eapply refetched_trans; [apply refetched_clcs | apply refetched_fnht].
Qed.

(** X18.  Once the readings are there and the state reports its unit,
    each derived property stores both unit flags before it starts its
    arithmetic, so whatever the arithmetic does: [room_dew_point] stores
    whether the unit's text starts with [f] and the negation of that as
    the Celsius flag, [room_heat_index] whether it starts with [c] and
    the negation of that as the Fahrenheit flag. *)
Theorem unit_flags_are_cached_before_the_arithmetic st m s t h u :
  steady st m s →
  m !! "temperature" = Some t →
  m !! "humidity" = Some h →
  unit_text s = Some u →
  let dew := exec Pod_room_dew_point st in
  let heat := exec Pod_room_heat_index st in
  __fnht dew = Some (startswith "f" (lower u)) ∧
  __clcs dew = Some (negb (startswith "f" (lower u))) ∧
  __clcs heat = Some (startswith "c" (lower u)) ∧
  __fnht heat = Some (negb (startswith "c" (lower u))).
Proof.
  intros Hs Ht Hh Hu dew heat. subst dew heat. unfold exec.
  destruct (Pod_room_dew_point_run st m s Hs) as (st1 & _ & -> & C1).
  destruct (Pod_room_heat_index_run st m s Hs) as (st2 & _ & -> & C2).
  rewrite Ht, Hh, Hu in C1, C2. cbn [fst]. tauto.
Qed.

(** *** A server that answers, at once or at the second attempt *)

Lemma steady_serves st m s : steady st m s → serves st m s.
Proof. intros Hs n Hn. destruct (Hs n Hn) as [E1 E2]. split; [exact E2 | by left]. Qed.

Lemma serves_refetched st st' m s :
  refetched st st' → serves st m s → serves st' m s.
Proof.
  intros (n & f & c & Hn & ->) Hs k Hk. destruct st; simpl in *.
  apply Hs. simpl. lia.
Qed.

Lemma serves_advances st st' evs m s :
  advances st st' evs → serves st m s → serves st' m s.
Proof.
  intros (_ & _ & _ & S & R & _) Hs n Hn. rewrite S. apply Hs. lia.
Qed.

Lemma no_attribute_error_advances st st' evs :
  advances st st' evs →
  no_attribute_error (callbacks st) → no_attribute_error (callbacks st').
Proof. intros (_ & C & _) Hq. by rewrite C. Qed.

Lemma Pod_state_serves st m s :
  serves st m s →
  Pod_state st = (with_requests (S (requests st)) st, Ok s).
Proof.
  intros Hs. unfold Pod_state, http_get.
  by destruct (Hs (requests st) (le_n _)) as [-> _].
Qed.

Lemma Pod__measurements_serves st m s :
  serves st m s →
  ∃ n, requests st ≤ n ∧ Pod__measurements st = (with_requests n st, Ok m).
Proof.
  intros Hs. unfold Pod__measurements, try_except, http_get.
  destruct (Hs (requests st) (le_n _)) as [_ [E|[E1 E2]]].
  - exists (S (requests st)). split; [lia|]. by rewrite E.
  - exists (S (S (requests st))). split; [lia|]. rewrite E1. cbn [exn_eqb].
    replace (cloud (with_requests (S (requests st)) st)) with (cloud st)
      by (by destruct st).
    replace (requests (with_requests (S (requests st)) st)) with (S (requests st))
      by (by destruct st).
    rewrite E2. by destruct st.
Qed.

Lemma Pod_room_temp_serves st m s :
  serves st m s →
  ∃ n, requests st ≤ n ∧
    Pod_room_temp st
    = (with_requests n st,
       match m !! "temperature" with
       | Some v => Ok v
       | None => Raise AttributeError
       end).
Proof.
  intros Hs. destruct (Pod__measurements_serves st m s Hs) as (n & Hn & E).
  exists n. split; [exact Hn|]. unfold Pod_room_temp, try_except.
  rewrite (bind_Ok _ _ _ _ _ E).
  unfold lift, subscript. by destruct (m !! "temperature").
Qed.

Lemma Pod_room_humidity_serves st m s :
  serves st m s →
  ∃ n, requests st ≤ n ∧
    Pod_room_humidity st
    = (with_requests n st,
       match m !! "humidity" with
       | Some v => Ok v
       | None => Raise AttributeError
       end).
Proof.
  intros Hs. destruct (Pod__measurements_serves st m s Hs) as (n & Hn & E).
  exists n. split; [exact Hn|]. unfold Pod_room_humidity, try_except.
  rewrite (bind_Ok _ _ _ _ _ E).
  unfold lift, subscript. by destruct (m !! "humidity").
Qed.

Lemma Pod_room_dew_point_serves st m s :
  serves st m s →
  ∃ st', refetched st st' ∧
    Pod_room_dew_point st = (st', dew_point_reading m s (__fnht st)) ∧
    match m !! "temperature", m !! "humidity", unit_text s with
    | Some _, Some _, Some u =>
        __fnht st' = Some (startswith "f" (lower u)) ∧
        __clcs st' = Some (negb (startswith "f" (lower u)))
    | _, _, _ => __fnht st' = __fnht st ∧ __clcs st' = __clcs st
    end.
Proof.
  intros Hs. unfold Pod_room_dew_point, dew_point_reading.
  destruct (Pod_room_temp_serves st m s Hs) as (n1 & Hn1 & E1).
  unfold bind at 1. rewrite E1.
  destruct (m !! "temperature") as [t|].
  2:{ eexists. split; [|split; [reflexivity|]].
      - by apply refetched_requests.
      - by destruct st. }
  set (st1 := with_requests n1 st).
  assert (R1 : refetched st st1) by (by apply refetched_requests).
  assert (Hs1 : serves st1 m s) by (by apply (serves_refetched st)).
  destruct (Pod_room_humidity_serves st1 m s Hs1) as (n2 & Hn2 & E2).
  unfold bind at 1. rewrite E2.
  set (st2 := with_requests n2 st1).
  assert (R2 : refetched st st2).
  { eapply refetched_trans; [exact R1|]. by apply refetched_requests. }
  destruct (m !! "humidity") as [h|].
  2:{ eexists. split; [exact R2|]. split; [reflexivity|]. by destruct st. }
  assert (Hs2 : serves st2 m s) by (by apply (serves_refetched st)).
  unfold bind at 1, try_except. unfold Mode_temp_unit. rewrite bind_assoc.
  rewrite (bind_Ok _ _ _ _ _ (Pod_state_serves st2 m s Hs2)).
  set (st3 := with_requests (S (requests st2)) st2).
  assert (R3 : refetched st st3).
  { eapply refetched_trans; [exact R2|]. apply refetched_requests. lia. }
  unfold unit_text.
  destruct (s !! "temperatureUnit") as [[| | | |u]|]; simpl;
    try (unfold bind, gets, ret, raise, lift; simpl;
         replace (__fnht st3) with (__fnht st) by (by destruct st);
         destruct (__fnht st) eqn:Ef; simpl; eexists;
         (split; [exact R3 | split; [reflexivity | by destruct st]])).
  eexists. split; [|split; [reflexivity | by destruct st]].
  eapply refetched_trans; [exact R3|].
  eapply refetched_trans; [apply refetched_fnht | apply refetched_clcs].
Qed.

Lemma Pod_room_heat_index_serves st m s :
  serves st m s →
  ∃ st', refetched st st' ∧
    Pod_room_heat_index st = (st', heat_index_reading m s (__clcs st)).
Proof.
  intros Hs. unfold Pod_room_heat_index, heat_index_reading.
  destruct (Pod_room_temp_serves st m s Hs) as (n1 & Hn1 & E1).
  unfold bind at 1. rewrite E1.
  destruct (m !! "temperature") as [t|].
  2:{ eexists. split; [|reflexivity]. by apply refetched_requests. }
  set (st1 := with_requests n1 st).
  assert (R1 : refetched st st1) by (by apply refetched_requests).
  assert (Hs1 : serves st1 m s) by (by apply (serves_refetched st)).
  destruct (Pod_room_humidity_serves st1 m s Hs1) as (n2 & Hn2 & E2).
  unfold bind at 1. rewrite E2.
  set (st2 := with_requests n2 st1).
  assert (R2 : refetched st st2).
  { eapply refetched_trans; [exact R1|]. by apply refetched_requests. }
  destruct (m !! "humidity") as [h|].
  2:{ eexists. split; [exact R2 | reflexivity]. }
  assert (Hs2 : serves st2 m s) by (by apply (serves_refetched st)).
  unfold bind at 1, try_except. unfold Mode_temp_unit. rewrite bind_assoc.
  rewrite (bind_Ok _ _ _ _ _ (Pod_state_serves st2 m s Hs2)).
  set (st3 := with_requests (S (requests st2)) st2).
  assert (R3 : refetched st st3).
  { eapply refetched_trans; [exact R2|]. apply refetched_requests. lia. }
  unfold unit_text.
  destruct (s !! "temperatureUnit") as [[| | | |u]|]; simpl;
    try (unfold bind, gets, ret, raise, lift; simpl;
         replace (__clcs st3) with (__clcs st) by (by destruct st);
         destruct (__clcs st) eqn:Ef; simpl; eexists;
         (split; [exact R3 | reflexivity])).
  eexists. split; [|reflexivity].
  eapply refetched_trans; [exact R3|].
  eapply refetched_trans; [apply refetched_clcs | apply refetched_fnht].
Qed.

(** *** What a dispatch leaves behind, whatever its callbacks do *)

Lemma Notify_advances_any event value obj st st' r :
  Notify event value obj st = (st', r) →
  advances st st' [{| ev_name := event; ev_value := value; ev_obj := obj |}] ∧
  world st' = world st' ∧
  __fnht st' = __fnht st ∧ __clcs st' = __clcs st ∧
  requests st' = requests st.
Proof.
  destruct (Notify_run event value obj st) as (w & i & r' & -> & _).
  intros [= <- <-]. unfold advances. destruct st; simpl.
  repeat split; lia.
Qed.

Lemma refetched_dispatch st st' event value obj :
  refetched st st' →
  outcome (Notify event value obj) st' = outcome (Notify event value obj) st.
Proof.
  intros (n & f & c & _ & ->). apply Notify_outcome; by destruct st.
Qed.

(** The run of [hi_dp_event], case by case. *)
Lemma hi_dp_event_run st m s :
  serves st m s →
  let dp := dew_point_reading m s (__fnht st) in
  let hi := heat_index_reading m s (__clcs st) in
  let swallow (e : exn) : result unit :=
    if exn_eqb AttributeError e then Ok tt else Raise e in
  let dp_ev d := pod_event (pod_name st) "room_dew_point" (PFloat d) in
  let hi_ev x := pod_event (pod_name st) "room_heat_index" (PFloat x) in
  ∃ evs, advances st (exec hi_dp_event st) evs ∧
    match dp with
    | Raise e => outcome hi_dp_event st = swallow e ∧ evs = []
    | Ok d =>
        match dispatch_of (dp_ev d) st, hi with
        | Raise e, _ | Ok _, Raise e =>
            outcome hi_dp_event st = swallow e ∧ evs = [dp_ev d]
        | Ok _, Ok x => evs = [dp_ev d; hi_ev x]
        end
    end.
Proof.
  intros Hs dp hi swallow dp_ev hi_ev. subst dp hi swallow dp_ev hi_ev.
  unfold outcome, exec, hi_dp_event, try_except, dispatch_of. rewrite bind_gets.
  destruct (Pod_room_dew_point_serves st m s Hs) as (st1 & R1 & E1 & C1).
  assert (A1 := refetched_advances _ _ R1).
  destruct (dew_point_reading m s (__fnht st)) as [d|e] eqn:Ed.
  2:{ rewrite (bind_Raise _ _ _ _ _ E1). exists [].
      destruct (exn_eqb AttributeError e); cbn [fst snd ret]; done. }
  rewrite (bind_Ok _ _ _ _ _ E1).
  cbn [pod_event ev_name ev_value ev_obj].
  rewrite <- (refetched_dispatch st st1 _ _ _ R1).
  change (pod_name st +:+ "." +:+ "room_dew_point")
    with (pod_name st +:+ ".room_dew_point").
  unfold outcome.
  destruct (Notify (pod_name st +:+ ".room_dew_point") (PFloat d)
              (PodObj (pod_name st)) st1) as [st2 r2] eqn:E2.
  destruct (Notify_advances_any _ _ _ _ _ _ E2) as (A2 & _ & F2 & K2 & Q2).
  assert (A12 := advances_trans _ _ _ _ _ A1 A2). cbn [app] in A12.
  cbn [snd].
  destruct r2 as [[]|e].
  2:{ rewrite (bind_Raise _ _ _ _ _ E2). eexists.
      destruct (exn_eqb AttributeError e); cbn [fst snd ret];
        (split; [exact A12 | done]). }
  rewrite (bind_Ok _ _ _ _ _ E2).
  assert (Hs2 : serves st2 m s) by (by apply (serves_advances st st2 _ m s A12)).
  destruct (Pod_room_heat_index_serves st2 m s Hs2) as (st3 & R3 & E3).
  assert (A13 := advances_trans _ _ _ _ _ A12 (refetched_advances _ _ R3)).
  cbn [app] in A13.
  assert (Hhi : heat_index_reading m s (__clcs st2)
                = heat_index_reading m s (__clcs st)).
  { unfold heat_index_reading. unfold dew_point_reading in Ed.
    destruct (m !! "temperature"); [|reflexivity].
    destruct (m !! "humidity"); [|reflexivity].
    destruct (unit_text s); [reflexivity|].
    destruct C1 as [_ C1]. by rewrite K2, C1. }
  rewrite Hhi in E3.
  destruct (heat_index_reading m s (__clcs st)) as [x|e] eqn:Eh.
  2:{ rewrite (bind_Raise _ _ _ _ _ E3). eexists.
      destruct (exn_eqb AttributeError e); cbn [fst snd ret];
        (split; [exact A13 | done]). }
  rewrite (bind_Ok _ _ _ _ _ E3).
  destruct (Notify (pod_name st +:+ ".room_heat_index") (PFloat x)
              (PodObj (pod_name st)) st3) as [st4 r4] eqn:E4.
  destruct (Notify_advances_any _ _ _ _ _ _ E4) as (A4 & _).
  assert (A14 := advances_trans _ _ _ _ _ A13 A4). cbn [app] in A14.
  eexists. split; [|reflexivity].
  destruct r4 as [[]|e]; [exact A14|].
  destruct (exn_eqb AttributeError e); exact A14.
Qed.

(** X19.  [hi_dp_event] on a server that answers.  An unavailable dew
    point ends it quietly and any other exception of the dew point's
    arithmetic (a logarithm or a division that is not defined, an
    overflow, a reading that is no number) leaves it, nothing being
    published, since only [AttributeError] is caught.  A dew point that
    is computed is published at once.  If its dispatch ends with an
    exception, or the heat index does, that exception leaves
    [hi_dp_event] unless it is an [AttributeError], and the dew point
    stays the only event published; if the dispatch returns and the heat
    index is computed, the heat index is published after the dew
    point. *)
Theorem hi_dp_event_is_best_effort st m s :
  serves st m s →
  let dp := dew_point_reading m s (__fnht st) in
  let hi := heat_index_reading m s (__clcs st) in
  let swallow (e : exn) : result unit :=
    if exn_eqb AttributeError e then Ok tt else Raise e in
  let dp_ev d := pod_event (pod_name st) "room_dew_point" (PFloat d) in
  let hi_ev x := pod_event (pod_name st) "room_heat_index" (PFloat x) in
  match dp with
  | Raise e =>
      outcome hi_dp_event st = swallow e ∧
      published (exec hi_dp_event st) = published st
  | Ok d =>
      match dispatch_of (dp_ev d) st, hi with
      | Raise e, _ | Ok _, Raise e =>
          outcome hi_dp_event st = swallow e ∧
          published (exec hi_dp_event st) = published st ++ [dp_ev d]
      | Ok _, Ok x =>
          published (exec hi_dp_event st) = published st ++ [dp_ev d; hi_ev x]
      end
  end.
Proof.
  intros Hs dp hi swallow dp_ev hi_ev.
  destruct (hi_dp_event_run st m s Hs) as (evs & (P & _) & H).
  subst dp hi swallow dp_ev hi_ev. cbv beta zeta in *. rewrite P.
  destruct (dew_point_reading m s (__fnht st)) as [d|e].
  - destruct (dispatch_of _ st) as [[]|e1].
    + destruct (heat_index_reading m s (__clcs st)) as [x|e2]; [by rewrite H|].
      destruct H as [-> ->]. done.
    + destruct H as [-> ->]. done.
  - destruct H as [-> ->]. by rewrite app_nil_r.
Qed.

(** *** The events of a measurement diff that returns *)

Lemma advances_step st s1 s2 evs (ev_of : string → list event) :
  advances st s1 evs →
  advances s1 s2 (ev_of (pod_name s1)) →
  advances st s2 (evs ++ ev_of (pod_name st)).
Proof.
  intros A1 A2. assert (N : pod_name s1 = pod_name st) by (by destruct A1 as (_ & _ & N & _)).
  rewrite N in A2. exact (advances_trans _ _ _ _ _ A1 A2).
Qed.

Lemma old_measurements_set_returned k v st st' :
  k ≠ "batteryVoltage" →
  old_measurements_set k v st = (st', Ok tt) → advances st st' [].
Proof.
  intros Hk H. rewrite old_measurements_set_run in H. injection H as <-.
  by apply old_measurements_set_advances.
Qed.

Lemma temp_event_returned temperature st st' :
  temp_event temperature st = (st', Ok tt) →
  advances st st' [pod_event (pod_name st) "room_temp" temperature].
Proof.
  intros H. unfold temp_event in H. rewrite bind_gets in H.
  by apply Notify_advances_any in H as (A & _).
Qed.

Lemma rh_event_returned humidity st st' :
  rh_event humidity st = (st', Ok tt) →
  advances st st' [pod_event (pod_name st) "room_humidity" humidity].
Proof.
  intros H. unfold rh_event in H. rewrite bind_gets in H.
  by apply Notify_advances_any in H as (A & _).
Qed.

(** With both derived readings defined and no callback raising
    [AttributeError], a [hi_dp_event] that returns has published both,
    dew point first. *)
Lemma hi_dp_event_returned st m s t h u dp hi st' :
  serves st m s →
  m !! "temperature" = Some t →
  m !! "humidity" = Some h →
  unit_text s = Some u →
  dew_point_of t h (startswith "f" (lower u)) = Ok dp →
  heat_index_of t h (startswith "c" (lower u)) = Ok hi →
  no_attribute_error (callbacks st) →
  hi_dp_event st = (st', Ok tt) →
  advances st st'
    [pod_event (pod_name st) "room_dew_point" (PFloat dp);
     pod_event (pod_name st) "room_heat_index" (PFloat hi)].
Proof.
  intros Hs Ht Hh Hu Hdp Hhi Hn H.
  destruct (hi_dp_event_run st m s Hs) as (evs & A & B). cbv zeta in B.
  unfold dew_point_reading, heat_index_reading in B.
  rewrite Ht, Hh, Hu, Hdp, Hhi in B.
  unfold outcome, exec in A, B. rewrite H in A, B. cbn [fst snd] in A, B.
  destruct (dispatch_of _ st) as [[]|e] eqn:Ed.
  - by subst evs.
  - exfalso. destruct B as [B _].
    apply (Notify_no_attribute_error
             (pod_name st +:+ ".room_dew_point")
             (PFloat dp) (PodObj (pod_name st)) st Hn).
    unfold dispatch_of in Ed. cbn [ev_value ev_obj pod_event] in Ed.
    destruct e; simpl in B; try discriminate. exact Ed.
Qed.

(** The battery block, when it returns. *)
Lemma battery_block_returned measurements st st' :
  (b <- measurement_changed (get_or_None measurements "batteryVoltage")
          "batteryVoltage" ;;
   when b
     (old_measurements_set "batteryVoltage"
        (get_or_None measurements "batteryVoltage") ;;
      name <- gets pod_name ;;
      Notify (name +:+ ".battery_voltage")
             (get_or_None measurements "batteryVoltage") (PodObj name))) st
  = (st', Ok tt) →
  published st'
  = published st ++
    (if py_ne (get_or_None measurements "batteryVoltage")
          (get_or_None (old_measurements st) "batteryVoltage")
     then [pod_event (pod_name st) "battery_voltage"
             (get_or_None measurements "batteryVoltage")]
     else []).
Proof.
  intros H. apply bind_inv_Ok in H as (s1 & b & E & H).
  rewrite measurement_changed_run in E. unfold subscript in E.
  unfold get_or_None at 2.
  destruct (old_measurements st !! "batteryVoltage") as [b0|]; [|discriminate].
  simpl in E. injection E as <- <-.
  destruct (py_ne _ b0); simpl in H.
  - rewrite (bind_Ok _ _ _ _ _ (old_measurements_set_run _ _ _)) in H.
    rewrite bind_gets in H.
    apply Notify_advances_any in H as ((P & _) & _).
    rewrite P. by destruct st.
  - injection H as <-. by rewrite app_nil_r.
Qed.

Lemma measurement_changed_returned v k st st' c :
  measurement_changed v k st = (st', Ok c) →
  st' = st ∧ c = py_ne v (get_or_None (old_measurements st) k).
Proof.
  rewrite measurement_changed_run. unfold subscript, get_or_None.
  destruct (old_measurements st !! k); [|discriminate].
  simpl. by intros [= <- <-].
Qed.

(** C7, amended.  On a server that answers, with the derived readings
    defined when [hi_dp_event] fetches them again (the readings are
    there, the state reports its unit, the arithmetic is defined) and no
    callback raising [AttributeError], a measurement diff that returns
    has published, in this order: [room_temp] if the temperature
    changed, [room_humidity] if the humidity changed, [room_dew_point]
    then [room_heat_index] if either changed, and [battery_voltage] if
    the battery voltage changed, whatever the other two did. *)
Theorem measurement_events_in_order
    st measurements (m s : dict) (t h : pyval) (u : string) (dp hi : float) :
  serves st m s →
  m !! "temperature" = Some t →
  m !! "humidity" = Some h →
  unit_text s = Some u →
  dew_point_of t h (startswith "f" (lower u)) = Ok dp →
  heat_index_of t h (startswith "c" (lower u)) = Ok hi →
  no_attribute_error (callbacks st) →
  outcome (diff_measurements measurements) st = Ok tt →
  let temperature := get_or_None measurements "temperature" in
  let humidity := get_or_None measurements "humidity" in
  let battery_voltage := get_or_None measurements "batteryVoltage" in
  let name := pod_name st in
  let was k := get_or_None (old_measurements st) k in
  published (exec (diff_measurements measurements) st)
  = published st
    ++ (if py_ne temperature (was "temperature")
        then [pod_event name "room_temp" temperature] else [])
    ++ (if py_ne humidity (was "humidity")
        then [pod_event name "room_humidity" humidity] else [])
    ++ (if py_ne temperature (was "temperature") || py_ne humidity (was "humidity")
        then [pod_event name "room_dew_point" (PFloat dp);
              pod_event name "room_heat_index" (PFloat hi)]
        else [])
    ++ (if py_ne battery_voltage (was "batteryVoltage")
        then [pod_event name "battery_voltage" battery_voltage] else []).
Proof.
  intros Hs Ht Hh Hu Hdp Hhi Hn Hok temperature humidity battery_voltage name was.
  unfold outcome, exec in *.
  destruct (diff_measurements measurements st) as [st' r] eqn:E.
  cbn [fst snd] in *. subst r.
  unfold diff_measurements in E. fold temperature humidity battery_voltage in E.
  apply bind_inv_Ok in E as (s1 & hc & E1 & E).
  apply measurement_changed_returned in E1 as [-> ->]. fold (was "humidity") in E.
  apply bind_inv_Ok in E as (s2 & both & E2 & E).
  apply bind_inv_Ok in E as (s3 & [] & E3 & E).
  apply battery_block_returned in E. fold battery_voltage in E.
  (* what the branches have in common *)
  assert (Hend : ∀ evs, advances st s3 evs →
    published st'
    = published st ++ evs ++
      (if py_ne battery_voltage (was "batteryVoltage")
       then [pod_event name "battery_voltage" battery_voltage] else [])).
  { intros evs (P & _ & N & _ & _ & B). rewrite E, P, N.
    replace (get_or_None (old_measurements s3) "batteryVoltage")
      with (was "batteryVoltage") by (unfold was, get_or_None; by rewrite B).
    by rewrite <- app_assoc. }
  assert (Hderived : ∀ x x' evs, advances st x evs →
    hi_dp_event x = (x', Ok tt) →
    advances st x'
      (evs ++ [pod_event name "room_dew_point" (PFloat dp);
               pod_event name "room_heat_index" (PFloat hi)])).
  { intros x x' evs A H.
    apply (advances_step st x x' evs
             (fun n => [pod_event n "room_dew_point" (PFloat dp);
                        pod_event n "room_heat_index" (PFloat hi)]) A).
    apply (hi_dp_event_returned x m s t h u dp hi x'); try done.
    - by apply (serves_advances st x evs).
    - by apply (no_attribute_error_advances st x evs). }
  assert (Htemp : ∀ x x' evs, advances st x evs →
    temp_event temperature x = (x', Ok tt) →
    advances st x' (evs ++ [pod_event name "room_temp" temperature])).
  { intros x x' evs A H.
    apply (advances_step st x x' evs
             (fun n => [pod_event n "room_temp" temperature]) A).
    by apply temp_event_returned. }
  assert (Hrh : ∀ x x' evs, advances st x evs →
    rh_event humidity x = (x', Ok tt) →
    advances st x' (evs ++ [pod_event name "room_humidity" humidity])).
  { intros x x' evs A H.
    apply (advances_step st x x' evs
             (fun n => [pod_event n "room_humidity" humidity]) A).
    by apply rh_event_returned. }
  assert (Hset : ∀ k v x x' evs, k ≠ "batteryVoltage" → advances st x evs →
    old_measurements_set k v x = (x', Ok tt) → advances st x' evs).
  { intros k v x x' evs Hk A H. rewrite <- (app_nil_r evs).
    apply (advances_trans _ _ _ _ _ A).
    by apply (old_measurements_set_returned k v). }
  destruct (py_ne humidity (was "humidity")) eqn:Hhc.
  - apply measurement_changed_returned in E2 as [-> ->].
    fold (was "temperature") in E3.
    destruct (py_ne temperature (was "temperature")) eqn:Htc.
    + (* both changed *)
      apply bind_inv_Ok in E3 as (x1 & [] & F1 & E3).
      apply bind_inv_Ok in E3 as (x2 & [] & F2 & E3).
      apply bind_inv_Ok in E3 as (x3 & [] & F3 & E3).
      apply bind_inv_Ok in E3 as (x4 & [] & F4 & E3).
      apply (Hset "temperature" _ _ _ [] ltac:(done) (advances_refl st)) in F1.
      apply (Hset "humidity" _ _ _ [] ltac:(done) F1) in F2.
      apply (Htemp _ _ _ F2) in F3. apply (Hrh _ _ _ F3) in F4.
      apply (Hderived _ _ _ F4) in E3.
      rewrite (Hend _ E3). reflexivity.
    + (* humidity alone *)
      apply bind_inv_Ok in E3 as (x0 & tc & F0 & E3).
      apply measurement_changed_returned in F0 as [-> ->].
      fold (was "temperature") in E3. rewrite Htc in E3.
      apply bind_inv_Ok in E3 as (x0 & hc & F0 & E3).
      apply measurement_changed_returned in F0 as [-> ->].
      fold (was "humidity") in E3. rewrite Hhc in E3. simpl when in E3.
      apply bind_inv_Ok in E3 as (x1 & [] & F1 & E3).
      apply bind_inv_Ok in E3 as (x2 & [] & F2 & E3).
      apply (Hset "humidity" _ _ _ [] ltac:(done) (advances_refl st)) in F1.
      apply (Hrh _ _ _ F1) in F2.
      apply (Hderived _ _ _ F2) in E3.
      rewrite (Hend _ E3). reflexivity.
  - injection E2 as <- <-.
    apply bind_inv_Ok in E3 as (x0 & tc & F0 & E3).
    apply measurement_changed_returned in F0 as [-> ->].
    fold (was "temperature") in E3.
    destruct (py_ne temperature (was "temperature")) eqn:Htc.
    + (* temperature alone *)
      apply bind_inv_Ok in E3 as (x1 & [] & F1 & E3).
      apply bind_inv_Ok in E3 as (x2 & [] & F2 & E3).
      apply (Hset "temperature" _ _ _ [] ltac:(done) (advances_refl st)) in F1.
      apply (Htemp _ _ _ F1) in F2.
      apply (Hderived _ _ _ F2) in E3.
      rewrite (Hend _ E3). reflexivity.
    + (* neither *)
      apply bind_inv_Ok in E3 as (x0 & hc & F0 & E3).
      apply measurement_changed_returned in F0 as [-> ->].
      fold (was "humidity") in E3. rewrite Hhc in E3. simpl when in E3.
      injection E3 as <-.
      rewrite (Hend _ (advances_refl st)). reflexivity.
Qed.
End DerivedReadings.

(** ** From a change on the server to the call of a callback *)

Section Delivery.
Context {W : Type} {libm : Libm}.
Implicit Types (st : St W) (v o : pyval) (k : string).

(** X26.  A change is reported once even when a callback of its event
    raised: the baseline is set before the callbacks are called, so
    after a pass in which the power alone changed, whatever its
    callbacks did and however the pass ended, the same fetched state
    gives no event again (the callbacks the exception kept from running
    never hear of the change). *)
Theorem a_change_is_reported_once_whatever_the_callbacks_do st state o :
  (∀ k, In k ["mode"; "swing"; "targetTemperature"; "fanLevel";
              "temperatureUnit"] → unchanged (old_state st) state k) →
  get_or_None state "on" ≠ PNone →
  is_nan_value (get_or_None state "on") = false →
  changed_from (old_state st) state "on" o →
  let st' := exec (diff_state state) st in
  old_state st' !! "on" = Some (get_or_None state "on") ∧
  diff_state state st' = (st', Ok tt).
Proof.
  intros Hs Hk Hnan Hon st'. subst st'. unfold exec.
  destruct (diff_state_power_only st state o Hs Hk Hon) as (w & i & r & ->).
  cbn [fst]. split.
  - destruct st; simpl. by rewrite lookup_insert_eq.
  - apply diff_state_unchanged. intros k Hin.
    destruct (String.eqb_spec k "on") as [->|Hne].
    + exists (get_or_None state "on"). split.
      * destruct st; simpl. by rewrite lookup_insert_eq.
      * by apply py_eq_refl.
    + assert (Hu : unchanged (old_state st) state k).
      { apply Hs. cbn [In] in *.
        destruct Hin as [<-|[<-|[<-|[<-|[<-|[<-|[]]]]]]];
          first [tauto | congruence]. }
      destruct st; simpl in *. by apply unchanged_insert_ne.
Qed.

Lemma matching_registry_set_only e g (cb : callback W) (d : registry W) event :
  matching d event = [] → matches e event = true →
  matching (registry_set e g cb d) event = [(e, g, cb)].
Proof.
  intros Hd Hm. induction d as [|[evt cbs] d IH]; simpl.
  - by rewrite Hm.
  - simpl in Hd. apply app_eq_nil in Hd as [Hh Ht].
    destruct (String.eqb_spec evt e) as [->|Hne]; simpl.
    + rewrite Hm in *. rewrite Ht, app_nil_r.
      destruct cbs as [|[g' cb'] cbs]; [reflexivity | discriminate].
    + rewrite Hh. by apply IH.
Qed.

(** X27.  From [Pod.bind] to the call: on a pod whose name is ASCII and
    all lower-case, a callback bound to [power] when no other callback is
    due for the pod's power event is called in the diff pass in which
    the power alone changed: once, under the id [bind] returned, with the
    name of the event, the boolean and the pod.  The pass publishes the
    power event alone and ends as the dispatch of that event does. *)
Theorem a_bound_power_callback_is_called st (cb : callback W) state measurements o :
  is_ascii (pod_name st) = true →
  lower (pod_name st) = pod_name st →
  matching (callbacks st) (pod_name st +:+ ".power") = [] →
  (∀ k, In k ["mode"; "swing"; "targetTemperature"; "fanLevel";
              "temperatureUnit"] → unchanged (old_state st) state k) →
  (∀ k, In k ["temperature"; "humidity"; "batteryVoltage"] →
        unchanged (old_measurements st) measurements k) →
  get_or_None state "on" ≠ PNone →
  changed_from (old_state st) state "on" o →
  let event := pod_name st +:+ ".power" in
  let st1 := exec (Pod_bind "power" cb) st in
  let st2 := exec (diff state measurements) st1 in
  let called :=
    cb event (PBool (py_bool (get_or_None state "on"))) (PodObj (pod_name st))
       (world st) in
  outcome (Pod_bind "power" cb) st = Ok (next_guid st) ∧
  published st2
  = published st
    ++ [pod_event (pod_name st) "power" (PBool (py_bool (get_or_None state "on")))] ∧
  invoked st2 = invoked st ++ [(event, next_guid st)] ∧
  world st2 = fst called ∧
  outcome (diff state measurements) st1
  = dispatch_of (pod_event (pod_name st) "power"
                   (PBool (py_bool (get_or_None state "on")))) st1.
Proof.
  intros _ Hlow Hnone Hs Hm Hk Hon event st1 st2 called.
  assert (Hb : Pod_bind "power" cb st
               = (with_callbacks (registry_set event (next_guid st) cb (callbacks st))
                    (with_next_guid (S (next_guid st)) st), Ok (next_guid st))).
  { rewrite Pod_bind_run by (unfold Pod_property_names; simpl; tauto).
    apply Notify_bind_run. }
  assert (Hst1 : st1 = with_callbacks
                         (registry_set event (next_guid st) cb (callbacks st))
                         (with_next_guid (S (next_guid st)) st)).
  { subst st1. unfold exec. by rewrite Hb. }
  assert (Hdue : matching (callbacks st1) event = [(event, next_guid st, cb)]).
  { rewrite Hst1. replace (callbacks (with_callbacks _ _))
      with (registry_set event (next_guid st) cb (callbacks st)) by (by destruct st).
    apply matching_registry_set_only; [exact Hnone|].
    apply matches_true. right. subst event. by rewrite lower_app, Hlow. }
  assert (Hold : old_state st1 = old_state st ∧
                 old_measurements st1 = old_measurements st ∧
                 pod_name st1 = pod_name st ∧ invoked st1 = invoked st ∧
                 world st1 = world st).
  { rewrite Hst1. by destruct st. }
  destruct Hold as (O1 & O2 & O3 & O4 & O5).
  assert (Hs1 : ∀ k, In k ["mode"; "swing"; "targetTemperature"; "fanLevel";
                           "temperatureUnit"] → unchanged (old_state st1) state k)
    by (intros k Hin; rewrite O1; by apply Hs).
  set (v := PBool (py_bool (get_or_None state "on"))) in *.
  set (st1' := with_old_state (<["on" := get_or_None state "on"]> (old_state st1)) st1).
  set (st1'' := with_invoked (invoked st ++ [(event, next_guid st)])
                  (with_world (fst called)
                     (with_published
                        (published st1 ++
                         [{| ev_name := event; ev_value := v;
                             ev_obj := PodObj (pod_name st) |}]) st1'))).
  assert (Hblock :
    (old_state_set "on" (get_or_None state "on") ;;
     name <- gets pod_name ;;
     Notify (name +:+ ".power") v (PodObj name)) st1
    = (st1'', match snd called with None => Ok tt | Some e => Raise e end)).
  { rewrite (bind_Ok _ _ _ _ _ (old_state_set_run _ _ _)). rewrite bind_gets.
    fold st1'.
    change (pod_name st1') with (pod_name st1). rewrite O3. fold event.
    rewrite Notify_unfold.
    change (callbacks st1') with (callbacks st1). rewrite Hdue.
    cbn [run_calls]. unfold bind, call.
    change (world (with_published
                     (published st1' ++
                      [{| ev_name := event; ev_value := v;
                          ev_obj := PodObj (pod_name st) |}]) st1'))
      with (world st1).
    rewrite O5. fold called. subst st1''.
    change (published st1') with (published st1).
    destruct called as [w [e|]]; cbn [fst snd ret];
      (f_equal; rewrite <- O4; subst st1'; by destruct st1). }
  assert (Hstate : diff_state state st1
                   = (st1'', match snd called with None => Ok tt | Some e => Raise e end)).
  { unfold diff_state.
    rewrite (bind_Ok _ _ _ _ _ (state_changed_unchanged state "mode" st1 ltac:(apply Hs1; simpl; tauto))).
    simpl when.
    rewrite (bind_Ok _ _ st1 st1 tt) by reflexivity.
    rewrite (bind_Ok _ _ _ _ _ (scoped_field_unchanged state "swing" "swing" st1 ltac:(apply Hs1; simpl; tauto))).
    rewrite (bind_Ok _ _ _ _ _ (scoped_field_unchanged state "targetTemperature" "temp" st1 ltac:(apply Hs1; simpl; tauto))).
    rewrite (bind_Ok _ _ _ _ _ (scoped_field_unchanged state "fanLevel" "fan_level" st1 ltac:(apply Hs1; simpl; tauto))).
    rewrite (bind_Ok _ _ _ _ _ (state_changed_changed state "on" o st1 Hk ltac:(by rewrite O1))).
    simpl when. fold v.
    destruct (snd called) as [e|] eqn:Ec.
    - by rewrite (bind_Raise _ _ _ _ _ Hblock).
    - rewrite (bind_Ok _ _ _ _ _ Hblock).
      apply scoped_field_unchanged. subst st1'' st1'. destruct st1; simpl in *.
      apply unchanged_insert_ne; [done|]. apply Hs1. simpl; tauto. }
  assert (Hdiff : diff state measurements st1
                  = (st1'', match snd called with None => Ok tt | Some e => Raise e end)).
  { unfold diff. destruct (snd called) as [e|] eqn:Ec.
    - by rewrite (bind_Raise _ _ _ _ _ Hstate).
    - rewrite (bind_Ok _ _ _ _ _ Hstate).
      apply diff_measurements_unchanged.
      intros k Hin. subst st1'' st1'. destruct st1; simpl in *.
      rewrite O2. by apply Hm. }
  assert (Hd : dispatch_of (pod_event (pod_name st) "power" v) st1
               = match snd called with None => Ok tt | Some e => Raise e end).
  { unfold dispatch_of, outcome.
    change (ev_name (pod_event (pod_name st) "power" v)) with event.
    cbn [ev_value ev_obj pod_event].
    rewrite Notify_unfold, Hdue.
    cbn [run_calls]. unfold bind, call.
    change (world (with_published
                     (published st1 ++
                      [{| ev_name := event; ev_value := v;
                          ev_obj := PodObj (pod_name st) |}]) st1))
      with (world st1).
    rewrite O5. fold called. by destruct called as [w [e|]]. }
  assert (Hp : published st1 = published st) by (rewrite Hst1; by destruct st).
  subst st2. unfold exec. rewrite Hd. unfold outcome. rewrite Hdiff, Hb.
  cbn [fst snd].
  split; [reflexivity|]. split; [|split; [|split; [|reflexivity]]].
  - subst st1''. rewrite <- Hp. by destruct st1.
  - subst st1''. by destruct st1.
  - subst st1''. by destruct st1.
Qed.
End Delivery.

(** ** The polling thread's life cycle *)

Section LifeCycle.
Implicit Types l : Life.

Lemma app_cons_one {A} (a b : list A) (x y : A) :
  a ++ x :: b = [y] → a = [] ∧ b = [] ∧ x = y.
Proof.
  destruct a as [|z a]; simpl.
  - intros H. by injection H as -> ->.
  - intros H. injection H as _ H. by destruct a.
Qed.

Lemma sound_pollers l :
  sound l → pollers l = [] ∨ pollers l = [Looping] ∨ pollers l = [Leaving].
Proof.
  unfold sound. destruct (pollers l) as [|[] [|? ?]]; tauto.
Qed.

Lemma sound_step l l' : sound l → life_step l l' → sound l'.
Proof.
  intros Hs Hstep. destruct Hstep as [l l' Hstart | l | l l' Hth].
  - unfold start_poll in Hstart.
    destruct (_event l) eqn:Ee; [discriminate|].
    destruct (_thread l) eqn:Et; injection Hstart as <-; [exact Hs|].
    unfold sound in *. simpl. rewrite Ee, Et in *.
    destruct (pollers l) as [|[] [|? ?]]; simpl; try done. by destruct Hs.
  - unfold stop_poll. destruct (_thread l) eqn:Et; [|exact Hs].
    unfold sound in *. simpl. rewrite Et in *.
    destruct (pollers l) as [|[] [|? ?]]; simpl; try done. by destruct Hs.
  - destruct (sound_pollers l Hs) as [Hp|[Hp|Hp]];
      destruct Hth as [l a b Hl He | l a b Hl | l a b Hl];
      rewrite Hp in Hl; try (by destruct a);
      symmetry in Hl; apply app_cons_one in Hl as (-> & -> & Hx);
      try discriminate; unfold sound in *; rewrite Hp in Hs; simpl.
    + by split.
    + intros Hf. by rewrite Hf in Hs.
    + done.
Qed.

Lemma sound_reachable l : rtc life_step idle l → sound l.
Proof.
  intros H. apply rtc_ind_r with (x := idle) (P := sound) in H; try done.
  intros y z _ Hstep Hy. by apply (sound_step y z).
Qed.

(** X20.  Whatever calls of [start_poll] and [stop_poll] the client
    makes, one after the other, and however the steps of the polling
    threads fall between them, at most one thread runs [_poll] at any
    moment; while it is in its loop [self._thread] is set, and once it
    has cleared [self._thread] the event stays set until the thread
    clears it, so that [start_poll] waits for it. *)
Theorem at_most_one_polling_thread l :
  rtc life_step idle l →
  length (pollers l) ≤ 1 ∧
  (pollers l = [Looping] → _thread l = true) ∧
  (pollers l = [Leaving] → is_polling l = false ∧ start_poll l = None).
Proof.
  intros H. apply sound_reachable in H. unfold sound in H.
  destruct (pollers l) as [|[] [|? ?]] eqn:Hp; simpl; try done;
    (split; [lia|]); split; intros E; try discriminate.
  all: try exact H.
  destruct H as [Ht He]. unfold is_polling, start_poll. by rewrite Ht, He.
Qed.

(** X21.  A polling thread that an exception ends leaves both attributes
    as they were: [is_polling] goes on answering [True] with no thread
    alive; [stop_poll] then sets the event, which no one is left to
    clear, so nothing changes any more and a later [start_poll] never
    leaves its waiting loop. *)
Theorem an_ended_thread_blocks_the_restart l :
  pollers l = [Looping] → _thread l = true → _event l = false →
  let ended := {| _thread := _thread l; _event := _event l; pollers := [] |} in
  thread_step l ended ∧
  is_polling ended = true ∧
  start_poll ended = Some ended ∧
  ∀ l', rtc life_step (stop_poll ended) l' →
        l' = stop_poll ended ∧ is_polling l' = false ∧ start_poll l' = None.
Proof.
  intros Hp Ht He ended. subst ended. split; [|split; [|split]].
  - apply (step_die l [] []). exact Hp.
  - unfold is_polling. simpl. by rewrite Ht, He.
  - unfold start_poll. simpl. by rewrite Ht, He.
  - unfold stop_poll. simpl. rewrite Ht.
    set (stuck := {| _thread := true; _event := true; pollers := [] |}).
    intros l' H.
    assert (Hl : l' = stuck).
    { apply rtc_ind_r with (x := stuck) (P := fun z => z = stuck) in H; try done.
      intros y z _ Hstep ->.
      inversion Hstep as [l0 l1 Hs | l0 | l0 l1 Hth]; subst.
      - vm_compute in Hs. discriminate.
      - reflexivity.
      - inversion Hth as [? a b Hl|? a b Hl|? a b Hl]; simpl in Hl; by destruct a. }
    by rewrite Hl.
Qed.
End LifeCycle.

(** ** The setters *)

Section SetterFacts.
Context {W : Type}.
Implicit Types (d : Dev W) (v : pyval).

Lemma with_pod_same d : with_pod (pod d) d = d.
Proof. by destruct d. Qed.

Lemma cbind_Ok {A B} (m : C (W := W) A) (k : A → C (W := W) B) d d' a :
  m d = (d', Ok a) → cbind m k d = k a d'.
Proof. unfold cbind. by intros ->. Qed.

Lemma cbind_Raise {A B} (m : C (W := W) A) (k : A → C (W := W) B) d d' e :
  m d = (d', Raise e) → cbind m k d = (d', Raise e).
Proof. unfold cbind. by intros ->. Qed.

Lemma on_pod_run {A} (m : M (W := W) A) d st' r :
  m (pod d) = (st', r) → on_pod m d = (with_pod st' d, r).
Proof. unfold on_pod. by intros ->. Qed.

(** [set_state] once the server has answered the state request. *)
Lemma Pod_set_state_run key value d s :
  cloud (pod d) (requests (pod d)) ReqAcState = Ok s →
  let p := {| patch_property := key; patch_current := s; patch_new := value |} in
  Pod_set_state key value d
  = (with_sent (sent d ++ [p])
       (with_pod (with_requests (S (requests (pod d))) (pod d)) d),
     match patch_reply d (length (sent d)) p with
     | None => Ok tt
     | Some e => Raise e
     end).
Proof.
  intros Hs p. unfold Pod_set_state.
  assert (E : on_pod Pod_state d
              = (with_pod (with_requests (S (requests (pod d))) (pod d)) d, Ok s)).
  { apply on_pod_run. unfold Pod_state, http_get. by rewrite Hs. }
  rewrite (cbind_Ok _ _ _ _ _ E). unfold Pod__patch. fold p.
  destruct d as [st lf sn pr]; simpl. by destruct (pr (length sn) p).
Qed.

Lemma sent_try_except_raise {A} (body : C (W := W) A) d :
  sent (fst (ctry_except body (exn_eqb AttributeError) (craise AttributeError) d))
  = sent (fst (body d)).
Proof.
  unfold ctry_except. destruct (body d) as [d' [a|e]]; [reflexivity|].
  by destruct (exn_eqb AttributeError e).
Qed.

(** A setter that checks its value against a list of the capabilities. *)
Lemma listed_setter (supported : option (list pyval)) key value d :
  let run :=
    ctry_except
      (match (match supported with
              | Some l => Ok l
              | None => Raise AttributeError
              end) with
       | Ok l => if py_in value l then Pod_set_state key value
                 else craise ValueError
       | Raise e => craise e
       end)
      (exn_eqb AttributeError) (craise AttributeError) d in
  (supported = None → run = (d, Raise AttributeError)) ∧
  (∀ l, supported = Some l → py_in value l = false →
        run = (d, Raise ValueError)) ∧
  (∀ l s, supported = Some l → py_in value l = true →
          cloud (pod d) (requests (pod d)) ReqAcState = Ok s →
          sent (fst run)
          = sent d ++ [{| patch_property := key; patch_current := s;
                          patch_new := value |}]).
Proof.
  intros run. subst run. split; [|split].
  - intros ->. reflexivity.
  - intros l -> Hin. unfold ctry_except. by rewrite Hin.
  - intros l s -> Hin Hs. rewrite sent_try_except_raise, Hin.
    rewrite (Pod_set_state_run key value d s Hs). by destruct d.
Qed.

(** X22.  The [swing] and [fan_level] setters send a value only when the
    mode's capabilities list it: with no list for the property they
    raise [AttributeError], with a list that lacks the value
    [ValueError], in both cases without a request to the server;
    otherwise they fetch the state and send the value with it. *)
Theorem listed_setters_send_supported_values_only (self : Mode) value d :
  let swing_run := Mode_swing_set self value d in
  let fan_run := Mode_fan_level_set self value d in
  ((swing (_supported self) = None → swing_run = (d, Raise AttributeError)) ∧
   (∀ l, swing (_supported self) = Some l → py_in value l = false →
         swing_run = (d, Raise ValueError)) ∧
   (∀ l s, swing (_supported self) = Some l → py_in value l = true →
           cloud (pod d) (requests (pod d)) ReqAcState = Ok s →
           sent (fst swing_run)
           = sent d ++ [{| patch_property := "swing"; patch_current := s;
                           patch_new := value |}])) ∧
  ((fanLevels (_supported self) = None → fan_run = (d, Raise AttributeError)) ∧
   (∀ l, fanLevels (_supported self) = Some l → py_in value l = false →
         fan_run = (d, Raise ValueError)) ∧
   (∀ l s, fanLevels (_supported self) = Some l → py_in value l = true →
           cloud (pod d) (requests (pod d)) ReqAcState = Ok s →
           sent (fst fan_run)
           = sent d ++ [{| patch_property := "fanLevel"; patch_current := s;
                           patch_new := value |}])).
Proof.
  intros swing_run fan_run. split.
  - exact (listed_setter (swing (_supported self)) "swing" value d).
  - exact (listed_setter (fanLevels (_supported self)) "fanLevel" value d).
Qed.

Lemma lower_is_no_capital c :
  Ascii.eqb (ascii_lower c) "C" = false ∧ Ascii.eqb (ascii_lower c) "F" = false.
Proof. destruct c as [[] [] [] [] [] [] [] []]; split; reflexivity. Qed.

Lemma upper_is_C c :
  Ascii.eqb (ascii_upper c) "C" = Ascii.eqb c "c" || Ascii.eqb c "C".
Proof. destruct c as [[] [] [] [] [] [] [] []]; reflexivity. Qed.

Lemma upper_is_F c :
  Ascii.eqb (ascii_upper c) "F" = Ascii.eqb c "f" || Ascii.eqb c "F".
Proof. destruct c as [[] [] [] [] [] [] [] []]; reflexivity. Qed.

Lemma unit_listed (a : ascii) (r : string) :
  existsb (String.eqb (String a r)) ["C"; "F"]
  = (Ascii.eqb a "C" || Ascii.eqb a "F") && String.eqb r "".
Proof.
  cbn [existsb]. rewrite orb_false_r.
  change (String.eqb (String a r) "C")
    with (if Ascii.eqb a "C" then String.eqb r "" else false).
  change (String.eqb (String a r) "F")
    with (if Ascii.eqb a "F" then String.eqb r "" else false).
  by destruct (Ascii.eqb a "C"), (Ascii.eqb a "F"), (String.eqb r "").
Qed.

(** The candidates of the [temp_unit] setter against the units [C] and
    [F]: the one sent, if any, is the capital of the first letter. *)
Lemma temp_unit_loop_C_F (self : Mode) (c : ascii) (rest : string) d s :
  Mode_supported_temp_units self = Ok ["C"; "F"] →
  cloud (pod d) (requests (pod d)) ReqAcState = Ok s →
  let first := ascii_upper c in
  let run :=
    temp_unit_loop self
      [lower (String c rest); title (String c rest);
       String (ascii_upper c) ""; String (ascii_lower c) ""] d in
  if Ascii.eqb first "C" || Ascii.eqb first "F"
  then sent (fst run)
       = sent d ++ [{| patch_property := "temperatureUnit"; patch_current := s;
                       patch_new := PStr (String first "") |}]
  else run = (d, Raise ValueError).
Proof.
  intros Hu Hs first run. subst first run.
  destruct (lower_is_no_capital c) as [L1 L2].
  cbn [temp_unit_loop lower title title_aux]. rewrite Hu.
  rewrite !unit_listed, L1, L2. cbn [orb andb].
  change (String.eqb "" "") with true. rewrite andb_true_r.
  destruct (Ascii.eqb (ascii_upper c) "C" || Ascii.eqb (ascii_upper c) "F") eqn:E;
    cbn [andb].
  - destruct (String.eqb (title_aux (is_cased c) rest) "") eqn:Et.
    + apply String.eqb_eq in Et. rewrite Et.
      rewrite (Pod_set_state_run _ _ d s Hs). by destruct d.
    + rewrite (Pod_set_state_run _ _ d s Hs). by destruct d.
  - reflexivity.
Qed.

(** X23.  On a mode whose temperatures are given in [C] and [F], the
    [temp_unit] setter takes any text by its first letter, in either
    case: a text starting with [c] or [C] sends [C], one starting with
    [f] or [F] sends [F], and any other text that is not empty raises
    [ValueError] with nothing sent. *)
Theorem temp_unit_setter_goes_by_the_first_letter
    (self : Mode) (c : ascii) (rest : string) d s :
  Mode_supported_temp_units self = Ok ["C"; "F"] →
  cloud (pod d) (requests (pod d)) ReqAcState = Ok s →
  let run := Mode_temp_unit_set self (PStr (String c rest)) d in
  let sends unit :=
    sent (fst run)
    = sent d ++ [{| patch_property := "temperatureUnit"; patch_current := s;
                    patch_new := PStr unit |}] in
  (In c ["c"; "C"]%char → sends "C") ∧
  (In c ["f"; "F"]%char → sends "F") ∧
  (¬ In c ["c"; "C"; "f"; "F"]%char → run = (d, Raise ValueError)).
Proof.
  intros Hu Hs run sends. subst run sends.
  assert (H := temp_unit_loop_C_F self c rest d s Hu Hs). cbv zeta in H.
  unfold Mode_temp_unit_set. cbn [title title_aux lower first_char].
  rewrite upper_is_C, upper_is_F in H.
  split; [|split].
  - intros [<-|[<-|[]]]; exact H.
  - intros [<-|[<-|[]]]; exact H.
  - intros Hn.
    destruct (Ascii.eqb_spec c "c") as [->|_]; [exfalso; apply Hn; simpl; tauto|].
    destruct (Ascii.eqb_spec c "C") as [->|_]; [exfalso; apply Hn; simpl; tauto|].
    destruct (Ascii.eqb_spec c "f") as [->|_]; [exfalso; apply Hn; simpl; tauto|].
    destruct (Ascii.eqb_spec c "F") as [->|_]; [exfalso; apply Hn; simpl; tauto|].
    exact H.
Qed.

(** X24.  On every device whose capabilities have no mode that is itself
    called [mode], setting [Pod.mode] to a value that is no [Mode]
    instance (the name of a mode, say) raises [AttributeError] with
    nothing sent and the current mode kept: the setter looks for the key
    ['mode'] among the modes instead of looking for the value. *)
Theorem mode_is_not_set_by_name value d :
  "mode" ∉ capabilities_modes (pod d) →
  Pod_mode_set value d = (d, Raise AttributeError).
Proof.
  intros Hn. unfold Pod_mode_set.
  assert (E : on_pod (gets capabilities_modes) d = (d, Ok (capabilities_modes (pod d)))).
  { unfold on_pod, gets. by rewrite with_pod_same. }
  rewrite (cbind_Ok _ _ _ _ _ E).
  by rewrite bool_decide_eq_false_2.
Qed.
End SetterFacts.

Section TempSetter.
Context {W : Type} {libm : Libm}.
Implicit Types (d : Dev W) (st : St W) (v : pyval).

Lemma reports_requests st s n :
  reports st s → requests st ≤ n → reports (with_requests n st) s.
Proof. intros Hs Hn k Hk. destruct st; simpl in *. apply Hs. simpl. lia. Qed.

Lemma Pod_state_reports st s :
  reports st s → Pod_state st = (with_requests (S (requests st)) st, Ok s).
Proof. intros Hs. unfold Pod_state, http_get. by rewrite (Hs _ (le_n _)). Qed.

Lemma Mode_temp_unit_reports st s :
  reports st s →
  Mode_temp_unit st
  = (with_requests (S (requests st)) st,
     match s !! "temperatureUnit" with
     | Some v => Ok v
     | None => Raise AttributeError
     end).
Proof.
  intros Hs. unfold Mode_temp_unit.
  rewrite (bind_Ok _ _ _ _ _ (Pod_state_reports st s Hs)).
  by destruct (s !! "temperatureUnit").
Qed.

(** [supported_temps] asks the server for the unit twice. *)
Lemma Mode_supported_temps_reports (self : Mode) st s unit ts values :
  reports st s →
  s !! "temperatureUnit" = Some unit →
  temperatures (_supported self) = Some ts →
  temperatures_item ts unit = Some (Some values) →
  Mode_supported_temps self st
  = (with_requests (S (S (requests st))) st, Ok values).
Proof.
  intros Hs Hu Ht Hv. unfold Mode_supported_temps.
  assert (E1 : try_except Mode_temp_unit (exn_eqb AttributeError)
                 (raise AttributeError) st
               = (with_requests (S (requests st)) st, Ok unit)).
  { unfold try_except. by rewrite (Mode_temp_unit_reports st s Hs), Hu. }
  rewrite (bind_Ok _ _ _ _ _ E1). rewrite Ht, Hv.
  rewrite bool_decide_eq_true_2 by done.
  set (st1 := with_requests _ st).
  assert (Hs1 : reports st1 s) by (apply reports_requests; [exact Hs | lia]).
  assert (E2 := Mode_temp_unit_reports st1 s Hs1). rewrite Hu in E2.
  rewrite (bind_Ok _ _ _ _ _ E2).
  rewrite Hv. subst st1. unfold ret. by destruct st.
Qed.

(** X25.  The [temp] setter converts its value with [int] first, a text
    being read as a number in base ten and a float truncated: a value
    [int] refuses leaves the setter with the exception of [int],
    nothing being asked of the server.  The integer is then checked
    against the temperatures the mode supports in the unit the device
    reports: one that is not listed raises [ValueError] and nothing is
    sent; a listed one is sent as the integer, not as the value
    given. *)
Theorem temp_setter_sends_the_integer_if_listed
    (self : Mode) value d s unit ts values :
  reports (pod d) s →
  s !! "temperatureUnit" = Some unit →
  temperatures (_supported self) = Some ts →
  temperatures_item ts unit = Some (Some values) →
  let run := Mode_temp_set self value d in
  match py_int value with
  | Raise e => run = (d, Raise e)
  | Ok z =>
      if py_in (PInt z) values
      then sent (fst run)
           = sent d ++ [{| patch_property := "targetTemperature";
                           patch_current := s; patch_new := PInt z |}]
      else snd run = Raise ValueError ∧ sent (fst run) = sent d
  end.
Proof.
  intros Hs Hu Ht Hv run. subst run. unfold Mode_temp_set.
  destruct (py_int value) as [z|e]; [|reflexivity].
  assert (E : on_pod (Mode_supported_temps self) d
              = (with_pod (with_requests (S (S (requests (pod d)))) (pod d)) d,
                 Ok values)).
  { apply on_pod_run. by apply (Mode_supported_temps_reports self _ s unit ts). }
  destruct (py_in (PInt z) values) eqn:Hin.
  - rewrite sent_try_except_raise, (cbind_Ok _ _ _ _ _ E), Hin.
    set (d1 := with_pod _ d).
    rewrite (Pod_set_state_run "targetTemperature" (PInt z) d1 s).
    + by destruct d.
    + subst d1. destruct d as [st lf sn pr]. simpl in *.
      destruct st; simpl in *. apply Hs. simpl. lia.
  - unfold ctry_except. rewrite (cbind_Ok _ _ _ _ _ E), Hin.
    split; [reflexivity | by destruct d].
Qed.
End TempSetter.

(** ** The scenarios *)

Section Scenarios.
#[local] Existing Instance scenario_libm.

(** C1, the code at the failing input.  The baseline holds a battery
    voltage; in the iteration the request that names it is refused and
    the fallback reply has none: the iteration publishes
    [battery_voltage] with [None] and overwrites the baseline with
    [None]. *)
Theorem absent_battery_reading_is_published_as_a_change :
  let st := pod_at_rest "den" "cool" den_modes (battery_dropping_cloud 2) in
  old_measurements (exec poll_baseline st) !! "batteryVoltage"
  = Some (PInt 3000) ∧
  outcome (Pod__poll 1) st = Ok tt ∧
  published (exec (Pod__poll 1) st)
  = [pod_event "den" "battery_voltage" PNone] ∧
  old_measurements (exec (Pod__poll 1) st) !! "batteryVoltage" = Some PNone.
Proof. vm_compute. repeat split; reflexivity. Qed.

(** C3, the code at the failing input.  [Pod.bind] on a pod named
    "Den" registers the pattern "Den.power"; the event "Den.power",
    equal to it letter for letter, calls no callback, since only
    the pattern is lower-cased. *)
Theorem pattern_equal_to_event_is_not_matched :
  let st := exec (Pod_bind "power" (logging "power changed"))
                 (pod_at_rest "Den" "cool" den_modes
                    (steady_cloud den_state den_measurements true)) in
  map fst (callbacks st) = ["Den.power"] ∧
  matches "Den.power" "Den.power" = false ∧
  outcome (Notify "Den.power" (PBool true) (PodObj "Den")) st = Ok tt ∧
  invoked (exec (Notify "Den.power" (PBool true) (PodObj "Den")) st) = [] ∧
  world (exec (Notify "Den.power" (PBool true) (PodObj "Den")) st) = [].
Proof. vm_compute. repeat split; reflexivity. Qed.


Ltac same_map := apply map_to_list_inj; vm_compute; reflexivity.

Ltac each_key Hk tac :=
  cbn [In] in Hk;
  repeat (destruct Hk as [<-|Hk]; [tac|]);
  destruct Hk.

Lemma identical_snapshots_publish_nothing_witness :
  published (exec (diff den_state den_measurements) den_polled)
  = published den_polled.
Proof.
  refine (proj2 (identical_snapshots_publish_nothing den_polled den_state
                   den_measurements _ _)).
  - intros k Hk. exists (get_or_None den_state k).
    each_key Hk ltac:(split; vm_compute; reflexivity).
  - intros k Hk. exists (get_or_None den_measurements k).
    each_key Hk ltac:(split; vm_compute; reflexivity).
Defined.

Lemma power_change_alone_publishes_power_witness :
  published (exec (diff den_state den_measurements) den_off_polled)
  = published den_off_polled ++ [pod_event "den" "power" (PBool true)].
Proof.
  destruct (power_change_alone_publishes_power den_off_polled den_state
              den_measurements (PBool false)) as (b & Hp & Hb).
  - intros k Hk. exists (get_or_None den_state k).
    each_key Hk ltac:(split; vm_compute; reflexivity).
  - intros k Hk. exists (get_or_None den_measurements k).
    each_key Hk ltac:(split; vm_compute; reflexivity).
  - vm_compute. discriminate.
  - split; vm_compute; reflexivity.
  - destruct b; [exact Hp|]. exfalso.
    destruct (proj1 Hb eq_refl) as [H|[H|[H|[(f & H & _)|H]]]];
      vm_compute in H; discriminate.
Defined.

(** C6, counterexample.  The fetched dictionaries are those of the
    baselines but for [on]; the temperature is a NaN on both sides: the
    pass publishes the power event and the three events of a changed
    temperature as well. *)
Lemma power_change_beside_a_nan_publishes_more :
  let st := exec poll_baseline fevered_pod in
  delete "on" den_switched_off = delete "on" (old_state st) ∧
  old_measurements st = den_fevered ∧
  published (exec (diff den_switched_off den_fevered) st)
  = [pod_event "den" "power" (PBool false);
     pod_event "den" "room_temp" (PFloat nan);
     pod_event "den" "room_dew_point" (PFloat nan);
     pod_event "den" "room_heat_index" (PFloat nan)].
Proof.
  split; [same_map|]. split; [same_map|]. vm_compute. reflexivity.
Qed.

(** C5, counterexample.  The server keeps reporting the same state and
    the same measurements, the temperature among them a NaN: the
    fetched dictionaries are the baselines themselves, and every pass
    publishes the temperature and the two derived readings again. *)
Lemma identical_snapshots_holding_nan_publish :
  let st := exec poll_baseline fevered_pod in
  old_state st = den_state ∧
  old_measurements st = den_fevered ∧
  published (exec (diff den_state den_fevered) st)
  = [pod_event "den" "room_temp" (PFloat nan);
     pod_event "den" "room_dew_point" (PFloat nan);
     pod_event "den" "room_heat_index" (PFloat nan)] ∧
  outcome (Pod__poll 3) fevered_pod = Ok tt ∧
  map ev_name (published (exec (Pod__poll 3) fevered_pod))
  = ["den.room_temp"; "den.room_dew_point"; "den.room_heat_index";
     "den.room_temp"; "den.room_dew_point"; "den.room_heat_index";
     "den.room_temp"; "den.room_dew_point"; "den.room_heat_index"].
Proof.
  split; [same_map|]. split; [same_map|].
  vm_compute. repeat split; reflexivity.
Qed.

Lemma mode_and_swing_change_witness :
  ∃ rest,
    published (exec (diff den_heating den_measurements) den_polled)
    = published den_polled ++
      pod_event "den" "mode" (PStr "heat") ::
      mode_event "den" "heat" "swing" (PStr "rangeFull") :: rest.
Proof.
  destruct (mode_and_swing_change_publish_under_new_mode den_polled den_heating
              den_measurements "cool" "heat" (PStr "stopped"))
    as [(rest & Hp & Hok & _) _].
  - change ("heat" ∈ den_modes). unfold den_modes.
    apply (bool_decide_unpack _). vm_compute. exact I.
  - vm_compute. reflexivity.
  - split; vm_compute; reflexivity.
  - vm_compute. discriminate.
  - split; vm_compute; reflexivity.
  - destruct Hok as [rest' ->]; [vm_compute; reflexivity|].
    exists rest'. exact Hp.
Defined.

(** C4, counterexample.  The mode changes from "cool" and the swing from
    "stopped", both fetched values known.  With the new mode "turbo",
    which the capabilities do not list, the pass ends with [KeyError]
    and publishes nothing; with the new mode "heat" and a callback of
    the mode event that raises, the pass ends with the exception after
    the mode event, and no swing event is published. *)
Lemma mode_and_swing_change_without_swing_event :
  let unlisted := <["swing" := PStr "rangeFull"]> den_turbo in
  (changed_from (old_state den_polled) unlisted "mode" (PStr "cool") ∧
   changed_from (old_state den_polled) unlisted "swing" (PStr "stopped") ∧
   outcome (diff unlisted den_measurements) den_polled = Raise KeyError ∧
   published (exec (diff unlisted den_measurements) den_polled)
   = published den_polled) ∧
  (changed_from (old_state den_watched) den_heating "mode" (PStr "cool") ∧
   changed_from (old_state den_watched) den_heating "swing" (PStr "stopped") ∧
   outcome (diff den_heating den_measurements) den_watched
   = Raise (OtherError "boom") ∧
   published (exec (diff den_heating den_measurements) den_watched)
   = published den_watched ++ [pod_event "den" "mode" (PStr "heat")]).
Proof. vm_compute. repeat split; reflexivity. Qed.

Lemma den_warming_serves : serves den_warming den_warmer den_state.
Proof.
  intros n Hn. change (2 ≤ n) in Hn.
  change (cloud den_warming) with (warming_cloud 2). unfold warming_cloud.
  split; [reflexivity|]. left.
  destruct (Nat.ltb_spec n 2); [lia | reflexivity].
Defined.

Lemma den_warming_no_attribute_error : no_attribute_error (callbacks den_warming).
Proof.
  intros evt cbs g cb Hd Hc event value obj w.
  vm_compute in Hd. destruct Hd as [Hd|[]]. injection Hd as <- <-.
  destruct Hc as [Hc|[]]. injection Hc as <- <-. discriminate.
Defined.

Lemma measurement_events_in_order_witness :
  let dp := value_of (dew_point_of (PFloat 23.0) (PInt 55) false) in
  let hi := value_of (heat_index_of (PFloat 23.0) (PInt 55) true) in
  published (exec (diff_measurements den_warmer) den_warming)
  = published den_warming ++
    [pod_event "den" "room_temp" (PFloat 23.0);
     pod_event "den" "room_humidity" (PInt 55);
     pod_event "den" "room_dew_point" (PFloat dp);
     pod_event "den" "room_heat_index" (PFloat hi);
     pod_event "den" "battery_voltage" (PInt 2950)].
Proof.
  intros dp hi.
  refine (measurement_events_in_order den_warming den_warmer
            den_warmer den_state (PFloat 23.0) (PInt 55) "C" dp hi
            _ _ _ _ _ _ _ _).
  - exact den_warming_serves.
  - vm_compute. reflexivity.
  - vm_compute. reflexivity.
  - vm_compute. reflexivity.
  - vm_compute. reflexivity.
  - vm_compute. reflexivity.
  - exact den_warming_no_attribute_error.
  - vm_compute. reflexivity.
Defined.

(** C7, counterexample.  Temperature, humidity and battery voltage all
    changed since the baselines were taken, the humidity to zero: the
    iteration publishes [room_temp] and [room_humidity], no derived
    event, and ends with the [ValueError] of [math.log] before the
    battery voltage is diffed, the battery baseline left as it was. *)
Lemma dry_air_ends_the_tick_before_the_battery :
  let st := pod_at_rest "den" "cool" den_modes (drying_cloud 2) in
  map_to_list (old_measurements (exec poll_baseline st))
  = map_to_list den_measurements ∧
  outcome (Pod__poll 1) st = Raise ValueError ∧
  published (exec (Pod__poll 1) st)
  = [pod_event "den" "room_temp" (PFloat 23.0);
     pod_event "den" "room_humidity" (PInt 0)] ∧
  get_or_None (old_measurements (exec (Pod__poll 1) st)) "batteryVoltage"
  = PInt 3000.
Proof. vm_compute. repeat split; reflexivity. Qed.

Lemma dew_point_unavailable_witness :
  outcome Pod_room_dew_point unitless_pod = Raise AttributeError.
Proof.
  refine (proj2 (proj1 (dew_point_unavailable_exactly_when unitless_pod
                          den_measurements (delete "temperatureUnit" den_state) _)) _).
  - intros n _. split; reflexivity.
  - right. right. split; vm_compute; reflexivity.
Defined.

(** C9, counterexample.  The unit of measure is reported and cached,
    yet the dew point is unavailable: the humidity reading is absent. *)
Lemma dew_point_unavailable_with_unit_known :
  unit_text den_state = Some "C" ∧
  __fnht dry_pod = Some false ∧
  outcome Pod_room_dew_point dry_pod = Raise AttributeError.
Proof. vm_compute. repeat split; reflexivity. Qed.



Lemma absent_state_field_witness :
  old_state (exec (diff_state (delete "swing" den_switched_off)) den_polled)
    !! "swing"
  = old_state den_polled !! "swing".
Proof.
  refine (absent_state_field_keeps_its_baseline den_polled
            (delete "swing" den_switched_off) "swing" _).
  vm_compute. reflexivity.
Defined.

Lemma Notify_all_return_witness :
  outcome (Notify "den.power" (PBool false) (PodObj "den")) den_polled = Ok tt ∧
  invoked (exec (Notify "den.power" (PBool false) (PodObj "den")) den_polled)
  = invoked den_polled ++ [("den.*", 0)].
Proof.
  refine (Notify_all_return den_polled "den.power" (PBool false) (PodObj "den") _).
  intros c Hc w. vm_compute in Hc. destruct Hc as [<-|[]]. reflexivity.
Defined.

Lemma exact_pattern_witness :
  ¬ In ("den.power", 0)
       (drop (length (invoked den_guarded))
          (invoked (exec (Notify "DEN.POWER" (PBool true) (PodObj "den"))
                      den_guarded))).
Proof.
  refine (proj2 (exact_pattern_is_called_on_its_lower_case_only den_guarded
                   "den.power" "DEN.POWER" (PBool true) (PodObj "den") _ _ _)
            _ 0).
  - reflexivity.
  - reflexivity.
  - reflexivity.
  - vm_compute. discriminate.
Defined.
End Scenarios.

(** ** The further scenarios *)

Section FurtherScenarios.
#[local] Existing Instance scenario_libm.

Ltac by_key Hk tac :=
  cbn [In] in Hk;
  repeat (destruct Hk as [<-|Hk]; [tac|]);
  destruct Hk.

Lemma den_polled_drawn : drawn_below (next_guid den_polled) (callbacks den_polled).
Proof.
  intros g Hg. vm_compute in Hg. destruct Hg as [<-|[]]. vm_compute. lia.
Defined.

Lemma Notify_unbind_unknown_id_witness :
  Notify_unbind 7 den_polled = (den_polled, Ok tt).
Proof.
  refine (Notify_unbind_unknown_id 7 den_polled _).
  vm_compute. intros [H|[]]. discriminate.
Defined.

Lemma Notify_bind_adds_witness :
  outcome (Notify_bind "den.power" (logging "power")) den_polled = Ok 1.
Proof.
  refine (proj1 (Notify_bind_adds "den.power" (logging "power") den_polled _)).
  exact den_polled_drawn.
Defined.

Lemma bind_then_unbind_witness :
  matching
    (callbacks
       (exec (g <- Notify_bind "den.power" (logging "power") ;; Notify_unbind g)
             den_polled))
    "den.power"
  = matching (callbacks den_polled) "den.power".
Proof.
  refine (proj2 (bind_then_unbind_restores_the_calls "den.power"
                   (logging "power") den_polled _) "den.power").
  exact den_polled_drawn.
Defined.

Lemma Pod_bind_star_witness :
  let st := pod_at_rest "den" "cool" den_modes
              (steady_cloud den_state den_measurements true) in
  In ("den.*", 0, logging "seen")
     (matching (callbacks (exec (Pod_bind "*" (logging "seen")) st))
        "den.cool.temp").
Proof.
  intros st.
  refine (proj2 (proj2 (Pod_bind_star_hears_the_pod (logging "seen") st _ _)
                   "den.cool.temp") _).
  - reflexivity.
  - reflexivity.
  - left. exists "cool.temp". reflexivity.
Defined.

Lemma Pod_bind_lower_case_witness :
  let st := pod_at_rest "den" "cool" den_modes
              (steady_cloud den_state den_measurements true) in
  In ("den.power", 0, logging "power")
     (matching (callbacks (exec (Pod_bind "power" (logging "power")) st))
        "den.power")
  ↔ lower "den" = "den".
Proof.
  intros st.
  refine (Pod_bind_hears_its_event_iff_lower_case "power" (logging "power") st
            _ _ _ _).
  - reflexivity.
  - simpl. tauto.
  - reflexivity.
  - reflexivity.
Defined.

Lemma Client_bind_suffix_witness :
  let st := pod_at_rest "den" "cool" den_modes
              (steady_cloud den_state den_measurements true) in
  outcome (Client_bind "temp" (logging "setpoint")) st = Ok 0.
Proof.
  intros st.
  refine (proj1 (Client_bind_hears_the_suffix "temp" (logging "setpoint") st _)).
  unfold Client_property_names. simpl. tauto.
Defined.

Lemma Mode_bind_witness :
  let st := pod_at_rest "den" "cool" den_modes
              (steady_cloud den_state den_measurements true) in
  outcome (Mode_bind "cool" "swing" (logging "louvre")) st = Ok 0.
Proof.
  intros st.
  refine (proj1 (proj1 (Mode_bind_hears_its_mode_only "cool" "swing"
                          (logging "louvre") st _ _ _) _)).
  - reflexivity.
  - reflexivity.
  - reflexivity.
  - simpl. tauto.
Defined.

Lemma state_events_in_order_witness :
  published (exec (diff_state den_heating) den_polled)
  = published den_polled ++
    [pod_event "den" "mode" (PStr "heat");
     mode_event "den" "heat" "swing" (PStr "rangeFull")].
Proof.
  refine (proj1 (state_events_in_order den_polled den_heating _)).
  vm_compute. reflexivity.
Defined.

Lemma completed_pass_witness :
  let st' := exec (diff den_heating den_warmer) den_polled in
  diff den_heating den_warmer st' = (st', Ok tt).
Proof.
  refine (completed_pass_is_not_repeated den_polled den_heating den_warmer _ _ _).
  - intros k Hk. by_key Hk ltac:(reflexivity).
  - intros k Hk. by_key Hk ltac:(reflexivity).
  - vm_compute. reflexivity.
Defined.

Lemma steady_server_witness :
  let st := pod_at_rest "den" "cool" den_modes
              (steady_cloud den_state den_measurements true) in
  let st' := exec (Pod__poll 3) st in
  outcome (Pod__poll 3) st = Ok tt ∧
  published st' = published st ∧
  invoked st' = invoked st ∧
  world st' = world st ∧
  requests st' = requests st + 2 + 2 * 3.
Proof.
  intros st.
  refine (steady_server_polls_in_silence st den_measurements den_state 3 _ _ _).
  - intros n _. split; reflexivity.
  - intros k Hk. by_key Hk ltac:(reflexivity).
  - intros k Hk. by_key Hk ltac:(reflexivity).
Defined.

Lemma unknown_mode_witness :
  diff den_turbo den_measurements den_polled = (den_polled, Raise KeyError).
Proof.
  refine (unknown_mode_ends_the_pass den_polled den_turbo den_measurements
            (PStr "cool") _ _ _).
  - vm_compute. discriminate.
  - split; vm_compute; reflexivity.
  - intros B HB. vm_compute in HB.
    assert (B = "turbo") as -> by congruence.
    change ("turbo" ∉ den_modes). apply (bool_decide_unpack _). vm_compute. exact I.
Defined.

Lemma battery_voltage_witness :
  Pod_battery_voltage mains_pod
  = (with_requests 2 mains_pod, Raise AttributeError).
Proof.
  refine (battery_voltage_of_the_fallback_reply mains_pod
            (delete "batteryVoltage" den_measurements) _ _).
  - reflexivity.
  - reflexivity.
Defined.

Lemma unit_flags_witness :
  let st := pod_at_rest "den" "cool" den_modes
              (steady_cloud den_state den_measurements true) in
  __fnht (exec Pod_room_dew_point st) = Some false ∧
  __clcs (exec Pod_room_dew_point st) = Some true ∧
  __clcs (exec Pod_room_heat_index st) = Some true ∧
  __fnht (exec Pod_room_heat_index st) = Some false.
Proof.
  intros st.
  refine (unit_flags_are_cached_before_the_arithmetic st den_measurements
            den_state (PFloat 22.5) (PInt 50) "C" _ _ _ _).
  - intros n _. split; reflexivity.
  - reflexivity.
  - reflexivity.
  - reflexivity.
Defined.

Lemma parched_pod_serves :
  serves parched_pod (<["humidity" := PInt 0]> den_measurements) den_state.
Proof. intros n _. split; [reflexivity | left; reflexivity]. Defined.

Lemma hi_dp_event_witness :
  (outcome hi_dp_event parched_pod = Raise ValueError ∧
   published (exec hi_dp_event parched_pod) = published parched_pod) ∧
  published (exec hi_dp_event den_warming)
  = published den_warming ++
    [pod_event "den" "room_dew_point"
       (PFloat (value_of (dew_point_of (PFloat 23.0) (PInt 55) false)));
     pod_event "den" "room_heat_index"
       (PFloat (value_of (heat_index_of (PFloat 23.0) (PInt 55) true)))].
Proof.
  split.
  - assert (H := hi_dp_event_is_best_effort parched_pod
                   (<["humidity" := PInt 0]> den_measurements) den_state
                   parched_pod_serves).
    cbv zeta in H.
    replace (dew_point_reading (<["humidity" := PInt 0]> den_measurements)
               den_state (__fnht parched_pod))
      with (Raise ValueError : result float) in H by (vm_compute; reflexivity).
    exact H.
  - assert (H := hi_dp_event_is_best_effort den_warming den_warmer den_state
                   den_warming_serves).
    cbv zeta in H.
    replace (dew_point_reading den_warmer den_state (__fnht den_warming))
      with (Ok (value_of (dew_point_of (PFloat 23.0) (PInt 55) false)))
      in H by (vm_compute; reflexivity).
    replace (heat_index_reading den_warmer den_state (__clcs den_warming))
      with (Ok (value_of (heat_index_of (PFloat 23.0) (PInt 55) true)))
      in H by (vm_compute; reflexivity).
    replace (dispatch_of _ den_warming) with (Ok tt : result unit) in H
      by (vm_compute; reflexivity).
    exact H.
Defined.

Lemma at_most_one_polling_thread_witness :
  length (pollers polling) ≤ 1 ∧
  (pollers polling = [Looping] → _thread polling = true) ∧
  (pollers polling = [Leaving] →
   is_polling polling = false ∧ start_poll polling = None).
Proof.
  refine (at_most_one_polling_thread polling _).
  apply rtc_once, call_start. reflexivity.
Defined.

Lemma ended_thread_witness :
  let ended := {| _thread := true; _event := false; pollers := [] |} in
  thread_step polling ended ∧
  is_polling ended = true ∧
  start_poll ended = Some ended ∧
  ∀ l', rtc life_step (stop_poll ended) l' →
        l' = stop_poll ended ∧ is_polling l' = false ∧ start_poll l' = None.
Proof.
  refine (an_ended_thread_blocks_the_restart polling _ _ _); reflexivity.
Defined.

Lemma temp_unit_setter_witness :
  sent (fst (Mode_temp_unit_set den_cool (PStr "celsius") den_device))
  = sent den_device ++
    [{| patch_property := "temperatureUnit"; patch_current := den_state;
        patch_new := PStr "C" |}].
Proof.
  refine (proj1 (temp_unit_setter_goes_by_the_first_letter den_cool "c" "elsius"
                   den_device den_state _ _) _).
  - reflexivity.
  - reflexivity.
  - simpl. tauto.
Defined.

Lemma mode_is_not_set_by_name_witness :
  Pod_mode_set (PStr "heat") den_device = (den_device, Raise AttributeError).
Proof.
  refine (mode_is_not_set_by_name (PStr "heat") den_device _).
  change ("mode" ∉ den_modes). apply (bool_decide_unpack _). vm_compute. exact I.
Defined.

Lemma den_device_reports : reports (pod den_device) den_state.
Proof. intros n _. reflexivity. Defined.

Lemma temp_setter_witness :
  sent (fst (Mode_temp_set den_cool (PStr " 21 ") den_device))
  = sent den_device ++
    [{| patch_property := "targetTemperature"; patch_current := den_state;
        patch_new := PInt 21 |}] ∧
  sent (fst (Mode_temp_set den_cool (PFloat 22.7) den_device))
  = sent den_device ++
    [{| patch_property := "targetTemperature"; patch_current := den_state;
        patch_new := PInt 22 |}] ∧
  Mode_temp_set den_cool (PStr "21.5") den_device
  = (den_device, Raise ValueError).
Proof.
  assert (H := fun value =>
    temp_setter_sends_the_integer_if_listed den_cool value den_device den_state
      (PStr "C")
      [("C", Some (map PInt [18; 19; 20; 21; 22; 23; 24; 25; 26]%Z));
       ("F", Some (map PInt [64; 66; 68; 70; 72; 73; 75; 77; 79]%Z))]
      (map PInt [18; 19; 20; 21; 22; 23; 24; 25; 26]%Z)
      den_device_reports eq_refl eq_refl eq_refl).
  split; [|split].
  - exact (H (PStr " 21 ")).
  - exact (H (PFloat 22.7)).
  - exact (H (PStr "21.5")).
Defined.

Lemma reported_once_witness :
  let st' := exec (diff_state den_switched_off) den_polled in
  old_state st' !! "on" = Some (get_or_None den_switched_off "on") ∧
  diff_state den_switched_off st' = (st', Ok tt).
Proof.
  refine (a_change_is_reported_once_whatever_the_callbacks_do den_polled
            den_switched_off (PBool true) _ _ _ _).
  - intros k Hk. exists (get_or_None den_state k).
    by_key Hk ltac:(split; vm_compute; reflexivity).
  - vm_compute. discriminate.
  - reflexivity.
  - split; vm_compute; reflexivity.
Defined.

Lemma bound_power_callback_witness :
  let st := exec poll_baseline
              (pod_at_rest "den" "cool" den_modes
                 (steady_cloud den_state den_measurements true)) in
  let st1 := exec (Pod_bind "power" (logging "switch")) st in
  let st2 := exec (diff den_switched_off den_measurements) st1 in
  invoked st2 = [("den.power", 0)] ∧ world st2 = ["switch"].
Proof.
  intros st st1 st2.
  destruct (a_bound_power_callback_is_called st (logging "switch")
              den_switched_off den_measurements (PBool true))
    as (_ & _ & Hi & Hw & _).
  - reflexivity.
  - reflexivity.
  - reflexivity.
  - intros k Hk. exists (get_or_None den_state k).
    by_key Hk ltac:(split; vm_compute; reflexivity).
  - intros k Hk. exists (get_or_None den_measurements k).
    by_key Hk ltac:(split; vm_compute; reflexivity).
  - vm_compute. discriminate.
  - split; vm_compute; reflexivity.
  - split; [exact Hi | exact Hw].
Defined.

Lemma listed_setters_witness :
  sent (fst (Mode_swing_set den_cool (PStr "rangeFull") den_device))
  = sent den_device ++
    [{| patch_property := "swing"; patch_current := den_state;
        patch_new := PStr "rangeFull" |}].
Proof.
  refine (proj2 (proj2 (proj1 (listed_setters_send_supported_values_only den_cool
                                 (PStr "rangeFull") den_device)))
            [PStr "stopped"; PStr "rangeFull"] den_state _ _ _).
  - reflexivity.
  - reflexivity.
  - reflexivity.
Defined.
End FurtherScenarios.
